(** * ChainPlays: on-chain votes driving a Game Boy emulator

    A shallow embedding of the three pipeline variants of the repository

    - [chainplays.py]        windowed ("democracy") mode,
    - [chainplaysChaos.py]   chaos mode,
    - [chainplaysTESTING.py] the minimal variant,

    and the properties of the poller, the aggregator and the applicator.

    Modelling conventions.
    - Python [int] is [Z]; [str] is [string].
    - A Python statement sequence that mutates shared objects and may raise
      is a computation [M S A := S -> S * result A]: the effects performed
      before an exception stay in the state, as in Python.
    - [collections.Counter] is an insertion-ordered list of items (a Python
      dict iterates in insertion order, and [most_common] depends on it).
    - [queue.Queue] is a list, head first: [put] appends, [get_nowait]
      removes the head.
    - The web3 node and the ABI codec are external: a [node] gives the
      answers of one polling cycle, the class [Codec] is [get_event_data].
    - The emulator is external: a [PyBoy] gives the result of [tick()] after
      any history of calls, and the history is the calls the applicator
      made, [button] with its two arguments and [tick]; how the emulator
      reads the second argument of [button] is not modelled.
    - [time.sleep] and [print] have no effect on the modelled state and are
      left out. *)

From stdpp Require Import gmap strings list.
From Stdlib Require Import ZArith Lia Ascii.

Local Open Scope string_scope.
Local Open Scope list_scope.
Local Open Scope Z_scope.

(** ** Exceptions and the state-and-exception monad *)

Definition exn := string.

Inductive result (A : Type) : Type :=
| Ok (a : A)
| Raise (e : exn).
Arguments Ok {A} a.
Arguments Raise {A} e.

Definition M (S A : Type) : Type := S -> S * result A.

Definition ret {S A} (a : A) : M S A := fun s => (s, Ok a).

Definition bind {S A B} (m : M S A) (k : A -> M S B) : M S B :=
  fun s => match m s with
           | (s', Ok a) => k a s'
           | (s', Raise e) => (s', Raise e)
           end.

Definition lift {S A} (r : result A) : M S A := fun s => (s, r).

Definition modify {S} (f : S -> S) : M S unit := fun s => (f s, Ok tt).

(** [try: m except Exception as e: handler e] *)
Definition try_except {S A} (m : M S A) (handler : exn -> M S A) : M S A :=
  fun s => match m s with
           | (s', Ok a) => (s', Ok a)
           | (s', Raise e) => handler e s'
           end.

Declare Scope py_scope.
Delimit Scope py_scope with py.
Notation "x <- m ;; k" := (bind m (fun x => k))
  (at level 100, m at next level, right associativity) : py_scope.
Notation "m ;;; k" := (bind m (fun _ => k))
  (at level 100, right associativity) : py_scope.
Local Open Scope py_scope.

(** [for x in l: body x] *)
Fixpoint for_each {S A} (l : list A) (body : A -> M S unit) : M S unit :=
  match l with
  | [] => ret tt
  | x :: l' => body x ;;; for_each l' body
  end.

(** Truth value of the result of [dict.get]: [None] and the empty string
    are false. *)
Definition truthy (btn : option string) : bool :=
  match btn with
  | Some s => negb (String.eqb s "")
  | None => false
  end.

(** ** collections.Counter *)

Module Counter.

(** The items [(key, count)] in insertion order; keys are distinct. *)
Definition t := list (Z * Z).

(** [c[k]]: a missing key counts 0 ([Counter.__missing__]) and is not
    inserted. *)
Fixpoint get (c : t) (k : Z) : Z :=
  match c with
  | [] => 0
  | (k', n) :: c' => if Z.eqb k' k then n else get c' k
  end.

(** [c[k] = v]: an existing key keeps its position, a new key goes last. *)
Fixpoint set (c : t) (k v : Z) : t :=
  match c with
  | [] => [(k, v)]
  | (k', n) :: c' => if Z.eqb k' k then (k', v) :: c' else (k', n) :: set c' k v
  end.

(** [c[k] += 1] *)
Definition incr (c : t) (k : Z) : t := set c k (get c k + 1).

(** [max(items, key=itemgetter(1))] started from [best]: a later item
    replaces the current one only when its count is strictly greater. *)
Fixpoint max_item (best : Z * Z) (items : t) : Z * Z :=
  match items with
  | [] => best
  | x :: items' =>
      if Z.gtb (snd x) (snd best) then max_item x items' else max_item best items'
  end.

(** [c.most_common(1)], which is [heapq.nlargest(1, c.items(), key=count)]:
    the empty list for an empty counter, else the first maximal item. *)
Definition most_common_1 (c : t) : list (Z * Z) :=
  match c with
  | [] => []
  | x :: c' => [max_item x c']
  end.

(** [not c] *)
Definition is_empty (c : t) : bool :=
  match c with [] => true | _ => false end.

(** [c.clear()] *)
Definition clear (c : t) : t := [].

End Counter.

(** ** The external collaborators *)

(** The decoded arguments of a [Move] event. *)
Record MoveArgs := {
  sender : string;
  cmd : Z;
  weight : Z;
  memo : string;
}.

(** [get_event_data(w3.codec, ABI[0], log)] *)
Class Codec := {
  Log : Type;
  get_event_data : Log -> result MoveArgs;
}.

(** The filter of [w3.eth.get_logs]; address and topics are constant. *)
Record filter_params := {
  fromBlock : Z;
  toBlock : Z;
}.

(** What the node answers during one polling cycle. *)
Record node `{Codec} := {
  block_number : result Z;
  get_logs : filter_params -> result (list Log);
}.

(** The emulator: the calls made on it, oldest first, and the result of
    [pyboy.tick()] after a given history. A call [pyboy.button(btn, arg)]
    is recorded with both arguments as the program passes them; what the
    emulator makes of the second one is not part of the model. *)
Inductive emu_op :=
| Button (btn : string) (arg : bool)
| Tick.

Definition history := list emu_op.
Definition PyBoy := history -> bool.

(** [pyboy.button(btn, arg)] *)
Definition button (btn : string) (arg : bool) (h : history) : history :=
  h ++ [Button btn arg].

(** [pyboy.tick()]: the step is performed, and its result is returned. *)
Definition tick (pyboy : PyBoy) (h : history) : bool * history :=
  (pyboy h, h ++ [Tick]).

(** ** Python strings *)

(** [s.startswith(p)] *)
Definition startswith (s p : string) : bool := String.prefix p s.

(** [c.lower()] for an ASCII character: A..Z go to a..z. *)
Definition ascii_lower (c : ascii) : ascii :=
  let n := nat_of_ascii c in
  if (Nat.leb 65 n && Nat.leb n 90)%bool then ascii_of_nat (n + 32) else c.

(** [s.lower()] for an ASCII string. *)
Fixpoint lower (s : string) : string :=
  match s with
  | EmptyString => EmptyString
  | String c s' => String (ascii_lower c) (lower s')
  end.

(** [s.replace(old, new)] for a non-empty [old], scanning from the left:
    [skip] characters of an occurrence just replaced are still to be
    passed over. *)
Fixpoint replace_from (old new : string) (skip : nat) (s : string) : string :=
  match s with
  | EmptyString => EmptyString
  | String c s' =>
      match skip with
      | S k => replace_from old new k s'
      | O =>
          if String.prefix old s
          then new +:+ replace_from old new (String.length old - 1) s'
          else String c (replace_from old new 0 s')
      end
  end.

(** [s.replace("", new)]: [new] before every character and at the end. *)
Fixpoint interleave (new s : string) : string :=
  match s with
  | EmptyString => new
  | String c s' => new +:+ String c (interleave new s')
  end.

(** [s.replace(old, new)] *)
Definition replace (s old new : string) : string :=
  match old with
  | EmptyString => interleave new s
  | String _ _ => replace_from old new 0 s
  end.

(** ** The web3 client *)

(** The provider classes that [make_web3_provider] may construct, each
    with the URL it is given. *)
Inductive provider :=
| WebsocketProvider (url : string)
| WebSocketProvider (url : string)
| LegacyWebSocketProvider (url : string)
| HTTPProvider (url : string).

(** [hasattr(Web3, name)]: the class [Web3] is the set of the attribute
    names that the installed web3 version has. *)
Definition hasattr (Web3 : gset string) (name : string) : bool :=
  bool_decide (name ∈ Web3).

(** What [main] asks of the connected client before it starts the
    workers: [w3.is_connected()] and
    [w3.keccak(text="Move(address,uint8,uint256,string)").hex()]. *)
Record w3_client := {
  is_connected : bool;
  keccak_hex : string;
}.

(** ** chainplays.py: windowed mode *)

Module chainplays.
Section WithCodec.
Context `{Codec}.

Definition DEMOCRACY_MS : Z := 3000.
Definition PRINT_ONLY : bool := false.

Definition CMD_INDEX_TO_BUTTON : gmap Z string :=
  list_to_map
    [ (0, "up"); (1, "down"); (2, "left"); (3, "right");
      (4, "a"); (5, "b"); (6, "start"); (7, "select") ].

(** The module-level objects [tally] and [actions_q], the filters the
    listener has sent to the node, and the operations the main thread has
    performed on the emulator. *)
Record world := {
  tally : Counter.t;
  actions_q : list string;
  requests : list filter_params;
  screen : history;
}.

Definition set_tally (t : Counter.t) (w : world) : world :=
  {| tally := t; actions_q := actions_q w;
     requests := requests w; screen := screen w |}.
Definition set_actions_q (q : list string) (w : world) : world :=
  {| tally := tally w; actions_q := q;
     requests := requests w; screen := screen w |}.
Definition set_requests (r : list filter_params) (w : world) : world :=
  {| tally := tally w; actions_q := actions_q w;
     requests := r; screen := screen w |}.
Definition set_screen (h : history) (w : world) : world :=
  {| tally := tally w; actions_q := actions_q w;
     requests := requests w; screen := h |}.

(** [actions_q.put(btn)] *)
Definition put (btn : string) (w : world) : world :=
  set_actions_q (actions_q w ++ [btn]) w.

(** *** vote_aggregator *)

(** The [with tally_lock:] block of one iteration: [None] is the
    [continue] of an empty tally, [Some cmd_idx] the winner, the tally
    being cleared. *)
Definition vote_aggregator_locked (w : world) : option Z * world :=
  if Counter.is_empty (tally w) then (None, w)
  else match Counter.most_common_1 (tally w) with
       | (cmd_idx, _) :: _ => (Some cmd_idx, set_tally (Counter.clear (tally w)) w)
       | [] => (None, w)
       end.

(** The statements after the lock is released:
    [btn = CMD_INDEX_TO_BUTTON.get(cmd_idx)], [if btn: actions_q.put(btn)]. *)
Definition vote_aggregator_put (cmd_idx : Z) (w : world) : world :=
  let btn := CMD_INDEX_TO_BUTTON !! cmd_idx in
  if truthy btn
  then match btn with Some b => put b w | None => w end
  else w.

(** One iteration of the [while True] of [vote_aggregator], after its
    sleep. *)
Definition vote_aggregator_iter (w : world) : world :=
  match vote_aggregator_locked w with
  | (Some cmd_idx, w') => vote_aggregator_put cmd_idx w'
  | (None, w') => w'
  end.

(** *** chain_listener *)

Definition eth_block_number (n : node) : M world Z := lift (block_number n).

Definition eth_get_logs (n : node) (f : filter_params) : M world (list Log) :=
  modify (fun w => set_requests (requests w ++ [f]) w) ;;;
  lift (get_logs n f).

(** The body of [for log in logs]. *)
Definition chain_listener_log (log : Log) : M world unit :=
  evt <- lift (get_event_data log) ;;
  let cmd := cmd evt in
  modify (fun w => set_tally (Counter.incr (tally w) cmd) w).

(** The [try] block of one iteration; the result is the value of
    [last_block] at its end. *)
Definition chain_listener_try (n : node) (last_block : Z) : M world Z :=
  latest <- eth_block_number n ;;
  if Z.geb latest last_block then
    logs <- eth_get_logs n {| fromBlock := last_block; toBlock := latest |} ;;
    for_each logs chain_listener_log ;;;
    ret (latest + 1)
  else ret last_block.

(** One iteration of the [while True] of [chain_listener]: on an
    exception [last_block] keeps the value it had. *)
Definition chain_listener_iter (n : node) (last_block : Z) : M world Z :=
  try_except (chain_listener_try n last_block) (fun _ => ret last_block).

(** The iterations of the loop against the successive answers of the
    node. *)
Fixpoint chain_listener_loop (ns : list node) (last_block : Z) : M world Z :=
  match ns with
  | [] => ret last_block
  | n :: ns' =>
      last_block' <- chain_listener_iter n last_block ;;
      chain_listener_loop ns' last_block'
  end.

(** [chain_listener]: [last_block = w3.eth.block_number], then the loop. *)
Definition chain_listener (n0 : node) (ns : list node) : M world Z :=
  last_block <- eth_block_number n0 ;;
  chain_listener_loop ns last_block.

(** *** main: the applicator *)

(** [for _ in range(n): pyboy.tick()] *)
Fixpoint ticks (pyboy : PyBoy) (n : nat) (h : history) : history :=
  match n with
  | O => h
  | S n' => ticks pyboy n' (snd (tick pyboy h))
  end.

(** One iteration of the emulation loop. *)
Definition main_iter (pyboy : PyBoy) (w : world) : world :=
  match actions_q w with
  | btn :: q =>
      let w := set_actions_q q w in
      let h := button btn true (screen w) in
      let h := ticks pyboy 6 h in
      let h := button btn false h in
      let h := ticks pyboy 2 h in
      set_screen h w
  | [] => set_screen (snd (tick pyboy (screen w))) w
  end.

(** One iteration of the [PRINT_ONLY] loop: [actions_q.get(timeout=0.1)]
    takes an action when there is one. *)
Definition main_print_only_iter (w : world) : world :=
  match actions_q w with
  | btn :: q => set_actions_q q w
  | [] => w
  end.

Fixpoint main_loop (pyboy : PyBoy) (iterations : nat) (w : world) : world :=
  match iterations with
  | O => w
  | S k => main_loop pyboy k (main_iter pyboy w)
  end.

(** The main thread after the workers are started: the warm-up, then
    [iterations] rounds of the loop, which has no exit. The construction of
    the emulator and [set_window_scale] come first and are not operations
    of the history. *)
Definition main (pyboy : PyBoy) (iterations : nat) (w : world) : world :=
  if PRINT_ONLY then Nat.iter iterations main_print_only_iter w
  else
    let w := set_screen (ticks pyboy 240 (screen w)) w in
    main_loop pyboy iterations w.

(** *** The three threads together *)

(** A configuration: the shared objects and the winner the aggregator
    holds between its lock block and its [put]. *)
Record config := {
  shared : world;
  pending : option Z;
}.

Definition initial : config :=
  {| shared := {| tally := []; actions_q := []; requests := []; screen := [] |};
     pending := None |}.

Inductive step (pyboy : PyBoy) : config -> config -> Prop :=
| step_vote (c : config) (cmd : Z) :
    (* chain_listener: [with tally_lock: tally[cmd] += 1] *)
    step pyboy c
      {| shared := set_tally (Counter.incr (tally (shared c)) cmd) (shared c);
         pending := pending c |}
| step_request (c : config) (f : filter_params) :
    (* chain_listener: [w3.eth.get_logs] *)
    step pyboy c
      {| shared := set_requests (requests (shared c) ++ [f]) (shared c);
         pending := pending c |}
| step_locked (c : config) :
    (* vote_aggregator: the lock block *)
    pending c = None ->
    step pyboy c
      {| shared := snd (vote_aggregator_locked (shared c));
         pending := fst (vote_aggregator_locked (shared c)) |}
| step_put (c : config) (cmd_idx : Z) :
    (* vote_aggregator: the statements after the lock block *)
    pending c = Some cmd_idx ->
    step pyboy c
      {| shared := vote_aggregator_put cmd_idx (shared c); pending := None |}
| step_warmup (c : config) :
    (* main: a [pyboy.tick()] of the warm-up; the steps are not counted *)
    step pyboy c
      {| shared := set_screen (snd (tick pyboy (screen (shared c)))) (shared c);
         pending := pending c |}
| step_main (c : config) :
    (* main: one iteration of the emulation loop *)
    step pyboy c
      {| shared := main_iter pyboy (shared c); pending := pending c |}.

Inductive reachable (pyboy : PyBoy) : config -> Prop :=
| reachable_initial : reachable pyboy initial
| reachable_step (c c' : config) :
    reachable pyboy c -> step pyboy c c' -> reachable pyboy c'.

(** *** make_web3_provider and the start of main *)

Definition make_web3_provider (Web3 : gset string) (rpc_url : string) : provider :=
  if hasattr Web3 "WebSocketProvider" then WebSocketProvider rpc_url
  else if hasattr Web3 "LegacyWebSocketProvider" then LegacyWebSocketProvider rpc_url
  else
    let http_url := replace (replace rpc_url "wss://" "https://") "ws://" "http://" in
    HTTPProvider http_url.

(** The statements of [main] before the workers are started: the
    [RuntimeError] of a failed connection leaves [main], otherwise the
    result is [topic0]. *)
Definition main_setup (w3 : w3_client) : result string :=
  if negb (is_connected w3) then Raise "RPC connect failed"
  else
    let topic0 := keccak_hex w3 in
    let topic0 := if negb (startswith topic0 "0x") then "0x" +:+ topic0 else topic0 in
    let topic0 := lower topic0 in
    Ok topic0.

End WithCodec.
End chainplays.

(** ** chainplaysChaos.py: chaos mode *)

Module chainplaysChaos.
Section WithCodec.
Context `{Codec}.

Definition PRINT_ONLY : bool := false.

Definition CMD_INDEX_TO_BUTTON : gmap Z string :=
  list_to_map
    [ (0, "up"); (1, "down"); (2, "left"); (3, "right");
      (4, "a"); (5, "b"); (6, "start"); (7, "select") ].

(** [actions_q], the filters sent to the node, and the operations
    performed on the emulator; there is no tally. *)
Record world := {
  actions_q : list string;
  requests : list filter_params;
  screen : history;
}.

Definition set_actions_q (q : list string) (w : world) : world :=
  {| actions_q := q; requests := requests w; screen := screen w |}.
Definition set_requests (r : list filter_params) (w : world) : world :=
  {| actions_q := actions_q w; requests := r; screen := screen w |}.
Definition set_screen (h : history) (w : world) : world :=
  {| actions_q := actions_q w; requests := requests w; screen := h |}.

Definition put (btn : string) (w : world) : world :=
  set_actions_q (actions_q w ++ [btn]) w.

Definition eth_block_number (n : node) : M world Z := lift (block_number n).

Definition eth_get_logs (n : node) (f : filter_params) : M world (list Log) :=
  modify (fun w => set_requests (requests w ++ [f]) w) ;;;
  lift (get_logs n f).

(** The body of [for log in logs]:
    [btn = CMD_INDEX_TO_BUTTON.get(cmd)], [if btn: actions_q.put(btn)]. *)
Definition chain_listener_log (log : Log) : M world unit :=
  evt <- lift (get_event_data log) ;;
  let cmd := cmd evt in
  let btn := CMD_INDEX_TO_BUTTON !! cmd in
  if truthy btn
  then match btn with Some b => modify (put b) | None => ret tt end
  else ret tt.

Definition chain_listener_try (n : node) (last_block : Z) : M world Z :=
  latest <- eth_block_number n ;;
  if Z.geb latest last_block then
    logs <- eth_get_logs n {| fromBlock := last_block; toBlock := latest |} ;;
    for_each logs chain_listener_log ;;;
    ret (latest + 1)
  else ret last_block.

Definition chain_listener_iter (n : node) (last_block : Z) : M world Z :=
  try_except (chain_listener_try n last_block) (fun _ => ret last_block).

Fixpoint chain_listener_loop (ns : list node) (last_block : Z) : M world Z :=
  match ns with
  | [] => ret last_block
  | n :: ns' =>
      last_block' <- chain_listener_iter n last_block ;;
      chain_listener_loop ns' last_block'
  end.

Definition chain_listener (n0 : node) (ns : list node) : M world Z :=
  last_block <- eth_block_number n0 ;;
  chain_listener_loop ns last_block.

(** [for _ in range(n): pyboy.tick()] *)
Fixpoint ticks (pyboy : PyBoy) (n : nat) (h : history) : history :=
  match n with
  | O => h
  | S n' => ticks pyboy n' (snd (tick pyboy h))
  end.

(** One iteration of the emulation loop: the quick tap. *)
Definition main_iter (pyboy : PyBoy) (w : world) : world :=
  match actions_q w with
  | btn :: q =>
      let w := set_actions_q q w in
      let h := button btn true (screen w) in
      let h := snd (tick pyboy h) in
      let h := button btn false h in
      set_screen h w
  | [] => set_screen (snd (tick pyboy (screen w))) w
  end.

Definition main_print_only_iter (w : world) : world :=
  match actions_q w with
  | btn :: q => set_actions_q q w
  | [] => w
  end.

Fixpoint main_loop (pyboy : PyBoy) (iterations : nat) (w : world) : world :=
  match iterations with
  | O => w
  | S k => main_loop pyboy k (main_iter pyboy w)
  end.

Definition main (pyboy : PyBoy) (iterations : nat) (w : world) : world :=
  if PRINT_ONLY then Nat.iter iterations main_print_only_iter w
  else
    let w := set_screen (ticks pyboy 240 (screen w)) w in
    main_loop pyboy iterations w.

Definition make_web3_provider (Web3 : gset string) (rpc_url : string) : provider :=
  if hasattr Web3 "WebSocketProvider" then WebSocketProvider rpc_url
  else if hasattr Web3 "LegacyWebSocketProvider" then LegacyWebSocketProvider rpc_url
  else
    let http_url := replace (replace rpc_url "wss://" "https://") "ws://" "http://" in
    HTTPProvider http_url.

Definition main_setup (w3 : w3_client) : result string :=
  if negb (is_connected w3) then Raise "RPC connect failed"
  else
    let topic0 := keccak_hex w3 in
    let topic0 := if negb (startswith topic0 "0x") then "0x" +:+ topic0 else topic0 in
    let topic0 := lower topic0 in
    Ok topic0.

End WithCodec.
End chainplaysChaos.

(** ** chainplaysTESTING.py: the minimal variant *)

Module chainplaysTESTING.
Section WithCodec.
Context `{Codec}.

Definition PRINT_ONLY : bool := false.

Definition CMD_INDEX_TO_BUTTON : gmap Z string :=
  list_to_map
    [ (0, "up"); (1, "down"); (2, "left"); (3, "right");
      (4, "a"); (5, "b"); (6, "start"); (7, "select") ].

Record world := {
  actions_q : list string;
  requests : list filter_params;
  screen : history;
}.

Definition set_actions_q (q : list string) (w : world) : world :=
  {| actions_q := q; requests := requests w; screen := screen w |}.
Definition set_requests (r : list filter_params) (w : world) : world :=
  {| actions_q := actions_q w; requests := r; screen := screen w |}.
Definition set_screen (h : history) (w : world) : world :=
  {| actions_q := actions_q w; requests := requests w; screen := h |}.

Definition put (btn : string) (w : world) : world :=
  set_actions_q (actions_q w ++ [btn]) w.

Definition eth_block_number (n : node) : M world Z := lift (block_number n).

Definition eth_get_logs (n : node) (f : filter_params) : M world (list Log) :=
  modify (fun w => set_requests (requests w ++ [f]) w) ;;;
  lift (get_logs n f).

Definition chain_listener_log (log : Log) : M world unit :=
  evt <- lift (get_event_data log) ;;
  let cmd := cmd evt in
  let btn := CMD_INDEX_TO_BUTTON !! cmd in
  if truthy btn
  then match btn with Some b => modify (put b) | None => ret tt end
  else ret tt.

Definition chain_listener_try (n : node) (last_block : Z) : M world Z :=
  latest <- eth_block_number n ;;
  if Z.geb latest last_block then
    logs <- eth_get_logs n {| fromBlock := last_block; toBlock := latest |} ;;
    for_each logs chain_listener_log ;;;
    ret (latest + 1)
  else ret last_block.

Definition chain_listener_iter (n : node) (last_block : Z) : M world Z :=
  try_except (chain_listener_try n last_block) (fun _ => ret last_block).

Fixpoint chain_listener_loop (ns : list node) (last_block : Z) : M world Z :=
  match ns with
  | [] => ret last_block
  | n :: ns' =>
      last_block' <- chain_listener_iter n last_block ;;
      chain_listener_loop ns' last_block'
  end.

Definition chain_listener (n0 : node) (ns : list node) : M world Z :=
  last_block <- eth_block_number n0 ;;
  chain_listener_loop ns last_block.

(** How a piece of [main] ends: it goes on, or [main] has returned. *)
Inductive control := Continue | Returned.

(** [for _ in range(n): if pyboy.tick() is False: return] *)
Fixpoint warmup (pyboy : PyBoy) (n : nat) (h : history) : control * history :=
  match n with
  | O => (Continue, h)
  | S n' =>
      let (alive, h') := tick pyboy h in
      if alive then warmup pyboy n' h' else (Returned, h')
  end.

(** One iteration of the main loop: one press frame, one release frame. *)
Definition main_iter (pyboy : PyBoy) (w : world) : control * world :=
  match actions_q w with
  | btn :: q =>
      let w := set_actions_q q w in
      let h := button btn true (screen w) in
      let (alive, h) := tick pyboy h in
      if alive then
        let h := button btn false h in
        let (alive, h) := tick pyboy h in
        if alive then (Continue, set_screen h w)
        else (Returned, set_screen h w)
      else (Returned, set_screen h w)
  | [] =>
      let (alive, h) := tick pyboy (screen w) in
      if alive then (Continue, set_screen h w)
      else (Returned, set_screen h w)
  end.

Definition main_print_only_iter (w : world) : world :=
  match actions_q w with
  | btn :: q => set_actions_q q w
  | [] => w
  end.

Fixpoint main_loop (pyboy : PyBoy) (iterations : nat) (w : world) : control * world :=
  match iterations with
  | O => (Continue, w)
  | S k =>
      match main_iter pyboy w with
      | (Continue, w') => main_loop pyboy k w'
      | (Returned, w') => (Returned, w')
      end
  end.

Definition main (pyboy : PyBoy) (iterations : nat) (w : world) : control * world :=
  if PRINT_ONLY then (Continue, Nat.iter iterations main_print_only_iter w)
  else
    match warmup pyboy 240 (screen w) with
    | (Continue, h) => main_loop pyboy iterations (set_screen h w)
    | (Returned, h) => (Returned, set_screen h w)
    end.

(** The minimal variant asks for [WebsocketProvider] first. *)
Definition make_web3_provider (Web3 : gset string) (rpc_url : string) : provider :=
  if hasattr Web3 "WebsocketProvider" then WebsocketProvider rpc_url
  else if hasattr Web3 "WebSocketProvider" then WebSocketProvider rpc_url
  else if hasattr Web3 "LegacyWebSocketProvider" then LegacyWebSocketProvider rpc_url
  else
    let http_url := replace (replace rpc_url "wss://" "https://") "ws://" "http://" in
    HTTPProvider http_url.

End WithCodec.
End chainplaysTESTING.

(** ** Data for the worked examples *)

(** A codec whose logs carry what [get_event_data] makes of them. *)
Definition scripted_codec : Codec :=
  {| Log := result MoveArgs; get_event_data := fun log => log |}.

(** A decodable log that votes for [c], and one that does not decode. *)
Definition vote_log (c : Z) : @Log scripted_codec :=
  Ok {| sender := "0xA11CE"; cmd := c; weight := 1; memo := "" |}.
Definition bad_log : @Log scripted_codec := Raise "could not decode log".

(** A node at block [head] that returns [logs] for every filter. *)
Definition node_with (head : Z) (logs : list (@Log scripted_codec)) : @node scripted_codec :=
  {| block_number := Ok head; get_logs := fun _ => Ok logs |}.

(** A node whose [get_logs] fails with a transport error. *)
Definition node_down (head : Z) : @node scripted_codec :=
  {| block_number := Ok head; get_logs := fun _ => Raise "transport error" |}.

(** An emulator that never signals termination, and one whose window is
    already closed: every [tick()] returns [False]. *)
Definition pyboy_running : PyBoy := fun _ => true.
Definition pyboy_closed : PyBoy := fun _ => false.

(** The number of emulator steps in a history. *)
Fixpoint count_ticks (h : history) : nat :=
  match h with
  | [] => O
  | Tick :: h' => S (count_ticks h')
  | Button _ _ :: h' => count_ticks h'
  end.

(** The results that the steps of [todo] returned, when the operations of
    [done] came before them. *)
Fixpoint tick_results (pyboy : PyBoy) (done todo : history) : list bool :=
  match todo with
  | [] => []
  | Tick :: todo' => pyboy done :: tick_results pyboy (done ++ [Tick]) todo'
  | op :: todo' => tick_results pyboy (done ++ [op]) todo'
  end.

(** A window of votes, cast into an empty tally. *)
Definition window (votes : list Z) : chainplays.world :=
  {| chainplays.tally := foldl Counter.incr [] votes;
     chainplays.actions_q := [];
     chainplays.requests := [];
     chainplays.screen := [] |}.

(** The windowed world with an empty tally and the actions [q] queued. *)
Definition queued (q : list string) : chainplays.world :=
  {| chainplays.tally := [];
     chainplays.actions_q := q;
     chainplays.requests := [];
     chainplays.screen := [] |}.

(** The same for the chaos and the minimal variant. *)
Definition chaos_queued (q : list string) : chainplaysChaos.world :=
  {| chainplaysChaos.actions_q := q;
     chainplaysChaos.requests := [];
     chainplaysChaos.screen := [] |}.

Definition minimal_queued (q : list string) : chainplaysTESTING.world :=
  {| chainplaysTESTING.actions_q := q;
     chainplaysTESTING.requests := [];
     chainplaysTESTING.screen := [] |}.

(** Configurations of the windowed variant met in the examples: after a
    vote for index 8; after a window of votes [8; 4; 4] with the winner
    held by the aggregator; and after its [put]. *)
Definition config_vote_8 : chainplays.config :=
  {| chainplays.shared := window [8]; chainplays.pending := None |}.

Definition config_window : chainplays.config :=
  {| chainplays.shared := window [8; 4; 4]; chainplays.pending := None |}.

Definition config_winner : chainplays.config :=
  {| chainplays.shared := queued []; chainplays.pending := Some 4 |}.

Definition config_put : chainplays.config :=
  {| chainplays.shared := queued ["a"]; chainplays.pending := None |}.

(** An emulator whose window is closed after [n] steps: the steps from
    the one numbered [n] on, counted from 0, return [False]. *)
Definition pyboy_closing_after (n : nat) : PyBoy :=
  fun h => Nat.ltb (count_ticks h) n.

(** ** Observations used in the statements *)

(** The number of votes for [k] in a list of voted indices. *)
Definition votes_for (k : Z) (votes : list Z) : Z :=
  Z.of_nat (length (filter (fun v => v = k) votes)).

(** The indices of [votes] that are not in [seen], each once, in the order
    of their first vote. *)
Fixpoint first_seen (seen votes : list Z) : list Z :=
  match votes with
  | [] => []
  | v :: votes' =>
      if decide (v ∈ seen) then first_seen seen votes'
      else v :: first_seen (seen ++ [v]) votes'
  end.

(** The button of the winner of a window of votes, if it has one. *)
Definition winner_button (votes : list Z) : option string :=
  match Counter.most_common_1 (foldl Counter.incr [] votes) with
  | (cmd_idx, _) :: _ => chainplays.CMD_INDEX_TO_BUTTON !! cmd_idx
  | [] => None
  end.

(** The aggregator run over successive windows: the votes of a window are
    tallied, then [vote_aggregator] wakes up. *)
Definition aggregate_windows (windows : list (list Z)) (w : chainplays.world) :
  chainplays.world :=
  foldl (fun w votes =>
           chainplays.vote_aggregator_iter
             (chainplays.set_tally (foldl Counter.incr (chainplays.tally w) votes) w))
        w windows.

(** The buttons of the calls [pyboy.button(btn, True)] of a history, in
    order. *)
Fixpoint presses (h : history) : list string :=
  match h with
  | [] => []
  | Button btn true :: h' => btn :: presses h'
  | _ :: h' => presses h'
  end.

(** [old] occurs in [s]. *)
Fixpoint occurs (old s : string) : bool :=
  match s with
  | EmptyString => String.prefix old EmptyString
  | String _ s' => String.prefix old s || occurs old s'
  end.

(** ** Properties of collections.Counter *)

Section CounterFacts.

Lemma max_item_split (items : Counter.t) :
  forall (pre mid : Counter.t) (best : Z * Z),
    Forall (fun x => snd x < snd best) pre ->
    Forall (fun x => snd x <= snd best) mid ->
    exists pre' post',
      pre ++ best :: mid ++ items = pre' ++ Counter.max_item best items :: post' /\
      Forall (fun x => snd x < snd (Counter.max_item best items)) pre' /\
      Forall (fun x => snd x <= snd (Counter.max_item best items)) post'.
Proof.
  induction items as [|x items IH]; intros pre mid best Hpre Hmid; simpl.
  - exists pre, mid. rewrite app_nil_r. auto.
  - destruct (Z.gtb_spec (snd x) (snd best)) as [Hgt|Hle].
    + destruct (IH (pre ++ best :: mid) [] x) as (pre' & post' & Heq & Hlt & Hge).
      * apply Forall_app; split.
        { eapply Forall_impl; [exact Hpre|]. simpl; intros; lia. }
        constructor; [lia|].
        eapply Forall_impl; [exact Hmid|]. simpl; intros; lia.
      * constructor.
      * exists pre', post'. split; [|auto].
        rewrite <- Heq. simpl. rewrite <- app_assoc. reflexivity.
    + destruct (IH pre (mid ++ [x]) best) as (pre' & post' & Heq & Hlt & Hge).
      * exact Hpre.
      * apply Forall_app; split; [exact Hmid|]. constructor; [lia|constructor].
      * exists pre', post'. split; [|auto].
        rewrite <- Heq. rewrite <- app_assoc. reflexivity.
Qed.

(** The item of [most_common(1)] is the first item, in insertion order,
    whose count is maximal. *)
Lemma most_common_1_first_max (c : Counter.t) :
  c <> [] ->
  exists pre post winner,
    Counter.most_common_1 c = [winner] /\
    c = pre ++ winner :: post /\
    Forall (fun x => snd x < snd winner) pre /\
    Forall (fun x => snd x <= snd winner) post.
Proof.
  destruct c as [|x c]; [congruence|]. intros _.
  destruct (max_item_split c [] [] x) as (pre & post & Heq & Hlt & Hge);
    [constructor|constructor|].
  exists pre, post, (Counter.max_item x c). simpl in *. auto.
Qed.

Lemma get_set_same (c : Counter.t) (k v : Z) :
  Counter.get (Counter.set c k v) k = v.
Proof.
  induction c as [|[k' n] c IH]; simpl.
  - rewrite Z.eqb_refl. reflexivity.
  - destruct (Z.eqb_spec k' k) as [->|Hne]; simpl.
    + rewrite Z.eqb_refl. reflexivity.
    + destruct (Z.eqb_spec k' k); [contradiction|]. exact IH.
Qed.

Lemma get_set_other (c : Counter.t) (k k' v : Z) :
  k <> k' -> Counter.get (Counter.set c k v) k' = Counter.get c k'.
Proof.
  intros Hne. induction c as [|[k0 n] c IH]; simpl.
  - destruct (Z.eqb_spec k k'); [contradiction|reflexivity].
  - destruct (Z.eqb_spec k0 k) as [->|Hne0]; simpl.
    + destruct (Z.eqb_spec k k'); [contradiction|reflexivity].
    + destruct (Z.eqb_spec k0 k'); [reflexivity|exact IH].
Qed.

(** [c[k] += 1] adds one to the count of [k] and to no other. *)
Lemma get_incr (c : Counter.t) (k k' : Z) :
  Counter.get (Counter.incr c k) k' =
  if Z.eqb k k' then Counter.get c k' + 1 else Counter.get c k'.
Proof.
  unfold Counter.incr. destruct (Z.eqb_spec k k') as [->|Hne].
  - apply get_set_same.
  - apply get_set_other. exact Hne.
Qed.

(** The keys of a counter after [c[k] = v]. *)
Lemma keys_set (c : Counter.t) (k v : Z) :
  (Counter.set c k v).*1 =
  if decide (k ∈ c.*1) then c.*1 else c.*1 ++ [k].
Proof.
  induction c as [|[k' n] c IH].
  - reflexivity.
  - cbn [Counter.set]. destruct (Z.eqb_spec k' k) as [->|Hne].
    + rewrite decide_True; [reflexivity|]. cbn. apply elem_of_cons; auto.
    + cbn [fmap list_fmap fst]. fold (fmap (M:=list) (@fst Z Z)). rewrite IH.
      destruct (decide (k ∈ c.*1)) as [Hin|Hnin].
      * rewrite decide_True; [reflexivity|]. apply elem_of_cons; auto.
      * rewrite decide_False; [reflexivity|].
        intros [?|?]%elem_of_cons; [congruence|contradiction].
Qed.

(** After a window of votes the tally holds, for every index, the number
    of votes for it. *)
Lemma get_votes (votes : list Z) (k : Z) :
  forall c : Counter.t,
    Counter.get (foldl Counter.incr c votes) k =
    Counter.get c k + Z.of_nat (length (filter (fun v => v = k) votes)).
Proof.
  induction votes as [|v votes IH]; intros c; simpl.
  - lia.
  - rewrite IH, get_incr. rewrite filter_cons.
    destruct (Z.eqb_spec v k) as [->|Hne].
    + rewrite decide_True by reflexivity. simpl. lia.
    + rewrite decide_False by exact Hne. lia.
Qed.

End CounterFacts.

(** ** The command table *)

Section CommandTable.

(** The three files carry the same table. *)
Lemma tables_agree :
  chainplaysChaos.CMD_INDEX_TO_BUTTON = chainplays.CMD_INDEX_TO_BUTTON /\
  chainplaysTESTING.CMD_INDEX_TO_BUTTON = chainplays.CMD_INDEX_TO_BUTTON.
Proof. split; reflexivity. Qed.

Lemma table_lookup (k : Z) :
  chainplays.CMD_INDEX_TO_BUTTON !! k =
  if decide (0 = k) then Some "up"
  else if decide (1 = k) then Some "down"
  else if decide (2 = k) then Some "left"
  else if decide (3 = k) then Some "right"
  else if decide (4 = k) then Some "a"
  else if decide (5 = k) then Some "b"
  else if decide (6 = k) then Some "start"
  else if decide (7 = k) then Some "select"
  else None.
Proof.
  unfold chainplays.CMD_INDEX_TO_BUTTON. cbn [list_to_map foldr uncurry].
  rewrite !lookup_insert, lookup_empty. reflexivity.
Qed.

Lemma table_outside (k : Z) :
  k < 0 \/ 7 < k -> chainplays.CMD_INDEX_TO_BUTTON !! k = None.
Proof.
  intros Hk. rewrite table_lookup.
  repeat (case_decide; [lia|]). reflexivity.
Qed.

(** An index that has a button is in 0..7, and the button is one of the
    eight names, none of them empty. *)
Lemma table_inside (k : Z) (btn : string) :
  chainplays.CMD_INDEX_TO_BUTTON !! k = Some btn ->
  0 <= k <= 7 /\
  btn ∈ ["up"; "down"; "left"; "right"; "a"; "b"; "start"; "select"] /\
  truthy (Some btn) = true.
Proof.
  rewrite table_lookup.
  repeat (case_decide;
          [intros [= <-]; split; [lia|split; [set_solver|reflexivity]]|]).
  discriminate.
Qed.

End CommandTable.

(** ** The windowed aggregator *)

Section Aggregator.

Lemma vote_aggregator_put_mapped (k : Z) (btn : string) (w : chainplays.world) :
  chainplays.CMD_INDEX_TO_BUTTON !! k = Some btn ->
  chainplays.vote_aggregator_put k w = chainplays.put btn w.
Proof.
  intros Hk. unfold chainplays.vote_aggregator_put. cbv zeta. rewrite Hk.
  destruct (table_inside _ _ Hk) as (_ & _ & ->). reflexivity.
Qed.

Lemma vote_aggregator_put_unmapped (k : Z) (w : chainplays.world) :
  chainplays.CMD_INDEX_TO_BUTTON !! k = None ->
  chainplays.vote_aggregator_put k w = w.
Proof.
  intros Hk. unfold chainplays.vote_aggregator_put. cbv zeta. rewrite Hk.
  reflexivity.
Qed.

(** What one iteration does to a non-empty tally whose
    [most_common(1)] is [(cmd_idx, n)]. *)
Lemma vote_aggregator_iter_winner (w : chainplays.world) (cmd_idx n : Z) :
  Counter.most_common_1 (chainplays.tally w) = [(cmd_idx, n)] ->
  chainplays.vote_aggregator_iter w =
  chainplays.vote_aggregator_put cmd_idx (chainplays.set_tally [] w).
Proof.
  unfold chainplays.vote_aggregator_iter, chainplays.vote_aggregator_locked.
  destruct (chainplays.tally w) as [|x c]; [discriminate|].
  intros Hmc. cbn [Counter.is_empty]. rewrite Hmc. reflexivity.
Qed.

End Aggregator.

(** C1. For a non-empty tally, one iteration of [vote_aggregator] appends at
    most one action to the queue, the button of one command index; that
    index has a count greater than or equal to the count of every item of
    the tally, and among the items of maximal count it is the first in
    insertion order: the items before it have strictly smaller counts. *)
Theorem vote_aggregator_emits_first_maximum (w : chainplays.world) :
  chainplays.tally w <> [] ->
  exists (pre post : Counter.t) (cmd_idx n : Z) (emitted : list string),
    chainplays.tally w = pre ++ (cmd_idx, n) :: post /\
    Forall (fun item => snd item < n) pre /\
    Forall (fun item => snd item <= n) post /\
    Forall (fun item => snd item <= n) (chainplays.tally w) /\
    chainplays.actions_q (chainplays.vote_aggregator_iter w) =
      chainplays.actions_q w ++ emitted /\
    (length emitted <= 1)%nat /\
    emitted = match chainplays.CMD_INDEX_TO_BUTTON !! cmd_idx with
              | Some btn => [btn]
              | None => []
              end.
Proof.
  intros Hne.
  destruct (most_common_1_first_max _ Hne)
    as (pre & post & [cmd_idx n] & Hmc & Hsplit & Hpre & Hpost).
  simpl in Hpre, Hpost.
  exists pre, post, cmd_idx, n.
  exists (match chainplays.CMD_INDEX_TO_BUTTON !! cmd_idx with
          | Some btn => [btn]
          | None => []
          end).
  split; [exact Hsplit|]. split; [exact Hpre|]. split; [exact Hpost|].
  split.
  { rewrite Hsplit. apply Forall_app; split.
    - eapply Forall_impl; [exact Hpre|]. simpl; intros; lia.
    - constructor; [simpl; lia|exact Hpost]. }
  split; [|split; [|reflexivity]].
  - rewrite (vote_aggregator_iter_winner _ _ _ Hmc).
    destruct (chainplays.CMD_INDEX_TO_BUTTON !! cmd_idx) as [btn|] eqn:Hbtn.
    + rewrite (vote_aggregator_put_mapped _ _ _ Hbtn). reflexivity.
    + rewrite (vote_aggregator_put_unmapped _ _ Hbtn). simpl.
      rewrite app_nil_r. reflexivity.
  - destruct (chainplays.CMD_INDEX_TO_BUTTON !! cmd_idx); simpl; lia.
Qed.

Lemma vote_aggregator_emits_first_maximum_witness :
  chainplays.tally (window [1; 0; 0; 1]) <> [] /\
  exists (pre post : Counter.t) (cmd_idx n : Z) (emitted : list string),
    chainplays.tally (window [1; 0; 0; 1]) = pre ++ (cmd_idx, n) :: post /\
    Forall (fun item => snd item < n) pre /\
    Forall (fun item => snd item <= n) post /\
    Forall (fun item => snd item <= n) (chainplays.tally (window [1; 0; 0; 1])) /\
    chainplays.actions_q (chainplays.vote_aggregator_iter (window [1; 0; 0; 1])) =
      chainplays.actions_q (window [1; 0; 0; 1]) ++ emitted /\
    (length emitted <= 1)%nat /\
    emitted = match chainplays.CMD_INDEX_TO_BUTTON !! cmd_idx with
              | Some btn => [btn]
              | None => []
              end.
Proof.
  split.
  - discriminate.
  - apply (vote_aggregator_emits_first_maximum (window [1; 0; 0; 1])).
    discriminate.
Defined.

(** The scenarios of the specification: [2,2,5] gives one "left"; a tie
    goes to the index that was voted first; 1000 votes against 999. *)
Example vote_aggregator_scenarios :
  chainplays.actions_q (chainplays.vote_aggregator_iter (window [2; 2; 5])) = ["left"] /\
  chainplays.actions_q (chainplays.vote_aggregator_iter (window [1; 0; 0; 1])) = ["down"] /\
  chainplays.actions_q (chainplays.vote_aggregator_iter (window [0; 1; 1; 0])) = ["up"] /\
  chainplays.actions_q
    (chainplays.vote_aggregator_iter (window (replicate 999 1 ++ replicate 1000 0))) = ["up"].
Proof. repeat split; vm_compute; reflexivity. Qed.

(** C9. An iteration of [vote_aggregator] on an empty tally changes
    nothing: no action is enqueued, the queue is as it was, and the tally
    stays empty. *)
Theorem vote_aggregator_empty_tally_noop (w : chainplays.world) :
  chainplays.tally w = [] ->
  chainplays.vote_aggregator_iter w = w /\
  chainplays.actions_q (chainplays.vote_aggregator_iter w) = chainplays.actions_q w /\
  chainplays.tally (chainplays.vote_aggregator_iter w) = [].
Proof.
  intros Hempty.
  assert (Hsame : chainplays.vote_aggregator_iter w = w).
  { unfold chainplays.vote_aggregator_iter, chainplays.vote_aggregator_locked.
    rewrite Hempty. reflexivity. }
  rewrite Hsame. auto.
Qed.

Lemma vote_aggregator_empty_tally_noop_witness :
  chainplays.tally (queued ["a"]) = [] /\
  chainplays.vote_aggregator_iter (queued ["a"]) = queued ["a"] /\
  chainplays.actions_q (chainplays.vote_aggregator_iter (queued ["a"])) = ["a"] /\
  chainplays.tally (chainplays.vote_aggregator_iter (queued ["a"])) = [].
Proof.
  split.
  - reflexivity.
  - apply (vote_aggregator_empty_tally_noop (queued ["a"])). reflexivity.
Defined.

(** C10. When the most common index of the tally has no button (it is
    outside 0..7), the iteration of [vote_aggregator] still clears the whole
    tally and enqueues nothing: the votes for every other index, mapped or
    not, are gone and count 0 in the next window. *)
Theorem vote_aggregator_unmapped_winner_discards_window
        (w : chainplays.world) (cmd_idx n : Z) :
  Counter.most_common_1 (chainplays.tally w) = [(cmd_idx, n)] ->
  cmd_idx < 0 \/ 7 < cmd_idx ->
  chainplays.tally (chainplays.vote_aggregator_iter w) = [] /\
  chainplays.actions_q (chainplays.vote_aggregator_iter w) = chainplays.actions_q w /\
  forall k : Z, Counter.get (chainplays.tally (chainplays.vote_aggregator_iter w)) k = 0.
Proof.
  intros Hmc Hout.
  rewrite (vote_aggregator_iter_winner _ _ _ Hmc).
  rewrite (vote_aggregator_put_unmapped _ _ (table_outside _ Hout)).
  simpl. auto.
Qed.

Lemma vote_aggregator_unmapped_winner_discards_window_witness :
  Counter.most_common_1 (chainplays.tally (window [9; 0; 9; 4])) = [(9, 2)] /\
  (9 < 0 \/ 7 < 9) /\
  Counter.get (chainplays.tally (window [9; 0; 9; 4])) 0 = 1 /\
  chainplays.tally (chainplays.vote_aggregator_iter (window [9; 0; 9; 4])) = [] /\
  chainplays.actions_q (chainplays.vote_aggregator_iter (window [9; 0; 9; 4])) = [] /\
  forall k : Z,
    Counter.get (chainplays.tally (chainplays.vote_aggregator_iter (window [9; 0; 9; 4]))) k = 0.
Proof.
  split; [reflexivity|]. split; [right; lia|]. split; [reflexivity|].
  apply (vote_aggregator_unmapped_winner_discards_window (window [9; 0; 9; 4]) 9 2).
  - reflexivity.
  - right; lia.
Defined.

(** ** The monad *)

Section MonadFacts.
Context {S A : Type}.

Lemma for_each_app (l1 l2 : list A) (body : A -> M S unit) (s : S) :
  for_each (l1 ++ l2) body s =
  match for_each l1 body s with
  | (s', Ok _) => for_each l2 body s'
  | (s', Raise e) => (s', Raise e)
  end.
Proof.
  revert s. induction l1 as [|x l1 IH]; intros s; simpl.
  - reflexivity.
  - unfold bind. destruct (body x s) as [s' [[]|e]]; [apply IH|reflexivity].
Qed.

Lemma for_each_cons (x : A) (l : list A) (body : A -> M S unit) (s : S) :
  for_each (x :: l) body s =
  match body x s with
  | (s', Ok _) => for_each l body s'
  | (s', Raise e) => (s', Raise e)
  end.
Proof. simpl. unfold bind. destruct (body x s) as [s' [[]|e]]; reflexivity. Qed.

End MonadFacts.

(** ** The poller of the windowed variant *)

Section WindowedPoller.
Context `{Codec}.

Local Abbreviation decodes := (Forall2 (fun log evt => get_event_data log = Ok evt)).

(** The tally after the votes [decoded], in order. *)
Local Abbreviation tallied w decoded :=
  (chainplays.set_tally
     (foldl Counter.incr (chainplays.tally w) (cmd <$> decoded)) w).

Lemma set_tally_same (w : chainplays.world) :
  chainplays.set_tally (chainplays.tally w) w = w.
Proof. destruct w; reflexivity. Qed.

Lemma chain_listener_log_eq (log : Log) (w : chainplays.world) :
  chainplays.chain_listener_log log w =
  match get_event_data log with
  | Ok evt =>
      (chainplays.set_tally (Counter.incr (chainplays.tally w) (cmd evt)) w, Ok tt)
  | Raise e => (w, Raise e)
  end.
Proof.
  unfold chainplays.chain_listener_log, bind, lift, modify.
  destruct (get_event_data log); reflexivity.
Qed.

(** A batch in which every log decodes is tallied whole. *)
Lemma for_each_decoded (logs : list Log) (decoded : list MoveArgs) :
  decodes logs decoded ->
  forall w : chainplays.world,
    for_each logs chainplays.chain_listener_log w = (tallied w decoded, Ok tt).
Proof.
  induction 1 as [|log evt logs decoded Hlog _ IH]; intros w.
  - simpl. unfold ret. rewrite set_tally_same. reflexivity.
  - rewrite for_each_cons, chain_listener_log_eq, Hlog, IH. reflexivity.
Qed.

(** A log that does not decode ends the batch: the votes before it are
    tallied, the logs after it are not looked at. *)
Lemma for_each_undecodable
      (pre post : list Log) (bad : Log) (decoded : list MoveArgs) (e : exn)
      (w : chainplays.world) :
  decodes pre decoded ->
  get_event_data bad = Raise e ->
  for_each (pre ++ bad :: post) chainplays.chain_listener_log w =
  (tallied w decoded, Raise e).
Proof.
  intros Hpre Hbad.
  rewrite for_each_app, (for_each_decoded _ _ Hpre), for_each_cons.
  rewrite chain_listener_log_eq, Hbad. reflexivity.
Qed.

Lemma for_each_requests (logs : list Log) :
  forall w : chainplays.world,
    chainplays.requests (fst (for_each logs chainplays.chain_listener_log w)) =
    chainplays.requests w.
Proof.
  induction logs as [|log logs IH]; intros w.
  - reflexivity.
  - rewrite for_each_cons, chain_listener_log_eq.
    destruct (get_event_data log); [rewrite IH|]; reflexivity.
Qed.

(** The [try] block, case by case. *)
Lemma chain_listener_try_eq (n : node) (last_block : Z) (w : chainplays.world) :
  chainplays.chain_listener_try n last_block w =
  match block_number n with
  | Raise e => (w, Raise e)
  | Ok latest =>
      if Z.geb latest last_block then
        let f := {| fromBlock := last_block; toBlock := latest |} in
        let w1 := chainplays.set_requests (chainplays.requests w ++ [f]) w in
        match get_logs n f with
        | Raise e => (w1, Raise e)
        | Ok logs =>
            match for_each logs chainplays.chain_listener_log w1 with
            | (w2, Ok _) => (w2, Ok (latest + 1))
            | (w2, Raise e) => (w2, Raise e)
            end
        end
      else (w, Ok last_block)
  end.
Proof.
  unfold chainplays.chain_listener_try, chainplays.eth_block_number,
    chainplays.eth_get_logs, bind, lift, modify, ret.
  destruct (block_number n) as [latest|e]; [|reflexivity].
  destruct (Z.geb latest last_block); [|reflexivity].
  cbv zeta. destruct (get_logs n _) as [logs|e]; [|reflexivity].
  destruct (for_each logs _ _) as [w2 [[]|e]]; reflexivity.
Qed.

Lemma chain_listener_iter_eq (n : node) (last_block : Z) (w : chainplays.world) :
  chainplays.chain_listener_iter n last_block w =
  match chainplays.chain_listener_try n last_block w with
  | (w', Ok cursor) => (w', Ok cursor)
  | (w', Raise _) => (w', Ok last_block)
  end.
Proof.
  unfold chainplays.chain_listener_iter, try_except, ret.
  destruct (chainplays.chain_listener_try n last_block w) as [w' [c|e]]; reflexivity.
Qed.

(** An iteration never raises; the cursor it leaves is the old one, or
    one more than a head that was not below the old one. *)
Lemma chain_listener_iter_cursor (n : node) (last_block : Z) (w : chainplays.world) :
  exists cursor : Z,
    snd (chainplays.chain_listener_iter n last_block w) = Ok cursor /\
    (cursor = last_block \/
     exists latest : Z,
       block_number n = Ok latest /\ last_block <= latest /\ cursor = latest + 1).
Proof.
  rewrite chain_listener_iter_eq, chain_listener_try_eq.
  destruct (block_number n) as [latest|e]; [|eauto].
  destruct (Z.geb_spec latest last_block) as [Hge|Hlt]; [|eauto].
  cbv zeta. destruct (get_logs n _) as [logs|e]; [|eauto].
  destruct (for_each logs _ _) as [w2 [[]|e]]; [|eauto].
  exists (latest + 1). split; [reflexivity|]. right. exists latest.
  split; [reflexivity|]. split; [lia|reflexivity].
Qed.

Lemma chain_listener_loop_monotone (ns : list node) :
  forall (last_block : Z) (w : chainplays.world),
  exists cursor : Z,
    snd (chainplays.chain_listener_loop ns last_block w) = Ok cursor /\
    last_block <= cursor.
Proof.
  induction ns as [|n ns IH]; intros last_block w; simpl.
  - exists last_block. split; [reflexivity|lia].
  - unfold bind.
    destruct (chain_listener_iter_cursor n last_block w) as (c1 & Hc1 & Hmono).
    destruct (chainplays.chain_listener_iter n last_block w) as [w1 r1].
    simpl in Hc1. subst r1.
    destruct (IH c1 w1) as (c2 & Hc2 & Hle).
    exists c2. split; [exact Hc2|].
    destruct Hmono as [->|(latest & _ & Hge & ->)]; lia.
Qed.

(** A cycle that sees a head not below the cursor sends exactly one
    filter, from the cursor to the head. *)
Lemma chain_listener_iter_requests
      (n : node) (last_block latest : Z) (w : chainplays.world) :
  block_number n = Ok latest ->
  last_block <= latest ->
  chainplays.requests (fst (chainplays.chain_listener_iter n last_block w)) =
  chainplays.requests w ++ [{| fromBlock := last_block; toBlock := latest |}].
Proof.
  intros Hhead Hle.
  rewrite chain_listener_iter_eq, chain_listener_try_eq, Hhead.
  destruct (Z.geb_spec latest last_block) as [_|Hlt]; [|lia].
  cbv zeta. destruct (get_logs n _) as [logs|e]; [|reflexivity].
  match goal with
  | |- context [for_each logs ?b ?w1] =>
      pose proof (for_each_requests logs w1) as Hreq;
      destruct (for_each logs b w1) as [w2 [[]|e]]
  end; simpl in *; exact Hreq.
Qed.

End WindowedPoller.

(** C3. When the log fetch or the decoding of a cycle of [chain_listener]
    raises, [last_block] is unchanged after the cycle, and the next cycle
    that sees a head not below it asks for the logs from that same
    [last_block]; a successful cycle with head >= cursor sets the cursor to
    head + 1; so over any run of cycles, none of which can end the loop,
    the cursor never decreases. *)
Theorem chain_listener_cursor `{Codec} :
  (forall (n : node) (last_block : Z) (w : chainplays.world) (e : exn),
      snd (chainplays.chain_listener_try n last_block w) = Raise e ->
      snd (chainplays.chain_listener_iter n last_block w) = Ok last_block) /\
  (forall (n1 n2 : node) (last_block latest : Z) (w : chainplays.world) (e : exn),
      snd (chainplays.chain_listener_try n1 last_block w) = Raise e ->
      block_number n2 = Ok latest ->
      last_block <= latest ->
      chainplays.requests (fst (chainplays.chain_listener_loop [n1; n2] last_block w)) =
      chainplays.requests (fst (chainplays.chain_listener_iter n1 last_block w))
        ++ [{| fromBlock := last_block; toBlock := latest |}]) /\
  (forall (n : node) (last_block latest cursor : Z) (w : chainplays.world),
      block_number n = Ok latest ->
      last_block <= latest ->
      snd (chainplays.chain_listener_try n last_block w) = Ok cursor ->
      cursor = latest + 1 /\
      snd (chainplays.chain_listener_iter n last_block w) = Ok (latest + 1)) /\
  (forall (ns : list node) (last_block : Z) (w : chainplays.world),
      exists cursor : Z,
        snd (chainplays.chain_listener_loop ns last_block w) = Ok cursor /\
        last_block <= cursor).
Proof.
  split; [|split; [|split]].
  - intros n last_block w e Hfail.
    rewrite chain_listener_iter_eq.
    destruct (chainplays.chain_listener_try n last_block w) as [w' r].
    simpl in Hfail. subst r. reflexivity.
  - intros n1 n2 last_block latest w e Hfail Hhead Hle.
    cbn [chainplays.chain_listener_loop]. unfold bind.
    rewrite (chain_listener_iter_eq n1).
    destruct (chainplays.chain_listener_try n1 last_block w) as [w1 r].
    simpl in Hfail. subst r. cbn [fst].
    pose proof (chain_listener_iter_requests n2 last_block latest w1 Hhead Hle) as Hreq.
    destruct (chainplays.chain_listener_iter n2 last_block w1) as [w2 [c2|e2]];
      exact Hreq.
  - intros n last_block latest cursor w Hhead Hle.
    rewrite chain_listener_iter_eq, chain_listener_try_eq, Hhead.
    destruct (Z.geb_spec latest last_block) as [_|Hlt]; [|lia].
    cbv zeta. destruct (get_logs n _) as [logs|e]; [|discriminate].
    destruct (for_each logs _ _) as [w2 [[]|e]]; [|discriminate].
    simpl. intros [= <-]. split; reflexivity.
  - apply chain_listener_loop_monotone.
Qed.

Lemma chain_listener_cursor_witness :
  (* a transport error at cursor 10, then a successful cycle at head 15 *)
  snd (chainplays.chain_listener_try (node_down 12) 10 (queued [])) = Raise "transport error" /\
  snd (chainplays.chain_listener_iter (node_down 12) 10 (queued [])) = Ok 10 /\
  chainplays.requests
    (fst (chainplays.chain_listener_loop
            [node_down 12; node_with 15 [vote_log 2]] 10 (queued []))) =
  chainplays.requests (fst (chainplays.chain_listener_iter (node_down 12) 10 (queued [])))
    ++ [{| fromBlock := 10; toBlock := 15 |}] /\
  (16 = 15 + 1 /\
   snd (chainplays.chain_listener_iter (node_with 15 [vote_log 2]) 10 (queued [])) = Ok (15 + 1)) /\
  exists cursor : Z,
    snd (chainplays.chain_listener_loop
           [node_down 12; node_with 15 [vote_log 2]] 10 (queued [])) = Ok cursor /\
    10 <= cursor.
Proof.
  destruct (@chain_listener_cursor scripted_codec) as (Hfail & Hretry & Hadvance & Hmono).
  split; [reflexivity|].
  split; [apply (Hfail (node_down 12) 10 (queued []) "transport error"); reflexivity|].
  split; [apply (Hretry (node_down 12) (node_with 15 [vote_log 2]) 10 15 (queued [])
                   "transport error"); [reflexivity|reflexivity|lia]|].
  split; [apply (Hadvance (node_with 15 [vote_log 2]) 10 15 16 (queued []));
          [reflexivity|lia|reflexivity]|].
  apply (Hmono [node_down 12; node_with 15 [vote_log 2]] 10 (queued [])).
Defined.

(** The same run, computed: the failed cycle asks for [10, 12],
    the next one for [10, 15], and the cursor ends at 16. *)
Example chain_listener_retry_trace :
  chainplays.chain_listener_loop
    [node_down 12; node_with 15 [vote_log 2]] 10 (queued []) =
  ({| chainplays.tally := [(2, 1)];
      chainplays.actions_q := [];
      chainplays.requests := [ {| fromBlock := 10; toBlock := 12 |};
                               {| fromBlock := 10; toBlock := 15 |} ];
      chainplays.screen := [] |}, Ok 16).
Proof. reflexivity. Qed.

(** The claim of C4 fails on the batch [vote 2; undecodable; vote 5]
    fetched at cursor 10: the cycle raises at the second log, the vote for
    2 stays in the tally although the cycle failed, the vote for 5 is never
    counted in that cycle, and the retry of the same cycle counts the vote
    for 2 a second time. *)
Lemma chain_listener_partial_batch_counterexample :
  snd (chainplays.chain_listener_try
         (node_with 10 [vote_log 2; bad_log; vote_log 5]) 10 (queued [])) =
    Raise "could not decode log" /\
  snd (chainplays.chain_listener_iter
         (node_with 10 [vote_log 2; bad_log; vote_log 5]) 10 (queued [])) = Ok 10 /\
  chainplays.tally
    (fst (chainplays.chain_listener_iter
            (node_with 10 [vote_log 2; bad_log; vote_log 5]) 10 (queued []))) = [(2, 1)] /\
  chainplays.tally
    (fst (chainplays.chain_listener_iter
            (node_with 10 [vote_log 2; bad_log; vote_log 5]) 10 (queued []))) <>
    chainplays.tally (queued []) /\
  Counter.get
    (chainplays.tally
       (fst (chainplays.chain_listener_iter
               (node_with 10 [vote_log 2; bad_log; vote_log 5]) 10 (queued [])))) 5 = 0 /\
  chainplays.tally
    (fst (chainplays.chain_listener_loop
            [node_with 10 [vote_log 2; bad_log; vote_log 5];
             node_with 10 [vote_log 2; bad_log; vote_log 5]] 10 (queued []))) = [(2, 2)].
Proof. repeat split; try reflexivity. discriminate. Qed.

(** C4, amended. When a fetched batch holds a log that does not decode,
    the error ends the batch and the cycle: the votes of the logs before it
    are in the tally and stay there, the logs after it are not processed,
    and the cursor is not advanced; the retry of the same cycle counts the
    earlier votes again. *)
Theorem chain_listener_undecodable_log_aborts_batch `{Codec}
        (n : node) (last_block latest : Z) (pre post : list Log) (bad : Log)
        (decoded : list MoveArgs) (e : exn) (w : chainplays.world) :
  block_number n = Ok latest ->
  last_block <= latest ->
  get_logs n {| fromBlock := last_block; toBlock := latest |} = Ok (pre ++ bad :: post) ->
  Forall2 (fun log evt => get_event_data log = Ok evt) pre decoded ->
  get_event_data bad = Raise e ->
  snd (chainplays.chain_listener_try n last_block w) = Raise e /\
  chainplays.chain_listener_iter n last_block w =
    ({| chainplays.tally := foldl Counter.incr (chainplays.tally w) (cmd <$> decoded);
        chainplays.actions_q := chainplays.actions_q w;
        chainplays.requests :=
          chainplays.requests w ++ [{| fromBlock := last_block; toBlock := latest |}];
        chainplays.screen := chainplays.screen w |}, Ok last_block) /\
  chainplays.tally (fst (chainplays.chain_listener_loop [n; n] last_block w)) =
    foldl Counter.incr
      (foldl Counter.incr (chainplays.tally w) (cmd <$> decoded)) (cmd <$> decoded).
Proof.
  intros Hhead Hle Hlogs Hpre Hbad.
  assert (Hiter : forall w0 : chainplays.world,
    chainplays.chain_listener_try n last_block w0 =
      ({| chainplays.tally := foldl Counter.incr (chainplays.tally w0) (cmd <$> decoded);
          chainplays.actions_q := chainplays.actions_q w0;
          chainplays.requests :=
            chainplays.requests w0 ++ [{| fromBlock := last_block; toBlock := latest |}];
          chainplays.screen := chainplays.screen w0 |}, Raise e)).
  { intros w0. rewrite chain_listener_try_eq, Hhead.
    destruct (Z.geb_spec latest last_block) as [_|Hlt]; [|lia].
    cbv zeta. rewrite Hlogs.
    rewrite (for_each_undecodable pre post bad decoded e _ Hpre Hbad).
    reflexivity. }
  split; [rewrite Hiter; reflexivity|].
  split.
  - rewrite chain_listener_iter_eq, Hiter. reflexivity.
  - cbn [chainplays.chain_listener_loop]. unfold bind, ret.
    rewrite chain_listener_iter_eq, Hiter.
    rewrite chain_listener_iter_eq, Hiter. reflexivity.
Qed.

Lemma chain_listener_undecodable_log_aborts_batch_witness :
  snd (chainplays.chain_listener_try
         (node_with 10 [vote_log 2; bad_log; vote_log 5]) 10 (queued [])) =
    Raise "could not decode log" /\
  chainplays.chain_listener_iter
    (node_with 10 [vote_log 2; bad_log; vote_log 5]) 10 (queued []) =
    ({| chainplays.tally := [(2, 1)];
        chainplays.actions_q := [];
        chainplays.requests := [{| fromBlock := 10; toBlock := 10 |}];
        chainplays.screen := [] |}, Ok 10) /\
  chainplays.tally
    (fst (chainplays.chain_listener_loop
            [node_with 10 [vote_log 2; bad_log; vote_log 5];
             node_with 10 [vote_log 2; bad_log; vote_log 5]] 10 (queued []))) = [(2, 2)].
Proof.
  apply (@chain_listener_undecodable_log_aborts_batch scripted_codec
           (node_with 10 [vote_log 2; bad_log; vote_log 5]) 10 10
           [vote_log 2] [vote_log 5] bad_log
           [{| sender := "0xA11CE"; cmd := 2; weight := 1; memo := "" |}]
           "could not decode log" (queued [])).
  - reflexivity.
  - lia.
  - reflexivity.
  - constructor; [reflexivity|constructor].
  - reflexivity.
Defined.

(** ** The pollers of the chaos and the minimal variant *)

Section ForwardingPollers.
Context `{Codec}.

Lemma chaos_set_actions_q_same (w : chainplaysChaos.world) :
  chainplaysChaos.set_actions_q (chainplaysChaos.actions_q w) w = w.
Proof. destruct w; reflexivity. Qed.

Lemma chaos_chain_listener_log_eq (log : Log) (w : chainplaysChaos.world) :
  chainplaysChaos.chain_listener_log log w =
  match get_event_data log with
  | Ok evt =>
      match chainplaysChaos.CMD_INDEX_TO_BUTTON !! cmd evt with
      | Some btn => (chainplaysChaos.put btn w, Ok tt)
      | None => (w, Ok tt)
      end
  | Raise e => (w, Raise e)
  end.
Proof.
  unfold chainplaysChaos.chain_listener_log, bind, lift.
  destruct (get_event_data log) as [evt|e]; [|reflexivity].
  cbv zeta.
  destruct (chainplaysChaos.CMD_INDEX_TO_BUTTON !! cmd evt) as [btn|] eqn:Hbtn;
    [|reflexivity].
  change chainplaysChaos.CMD_INDEX_TO_BUTTON with chainplays.CMD_INDEX_TO_BUTTON in Hbtn.
  destruct (table_inside _ _ Hbtn) as (_ & _ & ->). reflexivity.
Qed.

Lemma minimal_chain_listener_log_eq (log : Log) (w : chainplaysTESTING.world) :
  chainplaysTESTING.chain_listener_log log w =
  match get_event_data log with
  | Ok evt =>
      match chainplaysTESTING.CMD_INDEX_TO_BUTTON !! cmd evt with
      | Some btn => (chainplaysTESTING.put btn w, Ok tt)
      | None => (w, Ok tt)
      end
  | Raise e => (w, Raise e)
  end.
Proof.
  unfold chainplaysTESTING.chain_listener_log, bind, lift.
  destruct (get_event_data log) as [evt|e]; [|reflexivity].
  cbv zeta.
  destruct (chainplaysTESTING.CMD_INDEX_TO_BUTTON !! cmd evt) as [btn|] eqn:Hbtn;
    [|reflexivity].
  change chainplaysTESTING.CMD_INDEX_TO_BUTTON with chainplays.CMD_INDEX_TO_BUTTON in Hbtn.
  destruct (table_inside _ _ Hbtn) as (_ & _ & ->). reflexivity.
Qed.

(** The buttons of a list of decoded votes: one for each vote whose index
    is in the table, in the order of the votes. *)
Local Abbreviation buttons decoded :=
  (omap (fun evt => chainplaysChaos.CMD_INDEX_TO_BUTTON !! cmd evt) decoded).

Lemma chaos_for_each_decoded (logs : list Log) (decoded : list MoveArgs) :
  Forall2 (fun log evt => get_event_data log = Ok evt) logs decoded ->
  forall w : chainplaysChaos.world,
    for_each logs chainplaysChaos.chain_listener_log w =
    (chainplaysChaos.set_actions_q (chainplaysChaos.actions_q w ++ buttons decoded) w,
     Ok tt).
Proof.
  induction 1 as [|log evt logs decoded Hlog _ IH]; intros w.
  - simpl. unfold ret. rewrite app_nil_r, chaos_set_actions_q_same. reflexivity.
  - rewrite for_each_cons, chaos_chain_listener_log_eq, Hlog. cbn [omap list_omap].
    destruct (chainplaysChaos.CMD_INDEX_TO_BUTTON !! cmd evt) as [btn|].
    + rewrite IH. unfold chainplaysChaos.put, chainplaysChaos.set_actions_q.
      cbn. rewrite <- app_assoc. reflexivity.
    + apply IH.
Qed.

(** A log that does not decode ends the batch: the votes before it are
    queued, each once, and the logs after it are not looked at. *)
Lemma chaos_for_each_undecodable
      (pre post : list Log) (bad : Log) (decoded : list MoveArgs) (e : exn)
      (w : chainplaysChaos.world) :
  Forall2 (fun log evt => get_event_data log = Ok evt) pre decoded ->
  get_event_data bad = Raise e ->
  for_each (pre ++ bad :: post) chainplaysChaos.chain_listener_log w =
  (chainplaysChaos.set_actions_q (chainplaysChaos.actions_q w ++ buttons decoded) w,
   Raise e).
Proof.
  intros Hpre Hbad.
  rewrite for_each_app, (chaos_for_each_decoded _ _ Hpre), for_each_cons.
  rewrite chaos_chain_listener_log_eq, Hbad. reflexivity.
Qed.

End ForwardingPollers.

(** C2. The table maps 0, 1, 2, 3, 4, 5, 6, 7 to up, down, left, right, a,
    b, start, select, in the three files alike; an index in 0..7 always has
    a button; an index outside 0..7 has none, and a vote for it raises no
    error and puts nothing on the queue: the windowed listener tallies it
    and the aggregator drops it, the chaos and the minimal listener drop
    it. *)
Theorem cmd_index_to_button_total `{Codec} (k : Z) :
  (chainplays.CMD_INDEX_TO_BUTTON !! 0 = Some "up" /\
   chainplays.CMD_INDEX_TO_BUTTON !! 1 = Some "down" /\
   chainplays.CMD_INDEX_TO_BUTTON !! 2 = Some "left" /\
   chainplays.CMD_INDEX_TO_BUTTON !! 3 = Some "right" /\
   chainplays.CMD_INDEX_TO_BUTTON !! 4 = Some "a" /\
   chainplays.CMD_INDEX_TO_BUTTON !! 5 = Some "b" /\
   chainplays.CMD_INDEX_TO_BUTTON !! 6 = Some "start" /\
   chainplays.CMD_INDEX_TO_BUTTON !! 7 = Some "select") /\
  chainplaysChaos.CMD_INDEX_TO_BUTTON = chainplays.CMD_INDEX_TO_BUTTON /\
  chainplaysTESTING.CMD_INDEX_TO_BUTTON = chainplays.CMD_INDEX_TO_BUTTON /\
  (0 <= k <= 7 -> is_Some (chainplays.CMD_INDEX_TO_BUTTON !! k)) /\
  (k < 0 \/ 7 < k ->
   chainplays.CMD_INDEX_TO_BUTTON !! k = None /\
   (forall w : chainplays.world, chainplays.vote_aggregator_put k w = w) /\
   (forall (log : Log) (evt : MoveArgs),
       get_event_data log = Ok evt ->
       cmd evt = k ->
       (forall w : chainplays.world,
           snd (chainplays.chain_listener_log log w) = Ok tt /\
           chainplays.actions_q (fst (chainplays.chain_listener_log log w)) =
             chainplays.actions_q w) /\
       (forall w : chainplaysChaos.world,
           chainplaysChaos.chain_listener_log log w = (w, Ok tt)) /\
       (forall w : chainplaysTESTING.world,
           chainplaysTESTING.chain_listener_log log w = (w, Ok tt)))).
Proof.
  split; [rewrite !table_lookup; repeat split; reflexivity|].
  split; [reflexivity|]. split; [reflexivity|].
  split.
  - intros Hk. rewrite table_lookup.
    repeat (case_decide; [eexists; reflexivity|]). lia.
  - intros Hk. pose proof (table_outside k Hk) as Hnone.
    split; [exact Hnone|].
    split; [intros w; apply vote_aggregator_put_unmapped; exact Hnone|].
    intros log evt Hlog Hcmd. subst k. split; [|split]; intros w.
    + rewrite chain_listener_log_eq, Hlog. split; reflexivity.
    + rewrite chaos_chain_listener_log_eq, Hlog.
      change chainplaysChaos.CMD_INDEX_TO_BUTTON with chainplays.CMD_INDEX_TO_BUTTON.
      rewrite Hnone. reflexivity.
    + rewrite minimal_chain_listener_log_eq, Hlog.
      change chainplaysTESTING.CMD_INDEX_TO_BUTTON with chainplays.CMD_INDEX_TO_BUTTON.
      rewrite Hnone. reflexivity.
Qed.

Lemma cmd_index_to_button_total_witness :
  is_Some (chainplays.CMD_INDEX_TO_BUTTON !! 7) /\
  chainplays.CMD_INDEX_TO_BUTTON !! 8 = None /\
  chainplays.vote_aggregator_put 8 (queued ["a"]) = queued ["a"] /\
  chainplaysChaos.chain_listener_log (vote_log 8) (chaos_queued ["a"]) =
    (chaos_queued ["a"], Ok tt) /\
  chainplaysTESTING.chain_listener_log (vote_log 8) (minimal_queued ["a"]) =
    (minimal_queued ["a"], Ok tt).
Proof.
  destruct (@cmd_index_to_button_total scripted_codec 7) as (_ & _ & _ & Hin & _).
  destruct (@cmd_index_to_button_total scripted_codec 8) as (_ & _ & _ & _ & Hout).
  split; [apply Hin; lia|].
  destruct Hout as (Hnone & Hput & Hlog); [right; lia|].
  split; [exact Hnone|]. split; [apply Hput|].
  destruct (Hlog (vote_log 8) {| sender := "0xA11CE"; cmd := 8; weight := 1; memo := "" |}
              eq_refl eq_refl) as (_ & Hchaos & Hminimal).
  split; [apply Hchaos|apply Hminimal].
Defined.

(** ** The three threads of the windowed variant *)

Section WindowedInvariant.

(** A button of the table: the name of some index in 0..7. *)
Local Abbreviation mapped_button :=
  (fun btn : string =>
     exists k : Z, 0 <= k <= 7 /\ chainplays.CMD_INDEX_TO_BUTTON !! k = Some btn).

Local Abbreviation positive_count := (fun item : Z * Z => 0 < snd item).

Lemma get_nonneg (c : Counter.t) (k : Z) :
  Forall positive_count c -> 0 <= Counter.get c k.
Proof.
  induction 1 as [|[k' n] c Hn _ IH]; simpl in *.
  - lia.
  - destruct (Z.eqb k' k); lia.
Qed.

Lemma set_positive (c : Counter.t) (k v : Z) :
  0 < v -> Forall positive_count c -> Forall positive_count (Counter.set c k v).
Proof.
  intros Hv. induction 1 as [|[k' n] c Hn Hc IH]; simpl in *.
  - constructor; [exact Hv|constructor].
  - destruct (Z.eqb k' k); constructor; auto.
Qed.

Lemma incr_positive (c : Counter.t) (k : Z) :
  Forall positive_count c -> Forall positive_count (Counter.incr c k).
Proof.
  intros Hc. apply set_positive; [|exact Hc].
  pose proof (get_nonneg c k Hc). lia.
Qed.

(** The lock block leaves the queue alone, and the tally as it was or
    empty. *)
Lemma vote_aggregator_locked_shared (w : chainplays.world) :
  chainplays.actions_q (snd (chainplays.vote_aggregator_locked w)) =
    chainplays.actions_q w /\
  (chainplays.tally (snd (chainplays.vote_aggregator_locked w)) = chainplays.tally w \/
   chainplays.tally (snd (chainplays.vote_aggregator_locked w)) = []).
Proof.
  unfold chainplays.vote_aggregator_locked.
  destruct (Counter.is_empty (chainplays.tally w)); [auto|].
  destruct (Counter.most_common_1 (chainplays.tally w)) as [|[cmd_idx n] rest]; auto.
Qed.

(** The statements after the lock block add a button of the table to the
    queue, or nothing. *)
Lemma vote_aggregator_put_shared (cmd_idx : Z) (w : chainplays.world) :
  chainplays.tally (chainplays.vote_aggregator_put cmd_idx w) = chainplays.tally w /\
  (chainplays.actions_q (chainplays.vote_aggregator_put cmd_idx w) =
     chainplays.actions_q w \/
   exists btn : string,
     mapped_button btn /\
     chainplays.actions_q (chainplays.vote_aggregator_put cmd_idx w) =
       chainplays.actions_q w ++ [btn]).
Proof.
  destruct (chainplays.CMD_INDEX_TO_BUTTON !! cmd_idx) as [btn|] eqn:Hbtn.
  - rewrite (vote_aggregator_put_mapped _ _ _ Hbtn).
    split; [reflexivity|]. right. exists btn. split; [|reflexivity].
    exists cmd_idx. split; [|exact Hbtn]. apply (table_inside _ _ Hbtn).
  - rewrite (vote_aggregator_put_unmapped _ _ Hbtn). auto.
Qed.

(** The main thread leaves the tally alone and only takes from the
    queue. *)
Lemma main_iter_shared (pyboy : PyBoy) (w : chainplays.world) :
  chainplays.tally (chainplays.main_iter pyboy w) = chainplays.tally w /\
  chainplays.actions_q (chainplays.main_iter pyboy w) = tail (chainplays.actions_q w).
Proof.
  unfold chainplays.main_iter.
  destruct (chainplays.actions_q w) as [|btn q] eqn:Hq; simpl; auto.
Qed.

End WindowedInvariant.

(** The claim of C7 fails after one vote for index 8, an 8-bit value the
    event can carry: the listener tallies it without looking at the table,
    so the tally holds the entry (8, 1), and 8 has no button. *)
Lemma tally_holds_unmapped_index_counterexample :
  chainplays.reachable pyboy_running config_vote_8 /\
  chainplays.tally (chainplays.shared config_vote_8) = [(8, 1)] /\
  chainplays.tally
    (fst (chainplays.chain_listener_iter (node_with 10 [vote_log 8]) 10 (queued []))) =
    [(8, 1)] /\
  chainplays.CMD_INDEX_TO_BUTTON !! 8 = None /\
  ~ Forall (fun item : Z * Z => is_Some (chainplays.CMD_INDEX_TO_BUTTON !! fst item))
      (chainplays.tally (chainplays.shared config_vote_8)).
Proof.
  split.
  { apply (chainplays.reachable_step pyboy_running chainplays.initial);
      [constructor|]. exact (chainplays.step_vote pyboy_running chainplays.initial 8). }
  split; [reflexivity|]. split; [reflexivity|]. split; [reflexivity|].
  intros Hall. apply Forall_inv in Hall. destruct Hall as [btn Hbtn].
  discriminate Hbtn.
Qed.

(** C7, amended. At every point of an execution of the windowed variant,
    every action in the queue is the button of a command index in 0..7:
    indices without a button are dropped before they reach the action
    queue. The tally is not filtered: its entries may have an index with
    or without a button, and each has a positive count. *)
Theorem queue_holds_only_mapped_buttons (pyboy : PyBoy) (c : chainplays.config) :
  chainplays.reachable pyboy c ->
  Forall (fun btn : string =>
            exists k : Z, 0 <= k <= 7 /\ chainplays.CMD_INDEX_TO_BUTTON !! k = Some btn)
         (chainplays.actions_q (chainplays.shared c)) /\
  Forall (fun item : Z * Z => 0 < snd item) (chainplays.tally (chainplays.shared c)).
Proof.
  induction 1 as [|c c' _ [IHq IHt] Hstep].
  - split; constructor.
  - destruct Hstep as [c cmd|c f|c _|c cmd_idx _|c|c]; cbn [chainplays.shared].
    + split; [exact IHq|]. apply incr_positive. exact IHt.
    + split; [exact IHq|exact IHt].
    + destruct (vote_aggregator_locked_shared (chainplays.shared c)) as (-> & [->| ->]);
        split; auto.
    + destruct (vote_aggregator_put_shared cmd_idx (chainplays.shared c))
        as (-> & [->|(btn & Hbtn & ->)]); split; auto.
      apply Forall_app; split; [exact IHq|]. constructor; [exact Hbtn|constructor].
    + split; [exact IHq|exact IHt].
    + destruct (main_iter_shared pyboy (chainplays.shared c)) as (-> & ->).
      split; [|exact IHt].
      destruct (chainplays.actions_q (chainplays.shared c)) as [|btn q]; [constructor|].
      apply Forall_inv_tail in IHq. exact IHq.
Qed.

Lemma config_put_reachable : chainplays.reachable pyboy_running config_put.
Proof.
  apply (chainplays.reachable_step pyboy_running config_winner).
  - apply (chainplays.reachable_step pyboy_running config_window).
    + apply (chainplays.reachable_step pyboy_running
               {| chainplays.shared := window [8; 4]; chainplays.pending := None |}).
      * apply (chainplays.reachable_step pyboy_running config_vote_8).
        -- apply (chainplays.reachable_step pyboy_running chainplays.initial);
             [constructor|].
           exact (chainplays.step_vote pyboy_running chainplays.initial 8).
        -- exact (chainplays.step_vote pyboy_running config_vote_8 4).
      * exact (chainplays.step_vote pyboy_running
                 {| chainplays.shared := window [8; 4]; chainplays.pending := None |} 4).
    + exact (chainplays.step_locked pyboy_running config_window eq_refl).
  - exact (chainplays.step_put pyboy_running config_winner 4 eq_refl).
Defined.

Lemma queue_holds_only_mapped_buttons_witness :
  chainplays.reachable pyboy_running config_put /\
  Forall (fun btn : string =>
            exists k : Z, 0 <= k <= 7 /\ chainplays.CMD_INDEX_TO_BUTTON !! k = Some btn)
         (chainplays.actions_q (chainplays.shared config_put)) /\
  Forall (fun item : Z * Z => 0 < snd item)
         (chainplays.tally (chainplays.shared config_put)).
Proof.
  split.
  - exact config_put_reachable.
  - apply (queue_holds_only_mapped_buttons pyboy_running config_put).
    exact config_put_reachable.
Defined.

(** ** The applicator *)

Lemma windowed_ticks_eq (pyboy : PyBoy) (n : nat) :
  forall h : history, chainplays.ticks pyboy n h = h ++ replicate n Tick.
Proof.
  induction n as [|n IH]; intros h; simpl.
  - rewrite app_nil_r. reflexivity.
  - rewrite IH, <- app_assoc. reflexivity.
Qed.

Lemma chaos_ticks_eq (pyboy : PyBoy) (n : nat) :
  forall h : history, chainplaysChaos.ticks pyboy n h = h ++ replicate n Tick.
Proof.
  induction n as [|n IH]; intros h; simpl.
  - rewrite app_nil_r. reflexivity.
  - rewrite IH, <- app_assoc. reflexivity.
Qed.

Section Applicator.
Variable pyboy : PyBoy.

Lemma count_ticks_app (h1 h2 : history) :
  count_ticks (h1 ++ h2) = (count_ticks h1 + count_ticks h2)%nat.
Proof.
  induction h1 as [|[btn down|] h1 IH]; simpl; [reflexivity|exact IH|].
  rewrite IH. reflexivity.
Qed.

Lemma tick_results_app (a b : history) :
  forall done : history,
    tick_results pyboy done (a ++ b) =
    tick_results pyboy done a ++ tick_results pyboy (done ++ a) b.
Proof.
  induction a as [|op a IH]; intros done.
  - simpl. rewrite app_nil_r. reflexivity.
  - assert (Happ : done ++ op :: a = (done ++ [op]) ++ a)
      by (rewrite <- app_assoc; reflexivity).
    destruct op as [btn down|]; simpl; rewrite IH, Happ; reflexivity.
Qed.

(** No step of the history signalled termination. *)
Local Abbreviation alive h := (Forall (fun r : bool => r = true) (tick_results pyboy [] h)).

(** The last operation of the history is a step that signalled
    termination, the first one to do so. *)
Local Abbreviation stopped h :=
  (exists pre : history, h = pre ++ [Tick] /\ alive pre /\ pyboy pre = false).

Lemma alive_tick (h : history) : alive h -> pyboy h = true -> alive (h ++ [Tick]).
Proof.
  intros Hh Ht. rewrite tick_results_app. apply Forall_app. split; [exact Hh|].
  simpl. constructor; [exact Ht|constructor].
Qed.

Lemma alive_button (h : history) (btn : string) (down : bool) :
  alive h -> alive (h ++ [Button btn down]).
Proof.
  intros Hh. rewrite tick_results_app. apply Forall_app. split; [exact Hh|].
  simpl. constructor.
Qed.

Lemma minimal_warmup_stops (n : nat) :
  forall h : history,
    alive h ->
    match chainplaysTESTING.warmup pyboy n h with
    | (chainplaysTESTING.Continue, h') => alive h'
    | (chainplaysTESTING.Returned, h') => stopped h'
    end.
Proof.
  induction n as [|n IH]; intros h Hh; simpl.
  - exact Hh.
  - destruct (pyboy h) eqn:Ht.
    + apply IH. apply alive_tick; assumption.
    + exists h. auto.
Qed.

Lemma minimal_main_iter_stops (w : chainplaysTESTING.world) :
  alive (chainplaysTESTING.screen w) ->
  match chainplaysTESTING.main_iter pyboy w with
  | (chainplaysTESTING.Continue, w') => alive (chainplaysTESTING.screen w')
  | (chainplaysTESTING.Returned, w') => stopped (chainplaysTESTING.screen w')
  end.
Proof.
  intros Hw. unfold chainplaysTESTING.main_iter, tick, button.
  destruct (chainplaysTESTING.actions_q w) as [|btn q]; cbn.
  - destruct (pyboy (chainplaysTESTING.screen w)) eqn:Ht; cbn.
    + apply alive_tick; assumption.
    + eexists. eauto.
  - pose proof (alive_button _ btn true Hw) as Hdown.
    destruct (pyboy (chainplaysTESTING.screen w ++ [Button btn true])) eqn:Ht1; cbn.
    + pose proof (alive_button _ btn false (alive_tick _ Hdown Ht1)) as Hup.
      destruct (pyboy (((chainplaysTESTING.screen w ++ [Button btn true]) ++ [Tick])
                        ++ [Button btn false])) eqn:Ht2; cbn.
      * apply alive_tick; assumption.
      * eexists. eauto.
    + eexists. eauto.
Qed.

Lemma minimal_main_loop_stops (k : nat) :
  forall w : chainplaysTESTING.world,
    alive (chainplaysTESTING.screen w) ->
    match chainplaysTESTING.main_loop pyboy k w with
    | (chainplaysTESTING.Continue, w') => alive (chainplaysTESTING.screen w')
    | (chainplaysTESTING.Returned, w') => stopped (chainplaysTESTING.screen w')
    end.
Proof.
  induction k as [|k IH]; intros w Hw; simpl.
  - exact Hw.
  - pose proof (minimal_main_iter_stops w Hw) as Hiter.
    destruct (chainplaysTESTING.main_iter pyboy w) as [[|] w'].
    + apply IH. exact Hiter.
    + exact Hiter.
Qed.

(** X21. The minimal variant does what the specification asks of the
    applicator: in the warm-up and in the loop alike, [main] goes on only
    while no step has signalled termination, and when it has returned, the
    step that signalled is the last operation on the emulator. *)
Lemma minimal_main_stops_at_first_signal (k : nat) (w : chainplaysTESTING.world) :
  alive (chainplaysTESTING.screen w) ->
  match chainplaysTESTING.main pyboy k w with
  | (chainplaysTESTING.Continue, w') => alive (chainplaysTESTING.screen w')
  | (chainplaysTESTING.Returned, w') => stopped (chainplaysTESTING.screen w')
  end.
Proof.
  intros Hw. unfold chainplaysTESTING.main. cbn [chainplaysTESTING.PRINT_ONLY].
  pose proof (minimal_warmup_stops 240 _ Hw) as Hwarm.
  destruct (chainplaysTESTING.warmup pyboy 240 (chainplaysTESTING.screen w)) as [[|] h].
  - apply minimal_main_loop_stops. exact Hwarm.
  - exact Hwarm.
Qed.

(** The windowed and the chaos variant never look at the result of a
    step. *)
Lemma windowed_main_iter_blind (w : chainplays.world) :
  chainplays.main_iter pyboy w = chainplays.main_iter pyboy_running w.
Proof.
  unfold chainplays.main_iter.
  destruct (chainplays.actions_q w) as [|btn q]; [reflexivity|].
  cbv zeta. rewrite !windowed_ticks_eq. reflexivity.
Qed.

Lemma chaos_main_iter_blind (w : chainplaysChaos.world) :
  chainplaysChaos.main_iter pyboy w = chainplaysChaos.main_iter pyboy_running w.
Proof. reflexivity. Qed.

Lemma windowed_main_blind (k : nat) (w : chainplays.world) :
  chainplays.main pyboy k w = chainplays.main pyboy_running k w.
Proof.
  unfold chainplays.main. cbn [chainplays.PRINT_ONLY]. rewrite !windowed_ticks_eq.
  generalize (chainplays.set_screen (chainplays.screen w ++ replicate 240 Tick) w).
  induction k as [|k IH]; intros w0; simpl; [reflexivity|].
  rewrite windowed_main_iter_blind. apply IH.
Qed.

Lemma chaos_main_blind (k : nat) (w : chainplaysChaos.world) :
  chainplaysChaos.main pyboy k w = chainplaysChaos.main pyboy_running k w.
Proof.
  unfold chainplaysChaos.main. cbn [chainplaysChaos.PRINT_ONLY]. rewrite !chaos_ticks_eq.
  generalize (chainplaysChaos.set_screen (chainplaysChaos.screen w ++ replicate 240 Tick) w).
  induction k as [|k IH]; intros w0; simpl; [reflexivity|].
  rewrite chaos_main_iter_blind. apply IH.
Qed.

End Applicator.

(** C5. The windowed and the chaos variant break the claim; the minimal
    variant keeps it ([minimal_main_stops_at_first_signal]). With an
    emulator whose window is closed, so that the very first step of the
    warm-up signals termination, and the action "a" queued:
    the minimal [main] returns after that one step and leaves the queue
    alone, while the windowed [main] performs all 240 steps of the warm-up
    and goes on to press and release "a" and to idle, and the chaos [main]
    does the same with its own timing. In these two variants the result of
    [main] does not depend on what the steps return at all. *)
Theorem main_runs_past_termination_signal :
  tick pyboy_closed [] = (false, [Tick]) /\
  chainplaysTESTING.main pyboy_closed 2 (minimal_queued ["a"]) =
    (chainplaysTESTING.Returned,
     {| chainplaysTESTING.actions_q := ["a"];
        chainplaysTESTING.requests := [];
        chainplaysTESTING.screen := [Tick] |}) /\
  chainplays.main pyboy_closed 2 (queued ["a"]) =
    {| chainplays.tally := [];
       chainplays.actions_q := [];
       chainplays.requests := [];
       chainplays.screen :=
         replicate 240 Tick ++ [Button "a" true] ++ replicate 6 Tick
           ++ [Button "a" false] ++ replicate 2 Tick ++ [Tick] |} /\
  count_ticks (chainplays.screen (chainplays.main pyboy_closed 2 (queued ["a"]))) = 249%nat /\
  chainplaysChaos.main pyboy_closed 2 (chaos_queued ["a"]) =
    {| chainplaysChaos.actions_q := [];
       chainplaysChaos.requests := [];
       chainplaysChaos.screen :=
         replicate 240 Tick ++ [Button "a" true; Tick; Button "a" false; Tick] |} /\
  (forall (pyboy : PyBoy) (k : nat) (w : chainplays.world),
      chainplays.main pyboy k w = chainplays.main pyboy_running k w) /\
  (forall (pyboy : PyBoy) (k : nat) (w : chainplaysChaos.world),
      chainplaysChaos.main pyboy k w = chainplaysChaos.main pyboy_running k w).
Proof.
  split; [reflexivity|]. split; [reflexivity|].
  split; [vm_compute; reflexivity|]. split; [vm_compute; reflexivity|].
  split; [vm_compute; reflexivity|].
  split; [exact windowed_main_blind|exact chaos_main_blind].
Qed.

(** The claim of C8 fails on its step counts in chaos mode, whatever the
    emulator makes of the calls: for the popped action "a" the loop calls
    [button("a", True)], steps once, calls [button("a", False)], and steps
    no more, so the action takes one step, not the two of "1 step held and
    1 step released"; with "a" and "b" queued, two iterations make two
    steps, not four, and the first call for "b" follows the second call
    for "a" with no step between them. In the minimal variant, when the
    press frame signals termination, [main] returns and the second call is
    never made. *)
Lemma applicator_chaos_step_count_counterexample :
  chainplaysChaos.screen (chainplaysChaos.main_iter pyboy_running (chaos_queued ["a"])) =
    [Button "a" true; Tick; Button "a" false] /\
  count_ticks
    (chainplaysChaos.screen (chainplaysChaos.main_iter pyboy_running (chaos_queued ["a"]))) =
    1%nat /\
  count_ticks
    (chainplaysChaos.screen (chainplaysChaos.main_iter pyboy_running (chaos_queued ["a"]))) <>
    (1 + 1)%nat /\
  chainplaysChaos.screen
    (chainplaysChaos.main_loop pyboy_running 2 (chaos_queued ["a"; "b"])) =
    [Button "a" true; Tick; Button "a" false; Button "b" true; Tick; Button "b" false] /\
  count_ticks
    (chainplaysChaos.screen
       (chainplaysChaos.main_loop pyboy_running 2 (chaos_queued ["a"; "b"]))) = 2%nat /\
  chainplaysTESTING.main_iter pyboy_closed (minimal_queued ["a"]) =
    (chainplaysTESTING.Returned,
     {| chainplaysTESTING.actions_q := [];
        chainplaysTESTING.requests := [];
        chainplaysTESTING.screen := [Button "a" true; Tick] |}).
Proof. repeat split; try reflexivity. discriminate. Qed.

(** C8, amended. For an action popped from the queue the applicator calls
    [pyboy.button(btn, True)], steps the emulator a fixed number of times,
    calls [pyboy.button(btn, False)], and steps it a second fixed number of
    times: 6 steps after the first call and 2 after the second in windowed
    mode; 1 step after the first call and none after the second in chaos
    mode; in the minimal variant 1 step after the first call, the press
    frame, and, unless that step signals termination, the second call and
    1 step after it, the release frame, after which [main] goes on or
    returns as that step says. With no action pending it steps the
    emulator exactly once. What the emulator makes of the two calls is
    left open. *)
Theorem applicator_button_and_step_calls (pyboy : PyBoy) (btn : string) (q : list string) :
  (forall w : chainplays.world,
      chainplays.actions_q w = btn :: q ->
      chainplays.main_iter pyboy w =
      chainplays.set_screen
        (chainplays.screen w ++ [Button btn true] ++ replicate 6 Tick
           ++ [Button btn false] ++ replicate 2 Tick)
        (chainplays.set_actions_q q w)) /\
  (forall w : chainplaysChaos.world,
      chainplaysChaos.actions_q w = btn :: q ->
      chainplaysChaos.main_iter pyboy w =
      chainplaysChaos.set_screen
        (chainplaysChaos.screen w ++ [Button btn true; Tick; Button btn false])
        (chainplaysChaos.set_actions_q q w)) /\
  (forall w : chainplaysTESTING.world,
      chainplaysTESTING.actions_q w = btn :: q ->
      pyboy (chainplaysTESTING.screen w ++ [Button btn true]) = true ->
      chainplaysTESTING.main_iter pyboy w =
      (if pyboy (chainplaysTESTING.screen w ++ [Button btn true; Tick; Button btn false])
       then chainplaysTESTING.Continue else chainplaysTESTING.Returned,
       chainplaysTESTING.set_screen
         (chainplaysTESTING.screen w ++ [Button btn true; Tick; Button btn false; Tick])
         (chainplaysTESTING.set_actions_q q w))) /\
  (forall w : chainplaysTESTING.world,
      chainplaysTESTING.actions_q w = btn :: q ->
      pyboy (chainplaysTESTING.screen w ++ [Button btn true]) = false ->
      chainplaysTESTING.main_iter pyboy w =
      (chainplaysTESTING.Returned,
       chainplaysTESTING.set_screen
         (chainplaysTESTING.screen w ++ [Button btn true; Tick])
         (chainplaysTESTING.set_actions_q q w))) /\
  (forall w : chainplays.world,
      chainplays.actions_q w = [] ->
      chainplays.main_iter pyboy w =
      chainplays.set_screen (chainplays.screen w ++ [Tick]) w) /\
  (forall w : chainplaysChaos.world,
      chainplaysChaos.actions_q w = [] ->
      chainplaysChaos.main_iter pyboy w =
      chainplaysChaos.set_screen (chainplaysChaos.screen w ++ [Tick]) w) /\
  (forall w : chainplaysTESTING.world,
      chainplaysTESTING.actions_q w = [] ->
      snd (chainplaysTESTING.main_iter pyboy w) =
      chainplaysTESTING.set_screen (chainplaysTESTING.screen w ++ [Tick]) w).
Proof.
  repeat split; intros w Hq.
  - unfold chainplays.main_iter. rewrite Hq. cbv zeta.
    rewrite !windowed_ticks_eq. unfold button. cbn [chainplays.screen chainplays.set_actions_q].
    rewrite <- !app_assoc. reflexivity.
  - unfold chainplaysChaos.main_iter. rewrite Hq. cbv zeta.
    unfold button, tick. cbn. rewrite <- !app_assoc. reflexivity.
  - intros Hpress.
    unfold chainplaysTESTING.main_iter. rewrite Hq. cbv zeta.
    unfold button, tick. cbn [chainplaysTESTING.screen chainplaysTESTING.set_actions_q].
    rewrite Hpress.
    replace (((chainplaysTESTING.screen w ++ [Button btn true]) ++ [Tick])
               ++ [Button btn false])
      with (chainplaysTESTING.screen w ++ [Button btn true; Tick; Button btn false])
      by (rewrite <- !app_assoc; reflexivity).
    destruct (pyboy (chainplaysTESTING.screen w ++ [Button btn true; Tick; Button btn false]));
      rewrite <- !app_assoc; reflexivity.
  - intros Hpress.
    unfold chainplaysTESTING.main_iter. rewrite Hq. cbv zeta.
    unfold button, tick. cbn [chainplaysTESTING.screen chainplaysTESTING.set_actions_q].
    rewrite Hpress. rewrite <- !app_assoc. reflexivity.
  - unfold chainplays.main_iter. rewrite Hq. reflexivity.
  - unfold chainplaysChaos.main_iter. rewrite Hq. reflexivity.
  - unfold chainplaysTESTING.main_iter, tick. rewrite Hq.
    destruct (pyboy (chainplaysTESTING.screen w)); reflexivity.
Qed.

Lemma applicator_button_and_step_calls_witness :
  chainplays.main_iter pyboy_running (queued ["a"; "b"]) =
    {| chainplays.tally := [];
       chainplays.actions_q := ["b"];
       chainplays.requests := [];
       chainplays.screen :=
         [Button "a" true; Tick; Tick; Tick; Tick; Tick; Tick;
          Button "a" false; Tick; Tick] |} /\
  chainplaysChaos.main_iter pyboy_running (chaos_queued ["a"; "b"]) =
    {| chainplaysChaos.actions_q := ["b"];
       chainplaysChaos.requests := [];
       chainplaysChaos.screen := [Button "a" true; Tick; Button "a" false] |} /\
  (* the emulator stays open *)
  chainplaysTESTING.main_iter pyboy_running (minimal_queued ["a"; "b"]) =
    (chainplaysTESTING.Continue,
     {| chainplaysTESTING.actions_q := ["b"];
        chainplaysTESTING.requests := [];
        chainplaysTESTING.screen := [Button "a" true; Tick; Button "a" false; Tick] |}) /\
  (* the release frame signals termination: the same calls, and [main] returns *)
  chainplaysTESTING.main_iter (pyboy_closing_after 1) (minimal_queued ["a"; "b"]) =
    (chainplaysTESTING.Returned,
     {| chainplaysTESTING.actions_q := ["b"];
        chainplaysTESTING.requests := [];
        chainplaysTESTING.screen := [Button "a" true; Tick; Button "a" false; Tick] |}) /\
  (* the press frame signals termination: no second call *)
  chainplaysTESTING.main_iter pyboy_closed (minimal_queued ["a"; "b"]) =
    (chainplaysTESTING.Returned,
     {| chainplaysTESTING.actions_q := ["b"];
        chainplaysTESTING.requests := [];
        chainplaysTESTING.screen := [Button "a" true; Tick] |}) /\
  chainplays.main_iter pyboy_running (queued []) =
    chainplays.set_screen [Tick] (queued []) /\
  chainplaysChaos.main_iter pyboy_running (chaos_queued []) =
    chainplaysChaos.set_screen [Tick] (chaos_queued []) /\
  snd (chainplaysTESTING.main_iter pyboy_running (minimal_queued [])) =
    chainplaysTESTING.set_screen [Tick] (minimal_queued []).
Proof.
  destruct (applicator_button_and_step_calls pyboy_running "a" ["b"])
    as (Hwindowed & Hchaos & Hminimal & _).
  destruct (applicator_button_and_step_calls (pyboy_closing_after 1) "a" ["b"])
    as (_ & _ & Hrelease & _).
  destruct (applicator_button_and_step_calls pyboy_closed "a" ["b"])
    as (_ & _ & _ & Hpress & _).
  destruct (applicator_button_and_step_calls pyboy_running "a" [])
    as (_ & _ & _ & _ & Hidle_windowed & Hidle_chaos & Hidle_minimal).
  split; [apply (Hwindowed (queued ["a"; "b"])); reflexivity|].
  split; [apply (Hchaos (chaos_queued ["a"; "b"])); reflexivity|].
  split; [apply (Hminimal (minimal_queued ["a"; "b"])); reflexivity|].
  split; [apply (Hrelease (minimal_queued ["a"; "b"])); reflexivity|].
  split; [apply (Hpress (minimal_queued ["a"; "b"])); reflexivity|].
  split; [apply (Hidle_windowed (queued [])); reflexivity|].
  split; [apply (Hidle_chaos (chaos_queued [])); reflexivity|].
  apply (Hidle_minimal (minimal_queued [])); reflexivity.
Defined.

(** ** Windows of votes *)

Section Windows.

Lemma first_seen_fresh (votes : list Z) :
  forall (seen : list Z) (x : Z), x ∈ first_seen seen votes -> x ∉ seen.
Proof.
  induction votes as [|v votes IH]; intros seen x; simpl.
  - intros Hx. apply elem_of_nil in Hx. contradiction.
  - destruct (decide (v ∈ seen)) as [Hin|Hnin].
    + apply IH.
    + intros [->|Hx]%elem_of_cons; [exact Hnin|].
      apply IH in Hx. intros Hseen. apply Hx. apply elem_of_app. auto.
Qed.

(** In [first_seen], an index stands before another one only if its first
    vote came before every vote for the other. *)
Lemma first_seen_order (k : Z) (votes : list Z) :
  forall (seen p s : list Z) (a : Z),
    first_seen seen votes = p ++ a :: s ->
    k ∈ s ->
    exists pre post : list Z, votes = pre ++ a :: post /\ (a ∉ pre) /\ (k ∉ pre).
Proof.
  induction votes as [|v votes IH]; intros seen p s a Heq Hk; simpl in Heq.
  - destruct p; discriminate.
  - assert (Hout : forall seen' x, x ∈ first_seen seen' votes -> v ∈ seen' -> x <> v).
    { intros seen' x Hx Hv ->. exact (first_seen_fresh _ _ _ Hx Hv). }
    destruct (decide (v ∈ seen)) as [Hin|Hnin].
    + destruct (IH seen p s a Heq Hk) as (pre & post & -> & Ha & Hkpre).
      assert (Hav : a <> v).
      { apply (Hout seen); [|exact Hin]. rewrite Heq. apply elem_of_app. right.
        apply elem_of_cons. auto. }
      assert (Hkv : k <> v).
      { apply (Hout seen); [|exact Hin]. rewrite Heq. apply elem_of_app. right.
        apply elem_of_cons. auto. }
      exists (v :: pre), post. split; [reflexivity|].
      split; intros [?|?]%elem_of_cons; congruence || contradiction.
    + destruct p as [|v' p].
      * injection Heq as -> _. exists [], votes. split; [reflexivity|].
        split; apply not_elem_of_nil.
      * injection Heq as <- Heq.
        destruct (IH (seen ++ [v]) p s a Heq Hk) as (pre & post & -> & Ha & Hkpre).
        assert (Hvin : v ∈ seen ++ [v]) by (apply elem_of_app; right; apply elem_of_cons; auto).
        assert (Hav : a <> v).
        { apply (Hout (seen ++ [v])); [|exact Hvin]. rewrite Heq. apply elem_of_app.
          right. apply elem_of_cons. auto. }
        assert (Hkv : k <> v).
        { apply (Hout (seen ++ [v])); [|exact Hvin]. rewrite Heq. apply elem_of_app.
          right. apply elem_of_cons. auto. }
        exists (v :: pre), post. split; [reflexivity|].
        split; intros [?|?]%elem_of_cons; congruence || contradiction.
Qed.

Lemma keys_incr (c : Counter.t) (k : Z) :
  (Counter.incr c k).*1 = if decide (k ∈ c.*1) then c.*1 else c.*1 ++ [k].
Proof. apply keys_set. Qed.

(** The keys of a tally after a list of votes: the old keys, then the new
    indices in the order of their first vote. *)
Lemma keys_votes (votes : list Z) :
  forall c : Counter.t,
    (foldl Counter.incr c votes).*1 = c.*1 ++ first_seen (c.*1) votes.
Proof.
  induction votes as [|v votes IH]; intros c; simpl.
  - rewrite app_nil_r. reflexivity.
  - rewrite IH, keys_incr. destruct (decide (v ∈ c.*1)); [reflexivity|].
    rewrite <- app_assoc. reflexivity.
Qed.

Lemma keys_nodup_incr (c : Counter.t) (k : Z) :
  NoDup (c.*1) -> NoDup ((Counter.incr c k).*1).
Proof.
  intros Hc. rewrite keys_incr. destruct (decide (k ∈ c.*1)) as [Hin|Hnin]; [exact Hc|].
  apply NoDup_app. split; [exact Hc|]. split.
  - intros x Hx [->|Hnil%elem_of_nil]%elem_of_cons; contradiction.
  - apply NoDup_singleton.
Qed.

Lemma keys_nodup_votes (votes : list Z) :
  forall c : Counter.t, NoDup (c.*1) -> NoDup ((foldl Counter.incr c votes).*1).
Proof.
  induction votes as [|v votes IH]; intros c Hc; simpl; [exact Hc|].
  apply IH, keys_nodup_incr, Hc.
Qed.

Lemma positive_votes (votes : list Z) :
  forall c : Counter.t,
    Forall (fun item : Z * Z => 0 < snd item) c ->
    Forall (fun item : Z * Z => 0 < snd item) (foldl Counter.incr c votes).
Proof.
  induction votes as [|v votes IH]; intros c Hc; simpl; [exact Hc|].
  apply IH, incr_positive, Hc.
Qed.

(** With distinct keys, the count of a key is the count of its item. *)
Lemma get_of_item (c : Counter.t) (k n : Z) :
  NoDup (c.*1) -> (k, n) ∈ c -> Counter.get c k = n.
Proof.
  induction c as [|[k' n'] c IH]; intros Hnd Hin.
  - apply elem_of_nil in Hin. contradiction.
  - apply NoDup_cons in Hnd as [Hk' Hnd]. simpl.
    apply elem_of_cons in Hin as [[= <- <-]|Hin].
    + rewrite Z.eqb_refl. reflexivity.
    + destruct (Z.eqb_spec k' k) as [->|Hne]; [|apply IH; assumption].
      exfalso. apply Hk'. apply (list_elem_of_fmap_2 fst) in Hin. exact Hin.
Qed.

Lemma item_of_get (c : Counter.t) (k : Z) :
  Counter.get c k <> 0 -> (k, Counter.get c k) ∈ c.
Proof.
  induction c as [|[k' n'] c IH]; simpl; [congruence|].
  destruct (Z.eqb_spec k' k) as [->|Hne]; intros Hget.
  - apply elem_of_cons. auto.
  - apply elem_of_cons. right. apply IH. exact Hget.
Qed.

Lemma votes_for_nonneg (k : Z) (votes : list Z) : 0 <= votes_for k votes.
Proof. unfold votes_for. lia. Qed.

Lemma get_window (votes : list Z) (k : Z) :
  Counter.get (foldl Counter.incr [] votes) k = votes_for k votes.
Proof. rewrite get_votes. reflexivity. Qed.

(** The item that [most_common(1)] picks from a window of votes. *)
Lemma most_common_1_window (votes : list Z) :
  votes <> [] ->
  exists cmd_idx : Z,
    Counter.most_common_1 (foldl Counter.incr [] votes) =
      [(cmd_idx, votes_for cmd_idx votes)] /\
    0 < votes_for cmd_idx votes /\
    (forall k : Z, votes_for k votes <= votes_for cmd_idx votes) /\
    (forall k : Z,
        k <> cmd_idx ->
        votes_for k votes = votes_for cmd_idx votes ->
        exists pre post : list Z,
          votes = pre ++ cmd_idx :: post /\ (cmd_idx ∉ pre) /\ (k ∉ pre)).
Proof.
  intros Hvotes. set (c := foldl Counter.incr [] votes).
  assert (Hnd : NoDup (c.*1)) by (apply keys_nodup_votes; constructor).
  assert (Hpos : Forall (fun item : Z * Z => 0 < snd item) c)
    by (apply positive_votes; constructor).
  assert (Hne : c <> []).
  { destruct votes as [|v votes]; [congruence|]. intros Hc.
    pose proof (get_window (v :: votes) v) as Hget. fold c in Hget. rewrite Hc in Hget.
    unfold votes_for in Hget. rewrite filter_cons, decide_True in Hget by reflexivity.
    simpl in Hget. lia. }
  destruct (most_common_1_first_max c Hne)
    as (pre & post & [cmd_idx n] & Hmc & Hsplit & Hlt & Hle).
  simpl in Hlt, Hle.
  assert (Hwin : (cmd_idx, n) ∈ c).
  { rewrite Hsplit. apply elem_of_app. right. apply elem_of_cons. auto. }
  assert (Hn : n = votes_for cmd_idx votes).
  { rewrite <- get_window. fold c. symmetry. apply get_of_item; assumption. }
  assert (Hnpos : 0 < n).
  { rewrite Forall_forall in Hpos. apply (Hpos _ Hwin). }
  assert (Hitem : forall k, votes_for k votes <> 0 -> (k, votes_for k votes) ∈ c).
  { intros k Hk. rewrite <- get_window in *. fold c in Hk |- *. apply item_of_get, Hk. }
  exists cmd_idx. subst n. split; [exact Hmc|]. split; [exact Hnpos|]. split.
  - intros k. destruct (decide (votes_for k votes = 0)) as [->|Hk]; [lia|].
    pose proof (Hitem k Hk) as Hin. rewrite Hsplit in Hin.
    apply elem_of_app in Hin as [Hin|Hin].
    + rewrite Forall_forall in Hlt. apply Hlt in Hin. simpl in Hin. lia.
    + apply elem_of_cons in Hin as [[= _ ->]|Hin]; [lia|].
      rewrite Forall_forall in Hle. apply Hle in Hin. exact Hin.
  - intros k Hkne Htie.
    assert (Hin : (k, votes_for k votes) ∈ c) by (apply Hitem; lia).
    rewrite Hsplit in Hin. apply elem_of_app in Hin as [Hin|Hin].
    { rewrite Forall_forall in Hlt. apply Hlt in Hin. simpl in Hin. lia. }
    apply elem_of_cons in Hin as [[= -> _]|Hin]; [congruence|].
    apply (list_elem_of_fmap_2 fst) in Hin. simpl in Hin.
    pose proof (keys_votes votes []) as Hkeys. fold c in Hkeys. simpl in Hkeys.
    rewrite Hsplit, fmap_app, fmap_cons in Hkeys. simpl in Hkeys.
    symmetry in Hkeys. exact (first_seen_order k votes [] _ _ _ Hkeys Hin).
Qed.

End Windows.

Section WindowedWorkers.
Context `{Codec}.

Lemma most_common_1_nil (c : Counter.t) : Counter.most_common_1 c = [] -> c = [].
Proof. destruct c; [reflexivity|discriminate]. Qed.

Lemma vote_aggregator_iter_eq (w : chainplays.world) :
  chainplays.vote_aggregator_iter w =
  match Counter.most_common_1 (chainplays.tally w) with
  | (cmd_idx, _) :: _ => chainplays.vote_aggregator_put cmd_idx (chainplays.set_tally [] w)
  | [] => w
  end.
Proof.
  unfold chainplays.vote_aggregator_iter, chainplays.vote_aggregator_locked.
  destruct (chainplays.tally w) as [|x c]; [reflexivity|].
  cbn [Counter.is_empty Counter.most_common_1]. destruct (Counter.max_item x c).
  reflexivity.
Qed.

(** What one iteration of the aggregator does to a world whose tally holds
    the votes of one window. *)
Lemma vote_aggregator_iter_window (votes : list Z) (w : chainplays.world) :
  chainplays.tally w = [] ->
  chainplays.vote_aggregator_iter
    (chainplays.set_tally (foldl Counter.incr (chainplays.tally w) votes) w) =
  chainplays.set_actions_q
    (chainplays.actions_q w ++ match winner_button votes with
                               | Some btn => [btn]
                               | None => []
                               end) w.
Proof.
  intros Hempty. rewrite vote_aggregator_iter_eq, Hempty. unfold winner_button.
  cbn [chainplays.tally chainplays.set_tally].
  destruct (Counter.most_common_1 (foldl Counter.incr [] votes))
    as [|[cmd_idx n] rest] eqn:Hmc.
  - apply most_common_1_nil in Hmc. rewrite Hmc, app_nil_r.
    destruct w; simpl in *; subst; reflexivity.
  - destruct (chainplays.CMD_INDEX_TO_BUTTON !! cmd_idx) as [btn|] eqn:Hbtn.
    + rewrite (vote_aggregator_put_mapped _ _ _ Hbtn).
      destruct w; simpl in *; subst; reflexivity.
    + rewrite (vote_aggregator_put_unmapped _ _ Hbtn), app_nil_r.
      destruct w; simpl in *; subst; reflexivity.
Qed.

Lemma for_each_frame (logs : list Log) :
  forall w : chainplays.world,
    chainplays.actions_q (fst (for_each logs chainplays.chain_listener_log w)) =
      chainplays.actions_q w /\
    chainplays.screen (fst (for_each logs chainplays.chain_listener_log w)) =
      chainplays.screen w.
Proof.
  induction logs as [|log logs IH]; intros w.
  - split; reflexivity.
  - rewrite for_each_cons, chain_listener_log_eq.
    destruct (get_event_data log); [|split; reflexivity].
    destruct (IH (chainplays.set_tally (Counter.incr (chainplays.tally w) (cmd a)) w))
      as [-> ->]. split; reflexivity.
Qed.

Lemma chain_listener_iter_frame (n : node) (last_block : Z) (w : chainplays.world) :
  chainplays.actions_q (fst (chainplays.chain_listener_iter n last_block w)) =
    chainplays.actions_q w /\
  chainplays.screen (fst (chainplays.chain_listener_iter n last_block w)) =
    chainplays.screen w.
Proof.
  rewrite chain_listener_iter_eq, chain_listener_try_eq.
  destruct (block_number n) as [latest|e]; [|split; reflexivity].
  destruct (Z.geb latest last_block); [|split; reflexivity].
  cbv zeta. destruct (get_logs n _) as [logs|e]; [|split; reflexivity].
  match goal with
  | |- context [for_each logs ?b ?w1] =>
      pose proof (for_each_frame logs w1) as Hframe;
      destruct (for_each logs b w1) as [w2 [[]|e]]
  end; exact Hframe.
Qed.

(** A successful cycle, seen from the outside. *)
Lemma chain_listener_iter_success
      (n : node) (last_block latest : Z) (logs : list Log) (decoded : list MoveArgs)
      (w : chainplays.world) :
  block_number n = Ok latest ->
  last_block <= latest ->
  get_logs n {| fromBlock := last_block; toBlock := latest |} = Ok logs ->
  Forall2 (fun log evt => get_event_data log = Ok evt) logs decoded ->
  chainplays.chain_listener_iter n last_block w =
  ({| chainplays.tally := foldl Counter.incr (chainplays.tally w) (cmd <$> decoded);
      chainplays.actions_q := chainplays.actions_q w;
      chainplays.requests :=
        chainplays.requests w ++ [{| fromBlock := last_block; toBlock := latest |}];
      chainplays.screen := chainplays.screen w |}, Ok (latest + 1)).
Proof.
  intros Hhead Hle Hlogs Hdec.
  rewrite chain_listener_iter_eq, chain_listener_try_eq, Hhead.
  destruct (Z.geb_spec latest last_block) as [_|Hlt]; [|lia].
  cbv zeta. rewrite Hlogs, (for_each_decoded _ _ Hdec). reflexivity.
Qed.

End WindowedWorkers.

(** X1. The winner of a window, in terms of the votes cast: after the votes
    of a non-empty window have been tallied into an empty tally, the
    aggregator picks an index that has at least as many votes as any other;
    an index with as many votes loses only if the first vote for the winner
    came before every vote for it; and the queue grows by the winner's
    button, or by nothing when the winner has none. *)
Theorem vote_aggregator_window_winner (votes : list Z) (w : chainplays.world) :
  votes <> [] ->
  chainplays.tally w = [] ->
  exists cmd_idx : Z,
    0 < votes_for cmd_idx votes /\
    (forall k : Z, votes_for k votes <= votes_for cmd_idx votes) /\
    (forall k : Z,
        k <> cmd_idx ->
        votes_for k votes = votes_for cmd_idx votes ->
        exists pre post : list Z,
          votes = pre ++ cmd_idx :: post /\ (cmd_idx ∉ pre) /\ (k ∉ pre)) /\
    chainplays.vote_aggregator_iter
      (chainplays.set_tally (foldl Counter.incr (chainplays.tally w) votes) w) =
    chainplays.set_actions_q
      (chainplays.actions_q w ++ match chainplays.CMD_INDEX_TO_BUTTON !! cmd_idx with
                                 | Some btn => [btn]
                                 | None => []
                                 end) w.
Proof.
  intros Hvotes Hempty.
  destruct (most_common_1_window votes Hvotes) as (cmd_idx & Hmc & Hpos & Hmax & Htie).
  exists cmd_idx. split; [exact Hpos|]. split; [exact Hmax|]. split; [exact Htie|].
  rewrite (vote_aggregator_iter_window votes w Hempty). unfold winner_button.
  rewrite Hmc. reflexivity.
Qed.

Lemma vote_aggregator_window_winner_witness :
  exists cmd_idx : Z,
    0 < votes_for cmd_idx [5; 2; 5; 2; 7] /\
    (forall k : Z, votes_for k [5; 2; 5; 2; 7] <= votes_for cmd_idx [5; 2; 5; 2; 7]) /\
    (forall k : Z,
        k <> cmd_idx ->
        votes_for k [5; 2; 5; 2; 7] = votes_for cmd_idx [5; 2; 5; 2; 7] ->
        exists pre post : list Z,
          [5; 2; 5; 2; 7] = pre ++ cmd_idx :: post /\ (cmd_idx ∉ pre) /\ (k ∉ pre)) /\
    chainplays.vote_aggregator_iter
      (chainplays.set_tally
         (foldl Counter.incr (chainplays.tally (queued ["a"])) [5; 2; 5; 2; 7])
         (queued ["a"])) =
    chainplays.set_actions_q
      (chainplays.actions_q (queued ["a"]) ++
       match chainplays.CMD_INDEX_TO_BUTTON !! cmd_idx with
       | Some btn => [btn]
       | None => []
       end) (queued ["a"]).
Proof.
  apply (vote_aggregator_window_winner [5; 2; 5; 2; 7] (queued ["a"])).
  - discriminate.
  - reflexivity.
Defined.

(** X2. Over successive windows the aggregator decides each window on the
    votes of that window alone: the tally is empty again after every
    iteration, nothing but the queue has changed, and the queue has grown
    by the buttons of the winners of the windows, in the order of the
    windows; empty windows and winners without a button add nothing. *)
Theorem aggregate_windows_independent (windows : list (list Z)) (w : chainplays.world) :
  chainplays.tally w = [] ->
  aggregate_windows windows w =
  chainplays.set_actions_q (chainplays.actions_q w ++ omap winner_button windows) w.
Proof.
  revert w. induction windows as [|votes windows IH]; intros w Hempty.
  - simpl. rewrite app_nil_r. destruct w; reflexivity.
  - change (aggregate_windows (votes :: windows) w)
      with (aggregate_windows windows
              (chainplays.vote_aggregator_iter
                 (chainplays.set_tally
                    (foldl Counter.incr (chainplays.tally w) votes) w))).
    rewrite (vote_aggregator_iter_window votes w Hempty).
    rewrite IH by exact Hempty. cbn [omap list_omap].
    destruct (winner_button votes) as [btn|]; cbn.
    + unfold chainplays.set_actions_q. cbn. rewrite <- app_assoc. reflexivity.
    + unfold chainplays.set_actions_q. cbn. rewrite app_nil_r. reflexivity.
Qed.

Lemma aggregate_windows_independent_witness :
  aggregate_windows [[2; 2; 5]; []; [9; 9; 0]; [1; 0; 0; 1]] (queued ["a"]) =
  queued ["a"; "left"; "down"].
Proof.
  apply (aggregate_windows_independent [[2; 2; 5]; []; [9; 9; 0]; [1; 0; 0; 1]]
           (queued ["a"])).
  reflexivity.
Defined.

(** X3. A cycle of the windowed listener that fetches a batch in which
    every log decodes counts every vote once: for each index the tally has
    grown by the number of logs of the batch that vote for it, the filter
    sent is [cursor, head], the cursor becomes head + 1, and neither the
    queue nor the emulator is touched. *)
Theorem chain_listener_counts_every_vote `{Codec}
        (n : node) (last_block latest : Z) (logs : list Log) (decoded : list MoveArgs)
        (w : chainplays.world) :
  block_number n = Ok latest ->
  last_block <= latest ->
  get_logs n {| fromBlock := last_block; toBlock := latest |} = Ok logs ->
  Forall2 (fun log evt => get_event_data log = Ok evt) logs decoded ->
  snd (chainplays.chain_listener_iter n last_block w) = Ok (latest + 1) /\
  (forall k : Z,
      Counter.get (chainplays.tally (fst (chainplays.chain_listener_iter n last_block w))) k =
      Counter.get (chainplays.tally w) k + votes_for k (cmd <$> decoded)) /\
  chainplays.requests (fst (chainplays.chain_listener_iter n last_block w)) =
    chainplays.requests w ++ [{| fromBlock := last_block; toBlock := latest |}] /\
  chainplays.actions_q (fst (chainplays.chain_listener_iter n last_block w)) =
    chainplays.actions_q w /\
  chainplays.screen (fst (chainplays.chain_listener_iter n last_block w)) =
    chainplays.screen w.
Proof.
  intros Hhead Hle Hlogs Hdec.
  rewrite (chain_listener_iter_success n last_block latest logs decoded w Hhead Hle Hlogs Hdec).
  cbn [fst snd chainplays.tally chainplays.requests chainplays.actions_q chainplays.screen].
  split; [reflexivity|]. split; [|auto].
  intros k. rewrite get_votes. reflexivity.
Qed.

Lemma chain_listener_counts_every_vote_witness :
  snd (chainplays.chain_listener_iter
         (node_with 15 [vote_log 2; vote_log 9; vote_log 2]) 10 (window [2; 5])) = Ok (15 + 1) /\
  (forall k : Z,
      Counter.get
        (chainplays.tally
           (fst (chainplays.chain_listener_iter
                   (node_with 15 [vote_log 2; vote_log 9; vote_log 2]) 10 (window [2; 5])))) k =
      Counter.get (chainplays.tally (window [2; 5])) k
      + votes_for k (cmd <$> [ {| sender := "0xA11CE"; cmd := 2; weight := 1; memo := "" |};
                               {| sender := "0xA11CE"; cmd := 9; weight := 1; memo := "" |};
                               {| sender := "0xA11CE"; cmd := 2; weight := 1; memo := "" |} ])) /\
  chainplays.requests
    (fst (chainplays.chain_listener_iter
            (node_with 15 [vote_log 2; vote_log 9; vote_log 2]) 10 (window [2; 5]))) =
    chainplays.requests (window [2; 5]) ++ [{| fromBlock := 10; toBlock := 15 |}] /\
  chainplays.actions_q
    (fst (chainplays.chain_listener_iter
            (node_with 15 [vote_log 2; vote_log 9; vote_log 2]) 10 (window [2; 5]))) =
    chainplays.actions_q (window [2; 5]) /\
  chainplays.screen
    (fst (chainplays.chain_listener_iter
            (node_with 15 [vote_log 2; vote_log 9; vote_log 2]) 10 (window [2; 5]))) =
    chainplays.screen (window [2; 5]).
Proof.
  apply (@chain_listener_counts_every_vote scripted_codec
           (node_with 15 [vote_log 2; vote_log 9; vote_log 2]) 10 15
           [vote_log 2; vote_log 9; vote_log 2]
           [ {| sender := "0xA11CE"; cmd := 2; weight := 1; memo := "" |};
             {| sender := "0xA11CE"; cmd := 9; weight := 1; memo := "" |};
             {| sender := "0xA11CE"; cmd := 2; weight := 1; memo := "" |} ]
           (window [2; 5])).
  - reflexivity.
  - lia.
  - reflexivity.
  - repeat constructor.
Defined.

Section WindowedCoverage.
Context `{Codec}.

Local Abbreviation decodable := (fun log : Log => exists evt : MoveArgs, get_event_data log = Ok evt).

Lemma for_each_ok_decodable (logs : list Log) :
  forall w : chainplays.world,
    snd (for_each logs chainplays.chain_listener_log w) = Ok tt ->
    Forall decodable logs.
Proof.
  induction logs as [|log logs IH]; intros w Hok.
  - constructor.
  - rewrite for_each_cons, chain_listener_log_eq in Hok.
    destruct (get_event_data log) as [evt|e] eqn:Hlog; [|discriminate].
    constructor; [exists evt; exact Hlog|]. exact (IH _ Hok).
Qed.

(** A cycle moves the cursor only past a range that it fetched and whose
    logs it decoded, all of them. *)
Lemma chain_listener_iter_advance
      (n : node) (last_block cursor : Z) (w : chainplays.world) :
  snd (chainplays.chain_listener_iter n last_block w) = Ok cursor ->
  cursor = last_block \/
  exists (latest : Z) (logs : list Log),
    block_number n = Ok latest /\ last_block <= latest /\ cursor = latest + 1 /\
    get_logs n {| fromBlock := last_block; toBlock := latest |} = Ok logs /\
    Forall decodable logs.
Proof.
  rewrite chain_listener_iter_eq, chain_listener_try_eq.
  destruct (block_number n) as [latest|e]; [|intros [= <-]; auto].
  destruct (Z.geb_spec latest last_block) as [Hge|Hlt]; [|intros [= <-]; auto].
  cbv zeta. destruct (get_logs n _) as [logs|e] eqn:Hlogs; [|intros [= <-]; auto].
  match goal with
  | |- context [for_each logs ?b ?w1] =>
      pose proof (for_each_ok_decodable logs w1) as Hdec;
      destruct (for_each logs b w1) as [w2 [[]|e]]
  end; intros [= <-].
  - right. exists latest, logs. repeat split; try lia; auto.
  - auto.
Qed.

End WindowedCoverage.

(** X4. The windowed listener never skips a block: over any run of
    cycles, every block between the cursor at the start and the cursor at
    the end lies in the range [from, head] of a cycle of the run whose
    [get_logs] succeeded and whose logs all decoded. *)
Theorem chain_listener_no_block_skipped `{Codec}
        (ns : list node) (last_block final : Z) (w : chainplays.world) (b : Z) :
  snd (chainplays.chain_listener_loop ns last_block w) = Ok final ->
  last_block <= b < final ->
  exists (n : node) (from latest : Z) (logs : list Log),
    n ∈ ns /\
    block_number n = Ok latest /\
    from <= b <= latest /\
    get_logs n {| fromBlock := from; toBlock := latest |} = Ok logs /\
    Forall (fun log => exists evt : MoveArgs, get_event_data log = Ok evt) logs.
Proof.
  revert last_block w. induction ns as [|n ns IH]; intros last_block w Hrun Hb.
  - simpl in Hrun. injection Hrun as <-. lia.
  - cbn [chainplays.chain_listener_loop] in Hrun. unfold bind in Hrun.
    destruct (chain_listener_iter_cursor n last_block w) as (c1 & Hc1 & _).
    pose proof (chain_listener_iter_advance n last_block c1 w Hc1) as Hadv.
    destruct (chainplays.chain_listener_iter n last_block w) as [w1 r1].
    simpl in Hc1. subst r1.
    assert (Hlater : c1 <= b ->
      exists (n0 : node) (from latest : Z) (logs : list Log),
        n0 ∈ n :: ns /\ block_number n0 = Ok latest /\ from <= b <= latest /\
        get_logs n0 {| fromBlock := from; toBlock := latest |} = Ok logs /\
        Forall (fun log => exists evt : MoveArgs, get_event_data log = Ok evt) logs).
    { intros Hc1b. destruct (IH c1 w1 Hrun) as (n0 & from & latest & logs & Hin & Hrest);
        [lia|].
      exists n0, from, latest, logs. split; [|exact Hrest]. apply elem_of_cons. auto. }
    destruct Hadv as [->|(latest & logs & Hhead & Hle & -> & Hlogs & Hdec)].
    + apply Hlater. lia.
    + destruct (Z.le_gt_cases (latest + 1) b) as [Hpast|Hin]; [apply Hlater; exact Hpast|].
      exists n, last_block, latest, logs. split; [apply elem_of_cons; auto|].
      repeat split; auto; lia.
Qed.

Lemma chain_listener_no_block_skipped_witness :
  exists (n : @node scripted_codec) (from latest : Z) (logs : list (@Log scripted_codec)),
    n ∈ [node_down 12; node_with 15 [vote_log 2]; node_with 20 []] /\
    block_number n = Ok latest /\
    from <= 13 <= latest /\
    get_logs n {| fromBlock := from; toBlock := latest |} = Ok logs /\
    Forall (fun log => exists evt : MoveArgs, @get_event_data scripted_codec log = Ok evt) logs.
Proof.
  apply (@chain_listener_no_block_skipped scripted_codec
           [node_down 12; node_with 15 [vote_log 2]; node_with 20 []] 10 21 (queued []) 13).
  - reflexivity.
  - lia.
Defined.

(** X5. A range that was fetched and processed is not fetched again: when
    a cycle of the windowed listener has succeeded at some head, a next
    cycle that sees the same head, or a head behind it, or whose
    [block_number] call raises, sends no filter and changes nothing, the
    cursor included; the two cycles together do what the first did. *)
Theorem chain_listener_no_refetch `{Codec}
        (n n' : node) (last_block latest : Z) (logs : list Log) (decoded : list MoveArgs)
        (w : chainplays.world) :
  block_number n = Ok latest ->
  last_block <= latest ->
  get_logs n {| fromBlock := last_block; toBlock := latest |} = Ok logs ->
  Forall2 (fun log evt => get_event_data log = Ok evt) logs decoded ->
  (exists latest' : Z, block_number n' = Ok latest' /\ latest' <= latest) \/
  (exists e : exn, block_number n' = Raise e) ->
  chainplays.chain_listener_loop [n; n'] last_block w =
  chainplays.chain_listener_iter n last_block w.
Proof.
  intros Hhead Hle Hlogs Hdec Hidle.
  cbn [chainplays.chain_listener_loop]. unfold bind, ret.
  rewrite (chain_listener_iter_success n last_block latest logs decoded w Hhead Hle Hlogs Hdec).
  rewrite chain_listener_iter_eq, chain_listener_try_eq.
  destruct Hidle as [(latest' & -> & Hbehind)|(e & ->)]; [|reflexivity].
  destruct (Z.geb_spec latest' (latest + 1)) as [Hge|_]; [lia|reflexivity].
Qed.

Lemma chain_listener_no_refetch_witness :
  chainplays.chain_listener_loop
    [node_with 15 [vote_log 2]; node_with 15 [vote_log 2]] 10 (queued []) =
  chainplays.chain_listener_iter (node_with 15 [vote_log 2]) 10 (queued []).
Proof.
  apply (@chain_listener_no_refetch scripted_codec
           (node_with 15 [vote_log 2]) (node_with 15 [vote_log 2]) 10 15
           [vote_log 2]
           [{| sender := "0xA11CE"; cmd := 2; weight := 1; memo := "" |}] (queued [])).
  - reflexivity.
  - lia.
  - reflexivity.
  - repeat constructor.
  - left. exists 15. split; [reflexivity|lia].
Defined.

(** ** The cursor of the chaos and the minimal poller *)

Section ChaosPoller.
Context `{Codec}.

Lemma chaos_chain_listener_try_eq (n : node) (last_block : Z) (w : chainplaysChaos.world) :
  chainplaysChaos.chain_listener_try n last_block w =
  match block_number n with
  | Raise e => (w, Raise e)
  | Ok latest =>
      if Z.geb latest last_block then
        let f := {| fromBlock := last_block; toBlock := latest |} in
        let w1 := chainplaysChaos.set_requests (chainplaysChaos.requests w ++ [f]) w in
        match get_logs n f with
        | Raise e => (w1, Raise e)
        | Ok logs =>
            match for_each logs chainplaysChaos.chain_listener_log w1 with
            | (w2, Ok _) => (w2, Ok (latest + 1))
            | (w2, Raise e) => (w2, Raise e)
            end
        end
      else (w, Ok last_block)
  end.
Proof.
  unfold chainplaysChaos.chain_listener_try, chainplaysChaos.eth_block_number,
    chainplaysChaos.eth_get_logs, bind, lift, modify, ret.
  destruct (block_number n) as [latest|e]; [|reflexivity].
  destruct (Z.geb latest last_block); [|reflexivity].
  cbv zeta. destruct (get_logs n _) as [logs|e]; [|reflexivity].
  destruct (for_each logs _ _) as [w2 [[]|e]]; reflexivity.
Qed.

Lemma chaos_chain_listener_iter_eq (n : node) (last_block : Z) (w : chainplaysChaos.world) :
  chainplaysChaos.chain_listener_iter n last_block w =
  match chainplaysChaos.chain_listener_try n last_block w with
  | (w', Ok cursor) => (w', Ok cursor)
  | (w', Raise _) => (w', Ok last_block)
  end.
Proof.
  unfold chainplaysChaos.chain_listener_iter, try_except, ret.
  destruct (chainplaysChaos.chain_listener_try n last_block w) as [w' [c|e]]; reflexivity.
Qed.

Lemma chaos_chain_listener_iter_cursor (n : node) (last_block : Z) (w : chainplaysChaos.world) :
  exists cursor : Z,
    snd (chainplaysChaos.chain_listener_iter n last_block w) = Ok cursor /\
    (cursor = last_block \/
     exists latest : Z,
       block_number n = Ok latest /\ last_block <= latest /\ cursor = latest + 1).
Proof.
  rewrite chaos_chain_listener_iter_eq, chaos_chain_listener_try_eq.
  destruct (block_number n) as [latest|e]; [|eauto].
  destruct (Z.geb_spec latest last_block) as [Hge|Hlt]; [|eauto].
  cbv zeta. destruct (get_logs n _) as [logs|e]; [|eauto].
  destruct (for_each logs _ _) as [w2 [[]|e]]; [|eauto].
  exists (latest + 1). split; [reflexivity|]. right. exists latest.
  split; [reflexivity|]. split; [lia|reflexivity].
Qed.

Lemma chaos_chain_listener_loop_monotone (ns : list node) :
  forall (last_block : Z) (w : chainplaysChaos.world),
  exists cursor : Z,
    snd (chainplaysChaos.chain_listener_loop ns last_block w) = Ok cursor /\
    last_block <= cursor.
Proof.
  induction ns as [|n ns IH]; intros last_block w; simpl.
  - exists last_block. split; [reflexivity|lia].
  - unfold bind.
    destruct (chaos_chain_listener_iter_cursor n last_block w) as (c1 & Hc1 & Hmono).
    destruct (chainplaysChaos.chain_listener_iter n last_block w) as [w1 r1].
    simpl in Hc1. subst r1.
    destruct (IH c1 w1) as (c2 & Hc2 & Hle).
    exists c2. split; [exact Hc2|].
    destruct Hmono as [->|(latest & _ & Hge & ->)]; lia.
Qed.


(** A cycle whose batch holds a log that does not decode: the buttons of
    the votes before it are queued, the filter is recorded, and the cursor
    stays. *)
Lemma chaos_chain_listener_iter_undecodable
      (n : node) (last_block latest : Z) (pre post : list Log) (bad : Log)
      (decoded : list MoveArgs) (e : exn) (w : chainplaysChaos.world) :
  block_number n = Ok latest ->
  last_block <= latest ->
  get_logs n {| fromBlock := last_block; toBlock := latest |} = Ok (pre ++ bad :: post) ->
  Forall2 (fun log evt => get_event_data log = Ok evt) pre decoded ->
  get_event_data bad = Raise e ->
  chainplaysChaos.chain_listener_iter n last_block w =
  ({| chainplaysChaos.actions_q :=
        chainplaysChaos.actions_q w ++
        omap (fun evt => chainplaysChaos.CMD_INDEX_TO_BUTTON !! cmd evt) decoded;
      chainplaysChaos.requests :=
        chainplaysChaos.requests w ++ [{| fromBlock := last_block; toBlock := latest |}];
      chainplaysChaos.screen := chainplaysChaos.screen w |}, Ok last_block).
Proof.
  intros Hhead Hle Hlogs Hpre Hbad.
  rewrite chaos_chain_listener_iter_eq, chaos_chain_listener_try_eq, Hhead.
  destruct (Z.geb_spec latest last_block) as [_|Hlt]; [|lia].
  cbv zeta. rewrite Hlogs.
  rewrite (chaos_for_each_undecodable pre post bad decoded e _ Hpre Hbad).
  reflexivity.
Qed.

End ChaosPoller.

Section MinimalPoller.
Context `{Codec}.

Lemma minimal_chain_listener_try_eq (n : node) (last_block : Z) (w : chainplaysTESTING.world) :
  chainplaysTESTING.chain_listener_try n last_block w =
  match block_number n with
  | Raise e => (w, Raise e)
  | Ok latest =>
      if Z.geb latest last_block then
        let f := {| fromBlock := last_block; toBlock := latest |} in
        let w1 := chainplaysTESTING.set_requests (chainplaysTESTING.requests w ++ [f]) w in
        match get_logs n f with
        | Raise e => (w1, Raise e)
        | Ok logs =>
            match for_each logs chainplaysTESTING.chain_listener_log w1 with
            | (w2, Ok _) => (w2, Ok (latest + 1))
            | (w2, Raise e) => (w2, Raise e)
            end
        end
      else (w, Ok last_block)
  end.
Proof.
  unfold chainplaysTESTING.chain_listener_try, chainplaysTESTING.eth_block_number,
    chainplaysTESTING.eth_get_logs, bind, lift, modify, ret.
  destruct (block_number n) as [latest|e]; [|reflexivity].
  destruct (Z.geb latest last_block); [|reflexivity].
  cbv zeta. destruct (get_logs n _) as [logs|e]; [|reflexivity].
  destruct (for_each logs _ _) as [w2 [[]|e]]; reflexivity.
Qed.

Lemma minimal_chain_listener_iter_eq (n : node) (last_block : Z) (w : chainplaysTESTING.world) :
  chainplaysTESTING.chain_listener_iter n last_block w =
  match chainplaysTESTING.chain_listener_try n last_block w with
  | (w', Ok cursor) => (w', Ok cursor)
  | (w', Raise _) => (w', Ok last_block)
  end.
Proof.
  unfold chainplaysTESTING.chain_listener_iter, try_except, ret.
  destruct (chainplaysTESTING.chain_listener_try n last_block w) as [w' [c|e]]; reflexivity.
Qed.

Lemma minimal_chain_listener_iter_cursor (n : node) (last_block : Z) (w : chainplaysTESTING.world) :
  exists cursor : Z,
    snd (chainplaysTESTING.chain_listener_iter n last_block w) = Ok cursor /\
    (cursor = last_block \/
     exists latest : Z,
       block_number n = Ok latest /\ last_block <= latest /\ cursor = latest + 1).
Proof.
  rewrite minimal_chain_listener_iter_eq, minimal_chain_listener_try_eq.
  destruct (block_number n) as [latest|e]; [|eauto].
  destruct (Z.geb_spec latest last_block) as [Hge|Hlt]; [|eauto].
  cbv zeta. destruct (get_logs n _) as [logs|e]; [|eauto].
  destruct (for_each logs _ _) as [w2 [[]|e]]; [|eauto].
  exists (latest + 1). split; [reflexivity|]. right. exists latest.
  split; [reflexivity|]. split; [lia|reflexivity].
Qed.

Lemma minimal_chain_listener_loop_monotone (ns : list node) :
  forall (last_block : Z) (w : chainplaysTESTING.world),
  exists cursor : Z,
    snd (chainplaysTESTING.chain_listener_loop ns last_block w) = Ok cursor /\
    last_block <= cursor.
Proof.
  induction ns as [|n ns IH]; intros last_block w; simpl.
  - exists last_block. split; [reflexivity|lia].
  - unfold bind.
    destruct (minimal_chain_listener_iter_cursor n last_block w) as (c1 & Hc1 & Hmono).
    destruct (chainplaysTESTING.chain_listener_iter n last_block w) as [w1 r1].
    simpl in Hc1. subst r1.
    destruct (IH c1 w1) as (c2 & Hc2 & Hle).
    exists c2. split; [exact Hc2|].
    destruct Hmono as [->|(latest & _ & Hge & ->)]; lia.
Qed.

Lemma minimal_set_actions_q_same (w : chainplaysTESTING.world) :
  chainplaysTESTING.set_actions_q (chainplaysTESTING.actions_q w) w = w.
Proof. destruct w; reflexivity. Qed.

Lemma minimal_for_each_decoded (logs : list Log) (decoded : list MoveArgs) :
  Forall2 (fun log evt => get_event_data log = Ok evt) logs decoded ->
  forall w : chainplaysTESTING.world,
    for_each logs chainplaysTESTING.chain_listener_log w =
    (chainplaysTESTING.set_actions_q
       (chainplaysTESTING.actions_q w ++
        omap (fun evt => chainplaysTESTING.CMD_INDEX_TO_BUTTON !! cmd evt) decoded) w,
     Ok tt).
Proof.
  induction 1 as [|log evt logs decoded Hlog _ IH]; intros w.
  - simpl. unfold ret. rewrite app_nil_r, minimal_set_actions_q_same. reflexivity.
  - rewrite for_each_cons, minimal_chain_listener_log_eq, Hlog. cbn [omap list_omap].
    destruct (chainplaysTESTING.CMD_INDEX_TO_BUTTON !! cmd evt) as [btn|].
    + rewrite IH. unfold chainplaysTESTING.put, chainplaysTESTING.set_actions_q.
      cbn. rewrite <- app_assoc. reflexivity.
    + apply IH.
Qed.

Lemma minimal_for_each_undecodable
      (pre post : list Log) (bad : Log) (decoded : list MoveArgs) (e : exn)
      (w : chainplaysTESTING.world) :
  Forall2 (fun log evt => get_event_data log = Ok evt) pre decoded ->
  get_event_data bad = Raise e ->
  for_each (pre ++ bad :: post) chainplaysTESTING.chain_listener_log w =
  (chainplaysTESTING.set_actions_q
     (chainplaysTESTING.actions_q w ++
      omap (fun evt => chainplaysTESTING.CMD_INDEX_TO_BUTTON !! cmd evt) decoded) w,
   Raise e).
Proof.
  intros Hpre Hbad.
  rewrite for_each_app, (minimal_for_each_decoded _ _ Hpre), for_each_cons.
  rewrite minimal_chain_listener_log_eq, Hbad. reflexivity.
Qed.

(** A cycle whose batch holds a log that does not decode: the buttons of
    the votes before it are queued, the filter is recorded, and the cursor
    stays. *)
Lemma minimal_chain_listener_iter_undecodable
      (n : node) (last_block latest : Z) (pre post : list Log) (bad : Log)
      (decoded : list MoveArgs) (e : exn) (w : chainplaysTESTING.world) :
  block_number n = Ok latest ->
  last_block <= latest ->
  get_logs n {| fromBlock := last_block; toBlock := latest |} = Ok (pre ++ bad :: post) ->
  Forall2 (fun log evt => get_event_data log = Ok evt) pre decoded ->
  get_event_data bad = Raise e ->
  chainplaysTESTING.chain_listener_iter n last_block w =
  ({| chainplaysTESTING.actions_q :=
        chainplaysTESTING.actions_q w ++
        omap (fun evt => chainplaysTESTING.CMD_INDEX_TO_BUTTON !! cmd evt) decoded;
      chainplaysTESTING.requests :=
        chainplaysTESTING.requests w ++ [{| fromBlock := last_block; toBlock := latest |}];
      chainplaysTESTING.screen := chainplaysTESTING.screen w |}, Ok last_block).
Proof.
  intros Hhead Hle Hlogs Hpre Hbad.
  rewrite minimal_chain_listener_iter_eq, minimal_chain_listener_try_eq, Hhead.
  destruct (Z.geb_spec latest last_block) as [_|Hlt]; [|lia].
  cbv zeta. rewrite Hlogs.
  rewrite (minimal_for_each_undecodable pre post bad decoded e _ Hpre Hbad).
  reflexivity.
Qed.

End MinimalPoller.

Section PoisonLog.
Context `{Codec}.

Lemma chain_listener_iter_undecodable
      (n : node) (last_block latest : Z) (pre post : list Log) (bad : Log)
      (decoded : list MoveArgs) (e : exn) (w : chainplays.world) :
  block_number n = Ok latest ->
  last_block <= latest ->
  get_logs n {| fromBlock := last_block; toBlock := latest |} = Ok (pre ++ bad :: post) ->
  Forall2 (fun log evt => get_event_data log = Ok evt) pre decoded ->
  get_event_data bad = Raise e ->
  chainplays.chain_listener_iter n last_block w =
  ({| chainplays.tally := foldl Counter.incr (chainplays.tally w) (cmd <$> decoded);
      chainplays.actions_q := chainplays.actions_q w;
      chainplays.requests :=
        chainplays.requests w ++ [{| fromBlock := last_block; toBlock := latest |}];
      chainplays.screen := chainplays.screen w |}, Ok last_block).
Proof.
  intros Hhead Hle Hlogs Hpre Hbad.
  rewrite chain_listener_iter_eq, chain_listener_try_eq, Hhead.
  destruct (Z.geb_spec latest last_block) as [_|Hlt]; [|lia].
  cbv zeta. rewrite Hlogs.
  rewrite (for_each_undecodable pre post bad decoded e _ Hpre Hbad).
  reflexivity.
Qed.

End PoisonLog.

(** X6. In the chaos and in the minimal variant too, no error of a cycle
    ends the listener and the cursor never decreases: every run of cycles,
    whatever the node answers and whatever the logs decode to, ends with
    a cursor, not with an exception, and that cursor is not below the one
    the run started with. *)
Theorem forwarding_listener_cursor `{Codec} :
  (forall (ns : list node) (last_block : Z) (w : chainplaysChaos.world),
      exists cursor : Z,
        snd (chainplaysChaos.chain_listener_loop ns last_block w) = Ok cursor /\
        last_block <= cursor) /\
  (forall (ns : list node) (last_block : Z) (w : chainplaysTESTING.world),
      exists cursor : Z,
        snd (chainplaysTESTING.chain_listener_loop ns last_block w) = Ok cursor /\
        last_block <= cursor).
Proof.
  split.
  - intros ns. apply chaos_chain_listener_loop_monotone.
  - intros ns. apply minimal_chain_listener_loop_monotone.
Qed.

(** X7. An undecodable log stops the windowed listener for good. As long
    as the node answers the same head and the same batch, every cycle fails
    at that log: after [k] cycles the cursor is where it was, [k] equal
    filters have been sent, and the votes in front of the log have been
    counted [k] times. *)
Theorem chain_listener_stuck_on_undecodable_log `{Codec}
        (n : node) (last_block latest : Z) (pre post : list Log) (bad : Log)
        (decoded : list MoveArgs) (e : exn) (k : nat) (w : chainplays.world) :
  block_number n = Ok latest ->
  last_block <= latest ->
  get_logs n {| fromBlock := last_block; toBlock := latest |} = Ok (pre ++ bad :: post) ->
  Forall2 (fun log evt => get_event_data log = Ok evt) pre decoded ->
  get_event_data bad = Raise e ->
  snd (chainplays.chain_listener_loop (replicate k n) last_block w) = Ok last_block /\
  chainplays.requests (fst (chainplays.chain_listener_loop (replicate k n) last_block w)) =
    chainplays.requests w ++ replicate k {| fromBlock := last_block; toBlock := latest |} /\
  forall i : Z,
    Counter.get
      (chainplays.tally (fst (chainplays.chain_listener_loop (replicate k n) last_block w))) i =
    Counter.get (chainplays.tally w) i + Z.of_nat k * votes_for i (cmd <$> decoded).
Proof.
  intros Hhead Hle Hlogs Hpre Hbad. revert w.
  induction k as [|k IH]; intros w.
  - simpl. rewrite app_nil_r. repeat split. intros i. lia.
  - cbn [replicate chainplays.chain_listener_loop]. unfold bind.
    rewrite (chain_listener_iter_undecodable n last_block latest pre post bad decoded e w
               Hhead Hle Hlogs Hpre Hbad).
    destruct (IH {| chainplays.tally :=
                      foldl Counter.incr (chainplays.tally w) (cmd <$> decoded);
                    chainplays.actions_q := chainplays.actions_q w;
                    chainplays.requests :=
                      chainplays.requests w ++
                      [{| fromBlock := last_block; toBlock := latest |}];
                    chainplays.screen := chainplays.screen w |})
      as (Hcur & Hreq & Hcount).
    split; [exact Hcur|]. split.
    + rewrite Hreq. cbn [chainplays.requests]. rewrite <- app_assoc. reflexivity.
    + intros i. rewrite Hcount. cbn [chainplays.tally]. rewrite get_votes.
      unfold votes_for. lia.
Qed.

Lemma chain_listener_stuck_on_undecodable_log_witness :
  snd (chainplays.chain_listener_loop
         (replicate 3 (node_with 12 [vote_log 2; bad_log; vote_log 5])) 10 (queued [])) =
    Ok 10 /\
  chainplays.requests
    (fst (chainplays.chain_listener_loop
            (replicate 3 (node_with 12 [vote_log 2; bad_log; vote_log 5])) 10 (queued []))) =
    chainplays.requests (queued []) ++ replicate 3 {| fromBlock := 10; toBlock := 12 |} /\
  forall i : Z,
    Counter.get
      (chainplays.tally
         (fst (chainplays.chain_listener_loop
                 (replicate 3 (node_with 12 [vote_log 2; bad_log; vote_log 5])) 10
                 (queued [])))) i =
    Counter.get (chainplays.tally (queued [])) i
    + Z.of_nat 3
      * votes_for i (cmd <$> [{| sender := "0xA11CE"; cmd := 2; weight := 1; memo := "" |}]).
Proof.
  apply (@chain_listener_stuck_on_undecodable_log scripted_codec
           (node_with 12 [vote_log 2; bad_log; vote_log 5]) 10 12
           [vote_log 2] [vote_log 5] bad_log
           [{| sender := "0xA11CE"; cmd := 2; weight := 1; memo := "" |}]
           "could not decode log" 3 (queued [])).
  - reflexivity.
  - lia.
  - reflexivity.
  - repeat constructor.
  - reflexivity.
Defined.

(** X8. In the chaos and in the minimal variant an undecodable log stops
    the listener in the same way, and the votes in front of it are pressed
    again at every retry: after [k] cycles against the same answer the
    cursor is where it was and the queue has grown by [k] copies of the
    buttons of those votes. *)
Theorem forwarding_listener_replays_votes `{Codec}
        (n : node) (last_block latest : Z) (pre post : list Log) (bad : Log)
        (decoded : list MoveArgs) (e : exn) (k : nat) :
  block_number n = Ok latest ->
  last_block <= latest ->
  get_logs n {| fromBlock := last_block; toBlock := latest |} = Ok (pre ++ bad :: post) ->
  Forall2 (fun log evt => get_event_data log = Ok evt) pre decoded ->
  get_event_data bad = Raise e ->
  (forall w : chainplaysChaos.world,
      snd (chainplaysChaos.chain_listener_loop (replicate k n) last_block w) = Ok last_block /\
      chainplaysChaos.actions_q
        (fst (chainplaysChaos.chain_listener_loop (replicate k n) last_block w)) =
      chainplaysChaos.actions_q w ++
      List.concat
        (replicate k (omap (fun evt => chainplaysChaos.CMD_INDEX_TO_BUTTON !! cmd evt) decoded))) /\
  (forall w : chainplaysTESTING.world,
      snd (chainplaysTESTING.chain_listener_loop (replicate k n) last_block w) = Ok last_block /\
      chainplaysTESTING.actions_q
        (fst (chainplaysTESTING.chain_listener_loop (replicate k n) last_block w)) =
      chainplaysTESTING.actions_q w ++
      List.concat
        (replicate k (omap (fun evt => chainplaysTESTING.CMD_INDEX_TO_BUTTON !! cmd evt) decoded))).
Proof.
  intros Hhead Hle Hlogs Hpre Hbad. split.
  - induction k as [|k IH]; intros w.
    + simpl. rewrite app_nil_r. split; reflexivity.
    + cbn [replicate chainplaysChaos.chain_listener_loop]. unfold bind.
      rewrite (chaos_chain_listener_iter_undecodable n last_block latest pre post bad
                 decoded e w Hhead Hle Hlogs Hpre Hbad).
      match goal with
      | |- context [chainplaysChaos.chain_listener_loop _ _ ?w1] =>
          destruct (IH w1) as (Hcur & Hq)
      end.
      split; [exact Hcur|]. rewrite Hq. cbn [chainplaysChaos.actions_q List.concat].
      rewrite <- app_assoc. reflexivity.
  - induction k as [|k IH]; intros w.
    + simpl. rewrite app_nil_r. split; reflexivity.
    + cbn [replicate chainplaysTESTING.chain_listener_loop]. unfold bind.
      rewrite (minimal_chain_listener_iter_undecodable n last_block latest pre post bad
                 decoded e w Hhead Hle Hlogs Hpre Hbad).
      match goal with
      | |- context [chainplaysTESTING.chain_listener_loop _ _ ?w1] =>
          destruct (IH w1) as (Hcur & Hq)
      end.
      split; [exact Hcur|]. rewrite Hq. cbn [chainplaysTESTING.actions_q List.concat].
      rewrite <- app_assoc. reflexivity.
Qed.

Lemma forwarding_listener_replays_votes_witness :
  chainplaysChaos.chain_listener_loop
    (replicate 3 (node_with 12 [vote_log 4; vote_log 9; bad_log; vote_log 5])) 10
    (chaos_queued ["up"]) =
    ({| chainplaysChaos.actions_q := ["up"; "a"; "a"; "a"];
        chainplaysChaos.requests := replicate 3 {| fromBlock := 10; toBlock := 12 |};
        chainplaysChaos.screen := [] |}, Ok 10) /\
  snd (chainplaysTESTING.chain_listener_loop
         (replicate 3 (node_with 12 [vote_log 4; vote_log 9; bad_log; vote_log 5])) 10
         (minimal_queued ["up"])) = Ok 10 /\
  chainplaysTESTING.actions_q
    (fst (chainplaysTESTING.chain_listener_loop
            (replicate 3 (node_with 12 [vote_log 4; vote_log 9; bad_log; vote_log 5])) 10
            (minimal_queued ["up"]))) = ["up"; "a"; "a"; "a"].
Proof.
  destruct (@forwarding_listener_replays_votes scripted_codec
              (node_with 12 [vote_log 4; vote_log 9; bad_log; vote_log 5]) 10 12
              [vote_log 4; vote_log 9] [vote_log 5] bad_log
              [ {| sender := "0xA11CE"; cmd := 4; weight := 1; memo := "" |};
                {| sender := "0xA11CE"; cmd := 9; weight := 1; memo := "" |} ]
              "could not decode log" 3)
    as (Hchaos & Hminimal);
    [reflexivity|lia|reflexivity|repeat constructor|reflexivity|].
  split; [reflexivity|]. exact (Hminimal (minimal_queued ["up"])).
Defined.

(** ** The applicator over a run of iterations *)

Section Histories.

Lemma presses_app (h1 h2 : history) : presses (h1 ++ h2) = presses h1 ++ presses h2.
Proof.
  induction h1 as [|[btn [|]|] h1 IH]; simpl; [reflexivity| |exact IH|exact IH].
  rewrite IH. reflexivity.
Qed.

Lemma presses_ticks (n : nat) : presses (replicate n Tick) = [].
Proof. induction n as [|n IH]; [reflexivity|exact IH]. Qed.

Lemma count_ticks_replicate (n : nat) : count_ticks (replicate n Tick) = n.
Proof. induction n as [|n IH]; simpl; [reflexivity|rewrite IH; reflexivity]. Qed.

End Histories.

Section Drain.
Variable pyboy : PyBoy.

Lemma windowed_main_iter_pop (btn : string) (q : list string) (w : chainplays.world) :
  chainplays.actions_q w = btn :: q ->
  chainplays.main_iter pyboy w =
  chainplays.set_screen
    (chainplays.screen w ++ [Button btn true] ++ replicate 6 Tick
       ++ [Button btn false] ++ replicate 2 Tick)
    (chainplays.set_actions_q q w).
Proof.
  intros Hq. unfold chainplays.main_iter. rewrite Hq. cbv zeta.
  rewrite !windowed_ticks_eq. unfold button.
  cbn [chainplays.screen chainplays.set_actions_q].
  rewrite <- !app_assoc. reflexivity.
Qed.

Lemma chaos_main_iter_pop (btn : string) (q : list string) (w : chainplaysChaos.world) :
  chainplaysChaos.actions_q w = btn :: q ->
  chainplaysChaos.main_iter pyboy w =
  chainplaysChaos.set_screen
    (chainplaysChaos.screen w ++ [Button btn true; Tick; Button btn false])
    (chainplaysChaos.set_actions_q q w).
Proof.
  intros Hq. unfold chainplaysChaos.main_iter. rewrite Hq. cbv zeta.
  unfold button, tick. cbn. rewrite <- !app_assoc. reflexivity.
Qed.

Lemma minimal_main_iter_pop (btn : string) (q : list string) (w : chainplaysTESTING.world) :
  (forall h : history, pyboy h = true) ->
  chainplaysTESTING.actions_q w = btn :: q ->
  chainplaysTESTING.main_iter pyboy w =
  (chainplaysTESTING.Continue,
   chainplaysTESTING.set_screen
     (chainplaysTESTING.screen w ++ [Button btn true; Tick; Button btn false; Tick])
     (chainplaysTESTING.set_actions_q q w)).
Proof.
  intros Halive Hq. unfold chainplaysTESTING.main_iter. rewrite Hq. cbv zeta.
  unfold button, tick. rewrite !Halive.
  cbn [chainplaysTESTING.screen chainplaysTESTING.set_actions_q].
  rewrite <- !app_assoc. reflexivity.
Qed.

End Drain.

(** X9. The windowed applicator takes the queued actions first in, first
    out, each exactly once: after [k] iterations of the emulation loop,
    with nothing arriving meanwhile, the first [k] actions have left the
    queue, [pyboy.button(btn, True)] has been called for them in their
    order and for nothing else, the emulator has made 8 steps for each of
    them and one step for every iteration that found the queue empty, and
    the tally and the listener's record are as they were. *)
Theorem windowed_main_loop_drains_fifo (pyboy : PyBoy) (k : nat) (w : chainplays.world) :
  chainplays.actions_q (chainplays.main_loop pyboy k w) = drop k (chainplays.actions_q w) /\
  presses (chainplays.screen (chainplays.main_loop pyboy k w)) =
    presses (chainplays.screen w) ++ take k (chainplays.actions_q w) /\
  count_ticks (chainplays.screen (chainplays.main_loop pyboy k w)) =
    (count_ticks (chainplays.screen w)
     + 8 * Nat.min k (length (chainplays.actions_q w))
     + (k - length (chainplays.actions_q w)))%nat /\
  chainplays.tally (chainplays.main_loop pyboy k w) = chainplays.tally w /\
  chainplays.requests (chainplays.main_loop pyboy k w) = chainplays.requests w.
Proof.
  revert w. induction k as [|k IH]; intros w.
  - cbn [chainplays.main_loop]. rewrite drop_0, take_0, app_nil_r.
    repeat split; auto; lia.
  - cbn [chainplays.main_loop].
    destruct (chainplays.actions_q w) as [|btn q] eqn:Hq.
    + assert (Hiter : chainplays.main_iter pyboy w =
                      chainplays.set_screen (chainplays.screen w ++ [Tick]) w).
      { unfold chainplays.main_iter. rewrite Hq. reflexivity. }
      rewrite Hiter.
      destruct (IH (chainplays.set_screen (chainplays.screen w ++ [Tick]) w))
        as (IHq & IHp & IHt & IHtally & IHreq).
      cbn [chainplays.set_screen chainplays.actions_q chainplays.screen
           chainplays.tally chainplays.requests] in *.
      rewrite Hq in *. rewrite IHq, IHp, IHt.
      rewrite presses_app, count_ticks_app, !drop_nil, !take_nil. cbn.
      rewrite !app_nil_r.
      repeat split; auto; lia.
    + rewrite (windowed_main_iter_pop pyboy btn q w Hq).
      match goal with
      | |- context [chainplays.main_loop pyboy k ?w1] =>
          destruct (IH w1) as (IHq & IHp & IHt & IHtally & IHreq)
      end.
      cbn [chainplays.set_screen chainplays.set_actions_q chainplays.actions_q
           chainplays.screen chainplays.tally chainplays.requests] in *.
      rewrite IHq, IHp, IHt.
      rewrite !presses_app, !count_ticks_app, !presses_ticks, !count_ticks_replicate.
      cbn [presses count_ticks app drop take length].
      rewrite <- app_assoc.
      repeat split; auto; lia.
Qed.

(** Three iterations on the queue [a, b]: 8 + 8 + 1 steps. *)
Example windowed_main_loop_drains_fifo_example :
  chainplays.actions_q (chainplays.main_loop pyboy_closed 3 (queued ["a"; "b"])) = [] /\
  presses (chainplays.screen (chainplays.main_loop pyboy_closed 3 (queued ["a"; "b"]))) =
    ["a"; "b"] /\
  count_ticks (chainplays.screen (chainplays.main_loop pyboy_closed 3 (queued ["a"; "b"]))) =
    17%nat.
Proof. repeat split; reflexivity. Qed.

(** The presses and the steps of [k] iterations of the chaos loop. *)
Lemma chaos_main_loop_effect (pyboy : PyBoy) (k : nat) (w : chainplaysChaos.world) :
  chainplaysChaos.actions_q (chainplaysChaos.main_loop pyboy k w) =
    drop k (chainplaysChaos.actions_q w) /\
  presses (chainplaysChaos.screen (chainplaysChaos.main_loop pyboy k w)) =
    presses (chainplaysChaos.screen w) ++ take k (chainplaysChaos.actions_q w) /\
  count_ticks (chainplaysChaos.screen (chainplaysChaos.main_loop pyboy k w)) =
    (count_ticks (chainplaysChaos.screen w) + k)%nat.
Proof.
  revert w. induction k as [|k IH]; intros w.
  - cbn [chainplaysChaos.main_loop]. rewrite drop_0, take_0, app_nil_r.
    repeat split; auto; lia.
  - cbn [chainplaysChaos.main_loop].
    destruct (chainplaysChaos.actions_q w) as [|btn q] eqn:Hq.
    + assert (Hiter : chainplaysChaos.main_iter pyboy w =
                      chainplaysChaos.set_screen (chainplaysChaos.screen w ++ [Tick]) w).
      { unfold chainplaysChaos.main_iter. rewrite Hq. reflexivity. }
      rewrite Hiter.
      destruct (IH (chainplaysChaos.set_screen (chainplaysChaos.screen w ++ [Tick]) w))
        as (IHq & IHp & IHt).
      cbn [chainplaysChaos.set_screen chainplaysChaos.actions_q chainplaysChaos.screen] in *.
      rewrite Hq in *. rewrite IHq, IHp, IHt.
      rewrite presses_app, count_ticks_app, !drop_nil, !take_nil. cbn.
      rewrite !app_nil_r.
      repeat split; auto; lia.
    + rewrite (chaos_main_iter_pop pyboy btn q w Hq).
      match goal with
      | |- context [chainplaysChaos.main_loop pyboy k ?w1] =>
          destruct (IH w1) as (IHq & IHp & IHt)
      end.
      cbn [chainplaysChaos.set_screen chainplaysChaos.set_actions_q
           chainplaysChaos.actions_q chainplaysChaos.screen] in *.
      rewrite IHq, IHp, IHt.
      rewrite !presses_app, !count_ticks_app.
      cbn [presses count_ticks app drop take length].
      rewrite <- app_assoc.
      repeat split; auto; lia.
Qed.

(** X10. The chaos applicator keeps the pace of the emulator: every
    iteration of its loop makes exactly one step, with or without an
    action, so [k] iterations make [k] steps; the first [k] queued actions
    leave the queue first in, first out, and [pyboy.button(btn, True)] is
    called for each of them once, in that order, and for nothing else; the
    listener's record is as it was. *)
Theorem chaos_main_loop_one_step_per_iteration
        (pyboy : PyBoy) (k : nat) (w : chainplaysChaos.world) :
  chainplaysChaos.actions_q (chainplaysChaos.main_loop pyboy k w) =
    drop k (chainplaysChaos.actions_q w) /\
  presses (chainplaysChaos.screen (chainplaysChaos.main_loop pyboy k w)) =
    presses (chainplaysChaos.screen w) ++ take k (chainplaysChaos.actions_q w) /\
  count_ticks (chainplaysChaos.screen (chainplaysChaos.main_loop pyboy k w)) =
    (count_ticks (chainplaysChaos.screen w) + k)%nat /\
  chainplaysChaos.requests (chainplaysChaos.main_loop pyboy k w) = chainplaysChaos.requests w.
Proof.
  revert w. induction k as [|k IH]; intros w.
  - cbn [chainplaysChaos.main_loop]. rewrite drop_0, take_0, app_nil_r.
    repeat split; auto; lia.
  - cbn [chainplaysChaos.main_loop].
    destruct (chainplaysChaos.actions_q w) as [|btn q] eqn:Hq.
    + assert (Hiter : chainplaysChaos.main_iter pyboy w =
                      chainplaysChaos.set_screen (chainplaysChaos.screen w ++ [Tick]) w).
      { unfold chainplaysChaos.main_iter. rewrite Hq. reflexivity. }
      rewrite Hiter.
      destruct (IH (chainplaysChaos.set_screen (chainplaysChaos.screen w ++ [Tick]) w))
        as (IHq & IHp & IHt & IHreq).
      cbn [chainplaysChaos.set_screen chainplaysChaos.actions_q chainplaysChaos.screen
           chainplaysChaos.requests] in *.
      rewrite Hq in *. rewrite IHq, IHp, IHt.
      rewrite presses_app, count_ticks_app, !drop_nil, !take_nil. cbn.
      rewrite !app_nil_r.
      repeat split; auto; lia.
    + rewrite (chaos_main_iter_pop pyboy btn q w Hq).
      match goal with
      | |- context [chainplaysChaos.main_loop pyboy k ?w1] =>
          destruct (IH w1) as (IHq & IHp & IHt & IHreq)
      end.
      cbn [chainplaysChaos.set_screen chainplaysChaos.set_actions_q
           chainplaysChaos.actions_q chainplaysChaos.screen chainplaysChaos.requests] in *.
      rewrite IHq, IHp, IHt.
      rewrite !presses_app, !count_ticks_app.
      cbn [presses count_ticks app drop take length].
      rewrite <- app_assoc.
      repeat split; auto; lia.
Qed.

(** Three iterations on the queue [a, b]: three steps. *)
Example chaos_main_loop_one_step_per_iteration_example :
  chainplaysChaos.actions_q (chainplaysChaos.main_loop pyboy_closed 3 (chaos_queued ["a"; "b"])) =
    [] /\
  presses (chainplaysChaos.screen
             (chainplaysChaos.main_loop pyboy_closed 3 (chaos_queued ["a"; "b"]))) =
    ["a"; "b"] /\
  count_ticks (chainplaysChaos.screen
                 (chainplaysChaos.main_loop pyboy_closed 3 (chaos_queued ["a"; "b"]))) =
    3%nat.
Proof. repeat split; reflexivity. Qed.

Section MinimalRun.
Variable pyboy : PyBoy.

(** One iteration of the minimal loop, whatever the emulator answers: it
    takes the head of the queue, if there is one, and calls
    [pyboy.button(btn, True)] for it; when it goes on, it has made one step
    without an action and two with one. *)
Lemma minimal_main_iter_effect (w : chainplaysTESTING.world) :
  exists ops : history,
    chainplaysTESTING.screen (snd (chainplaysTESTING.main_iter pyboy w)) =
      chainplaysTESTING.screen w ++ ops /\
    chainplaysTESTING.actions_q (snd (chainplaysTESTING.main_iter pyboy w)) =
      drop 1 (chainplaysTESTING.actions_q w) /\
    chainplaysTESTING.requests (snd (chainplaysTESTING.main_iter pyboy w)) =
      chainplaysTESTING.requests w /\
    presses ops = take 1 (chainplaysTESTING.actions_q w) /\
    (fst (chainplaysTESTING.main_iter pyboy w) = chainplaysTESTING.Continue ->
     count_ticks ops = (1 + Nat.min 1 (length (chainplaysTESTING.actions_q w)))%nat).
Proof.
  unfold chainplaysTESTING.main_iter, tick, button.
  destruct (chainplaysTESTING.actions_q w) as [|btn q] eqn:Hq; cbn.
  - exists [Tick].
    destruct (pyboy (chainplaysTESTING.screen w)); cbn; rewrite ?Hq;
      repeat split; auto.
  - destruct (pyboy (chainplaysTESTING.screen w ++ [Button btn true])); cbn.
    + exists [Button btn true; Tick; Button btn false; Tick].
      destruct (pyboy (((chainplaysTESTING.screen w ++ [Button btn true]) ++ [Tick])
                         ++ [Button btn false])); cbn;
        rewrite <- !app_assoc; repeat split; auto.
    + exists [Button btn true; Tick]. rewrite <- !app_assoc.
      repeat split; auto; intros; discriminate.
Qed.

End MinimalRun.

(** X11. The minimal applicator takes the queued actions first in, first
    out, each at most once, also when [main] returns in the middle of the
    run: after [k] iterations of the loop some [j <= k] actions have left
    the queue, they are exactly the buttons for which
    [pyboy.button(btn, True)] was called, in their order, and what is left
    of the queue is untouched. If the loop has not returned, then [j = k]
    and the emulator has made two steps for each action and one for every
    iteration that found the queue empty. *)
Theorem minimal_main_loop_fifo (pyboy : PyBoy) (k : nat) (w : chainplaysTESTING.world) :
  exists j : nat,
    (j <= k)%nat /\
    chainplaysTESTING.actions_q (snd (chainplaysTESTING.main_loop pyboy k w)) =
      drop j (chainplaysTESTING.actions_q w) /\
    presses (chainplaysTESTING.screen (snd (chainplaysTESTING.main_loop pyboy k w))) =
      presses (chainplaysTESTING.screen w) ++ take j (chainplaysTESTING.actions_q w) /\
    chainplaysTESTING.requests (snd (chainplaysTESTING.main_loop pyboy k w)) =
      chainplaysTESTING.requests w /\
    (fst (chainplaysTESTING.main_loop pyboy k w) = chainplaysTESTING.Continue ->
     j = k /\
     count_ticks (chainplaysTESTING.screen (snd (chainplaysTESTING.main_loop pyboy k w))) =
       (count_ticks (chainplaysTESTING.screen w)
        + 2 * Nat.min k (length (chainplaysTESTING.actions_q w))
        + (k - length (chainplaysTESTING.actions_q w)))%nat).
Proof.
  revert w. induction k as [|k IH]; intros w.
  - exists O. cbn [chainplaysTESTING.main_loop snd fst].
    rewrite drop_0, take_0, app_nil_r. repeat split; auto; lia.
  - cbn [chainplaysTESTING.main_loop].
    destruct (minimal_main_iter_effect pyboy w) as (ops & Hscreen & Hq & Hreq & Hpress & Hgo).
    destruct (chainplaysTESTING.main_iter pyboy w) as [[|] w1]; cbn [fst snd] in *.
    + destruct (IH w1) as (j & Hj & IHq & IHp & IHreq & IHgo).
      exists (S j). split; [lia|].
      rewrite IHq, IHp, IHreq, Hq, Hscreen, Hreq, presses_app, Hpress.
      pose proof (Hgo eq_refl) as Hticks.
      destruct (chainplaysTESTING.actions_q w) as [|btn q];
        cbn [drop take app length] in *; rewrite ?drop_nil, ?take_nil, <- ?app_assoc;
        (split; [reflexivity|]); (split; [reflexivity|]); (split; [reflexivity|]);
        intros Hcont; destruct (IHgo Hcont) as (-> & IHt);
        (split; [reflexivity|]);
        rewrite IHt, Hq, Hscreen, count_ticks_app, Hticks;
        rewrite ?drop_0; cbn [length]; lia.
    + exists 1%nat. split; [lia|].
      rewrite Hq, Hscreen, Hreq, presses_app, Hpress.
      split; [reflexivity|]. split; [reflexivity|]. split; [reflexivity|].
      intros; discriminate.
Qed.

Lemma minimal_main_loop_fifo_witness :
  (* an emulator that closes after three steps: [main] returns during the
     second action, and the third action stays queued *)
  fst (chainplaysTESTING.main_loop (pyboy_closing_after 3) 5 (minimal_queued ["a"; "b"; "up"])) =
    chainplaysTESTING.Returned /\
  chainplaysTESTING.actions_q
    (snd (chainplaysTESTING.main_loop (pyboy_closing_after 3) 5
            (minimal_queued ["a"; "b"; "up"]))) = ["up"] /\
  (exists j : nat,
      (j <= 5)%nat /\
      chainplaysTESTING.actions_q
        (snd (chainplaysTESTING.main_loop (pyboy_closing_after 3) 5
                (minimal_queued ["a"; "b"; "up"]))) = drop j ["a"; "b"; "up"] /\
      presses
        (chainplaysTESTING.screen
           (snd (chainplaysTESTING.main_loop (pyboy_closing_after 3) 5
                   (minimal_queued ["a"; "b"; "up"])))) = [] ++ take j ["a"; "b"; "up"]) /\
  (* an emulator that stays open: four iterations on two actions *)
  fst (chainplaysTESTING.main_loop pyboy_running 4 (minimal_queued ["a"; "b"])) =
    chainplaysTESTING.Continue /\
  count_ticks
    (chainplaysTESTING.screen
       (snd (chainplaysTESTING.main_loop pyboy_running 4 (minimal_queued ["a"; "b"])))) =
    (0 + 2 * Nat.min 4 2 + (4 - 2))%nat.
Proof.
  split; [reflexivity|]. split; [reflexivity|]. split.
  - destruct (minimal_main_loop_fifo (pyboy_closing_after 3) 5
                (minimal_queued ["a"; "b"; "up"])) as (j & Hj & Hq & Hp & _).
    exists j. split; [exact Hj|]. split; [exact Hq|exact Hp].
  - split; [reflexivity|].
    destruct (minimal_main_loop_fifo pyboy_running 4 (minimal_queued ["a"; "b"]))
      as (j & _ & _ & _ & _ & Hgo).
    destruct (Hgo eq_refl) as (_ & Hticks). exact Hticks.
Defined.

Lemma minimal_main_stops_at_first_signal_witness :
  fst (chainplaysTESTING.main (pyboy_closing_after 250) 20 (minimal_queued ["a"])) =
    chainplaysTESTING.Returned /\
  match chainplaysTESTING.main (pyboy_closing_after 250) 20 (minimal_queued ["a"]) with
  | (chainplaysTESTING.Continue, w') =>
      Forall (fun r : bool => r = true)
             (tick_results (pyboy_closing_after 250) [] (chainplaysTESTING.screen w'))
  | (chainplaysTESTING.Returned, w') =>
      exists pre : history,
        chainplaysTESTING.screen w' = pre ++ [Tick] /\
        Forall (fun r : bool => r = true) (tick_results (pyboy_closing_after 250) [] pre) /\
        pyboy_closing_after 250 pre = false
  end.
Proof.
  split; [vm_compute; reflexivity|].
  apply (minimal_main_stops_at_first_signal (pyboy_closing_after 250) 20
           (minimal_queued ["a"])).
  constructor.
Defined.

Section MinimalExit.
Variable pyboy : PyBoy.
Variable closed_at : nat.
Hypothesis Hclosed : forall h : history, (closed_at <= count_ticks h)%nat -> pyboy h = false.

Lemma alive_before_close (h : history) : pyboy h = true -> (count_ticks h < closed_at)%nat.
Proof.
  intros Halive. destruct (Nat.lt_ge_cases (count_ticks h) closed_at) as [Hlt|Hge];
    [exact Hlt|]. rewrite (Hclosed h Hge) in Halive. discriminate.
Qed.

Lemma minimal_warmup_continue (n : nat) :
  forall h : history,
    fst (chainplaysTESTING.warmup pyboy n h) = chainplaysTESTING.Continue ->
    count_ticks (snd (chainplaysTESTING.warmup pyboy n h)) = (count_ticks h + n)%nat /\
    ((1 <= n)%nat -> (count_ticks h + n <= closed_at)%nat).
Proof.
  induction n as [|n IH]; intros h; simpl.
  - intros _. split; lia.
  - destruct (pyboy h) eqn:Halive; [|discriminate].
    intros Hgo. destruct (IH _ Hgo) as (Hcount & Hbound).
    apply alive_before_close in Halive.
    rewrite count_ticks_app in Hcount, Hbound. simpl in Hcount, Hbound.
    split; [lia|]. intros _. destruct n; lia.
Qed.

Lemma minimal_main_iter_continue (w : chainplaysTESTING.world) :
  fst (chainplaysTESTING.main_iter pyboy w) = chainplaysTESTING.Continue ->
  (count_ticks (chainplaysTESTING.screen w) + 1 <=
   count_ticks (chainplaysTESTING.screen (snd (chainplaysTESTING.main_iter pyboy w))) <=
   closed_at)%nat.
Proof.
  unfold chainplaysTESTING.main_iter, tick, button.
  destruct (chainplaysTESTING.actions_q w) as [|btn q]; cbn.
  - destruct (pyboy (chainplaysTESTING.screen w)) eqn:Ha; cbn; [|discriminate].
    intros _. apply alive_before_close in Ha. rewrite count_ticks_app. simpl. lia.
  - destruct (pyboy (chainplaysTESTING.screen w ++ [Button btn true])) eqn:Ha1; cbn;
      [|discriminate].
    destruct (pyboy (((chainplaysTESTING.screen w ++ [Button btn true]) ++ [Tick])
                       ++ [Button btn false])) eqn:Ha2; cbn; [|discriminate].
    intros _. apply alive_before_close in Ha2.
    rewrite !count_ticks_app in *. simpl in *. lia.
Qed.

Lemma minimal_main_loop_continue (k : nat) :
  forall w : chainplaysTESTING.world,
    fst (chainplaysTESTING.main_loop pyboy k w) = chainplaysTESTING.Continue ->
    (count_ticks (chainplaysTESTING.screen w) + k <=
     count_ticks (chainplaysTESTING.screen (snd (chainplaysTESTING.main_loop pyboy k w))))%nat /\
    ((1 <= k)%nat ->
     (count_ticks (chainplaysTESTING.screen (snd (chainplaysTESTING.main_loop pyboy k w)))
      <= closed_at)%nat).
Proof.
  induction k as [|k IH]; intros w; cbn [chainplaysTESTING.main_loop].
  - intros _. cbn. split; lia.
  - pose proof (minimal_main_iter_continue w) as Hiter.
    destruct (chainplaysTESTING.main_iter pyboy w) as [[|] w1]; cbn [fst snd] in *;
      [|discriminate].
    intros Hgo. specialize (Hiter eq_refl). destruct (IH w1 Hgo) as (Hcount & Hbound).
    split; [lia|]. intros _. destruct k as [|k]; [|apply Hbound; lia].
    cbn [chainplaysTESTING.main_loop snd]. lia.
Qed.

End MinimalExit.

(** X12. The minimal [main] does return when the emulator is closed: if
    every step from the one numbered [closed_at] on signals termination,
    then [main] has returned as soon as the warm-up and the iterations
    allowed to it amount to more than [closed_at] steps. *)
Theorem minimal_main_returns_once_closed
        (pyboy : PyBoy) (closed_at k : nat) (w : chainplaysTESTING.world) :
  (forall h : history, (closed_at <= count_ticks h)%nat -> pyboy h = false) ->
  (closed_at < count_ticks (chainplaysTESTING.screen w) + 240 + k)%nat ->
  fst (chainplaysTESTING.main pyboy k w) = chainplaysTESTING.Returned.
Proof.
  intros Hclosed Hfuel. unfold chainplaysTESTING.main. cbn [chainplaysTESTING.PRINT_ONLY].
  pose proof (minimal_warmup_continue pyboy closed_at Hclosed 240
                (chainplaysTESTING.screen w)) as Hwarm.
  destruct (chainplaysTESTING.warmup pyboy 240 (chainplaysTESTING.screen w)) as [[|] h];
    [|reflexivity].
  cbn [fst snd] in Hwarm. destruct (Hwarm eq_refl) as (Hcount & Hbound).
  specialize (Hbound ltac:(lia)).
  pose proof (minimal_main_loop_continue pyboy closed_at Hclosed k
                (chainplaysTESTING.set_screen h w)) as Hloop.
  destruct (chainplaysTESTING.main_loop pyboy k (chainplaysTESTING.set_screen h w))
    as [[|] w'] eqn:Hrun; [|reflexivity].
  exfalso. cbn [fst snd] in Hloop. destruct (Hloop eq_refl) as (Hmore & Hcap).
  cbn [chainplaysTESTING.screen chainplaysTESTING.set_screen] in Hmore.
  destruct k as [|k]; [lia|]. specialize (Hcap ltac:(lia)). lia.
Qed.

Lemma minimal_main_returns_once_closed_witness :
  fst (chainplaysTESTING.main (pyboy_closing_after 250) 20 (minimal_queued ["a"])) =
    chainplaysTESTING.Returned.
Proof.
  apply (minimal_main_returns_once_closed (pyboy_closing_after 250) 250 20
           (minimal_queued ["a"])).
  - intros h Hh. unfold pyboy_closing_after. apply Nat.ltb_ge. exact Hh.
  - simpl. lia.
Defined.

Lemma drop_succ_tail (k : nat) (q : list string) : drop (S k) q = drop 1 (drop k q).
Proof. rewrite drop_drop. f_equal. lia. Qed.

(** X13. In print-only mode the main loop only takes actions from the
    queue, one for each iteration and first in, first out; it never
    touches the emulator, in any of the three files. *)
Theorem print_only_never_touches_emulator (k : nat) :
  (forall w : chainplays.world,
      Nat.iter k chainplays.main_print_only_iter w =
      chainplays.set_actions_q (drop k (chainplays.actions_q w)) w) /\
  (forall w : chainplaysChaos.world,
      Nat.iter k chainplaysChaos.main_print_only_iter w =
      chainplaysChaos.set_actions_q (drop k (chainplaysChaos.actions_q w)) w) /\
  (forall w : chainplaysTESTING.world,
      Nat.iter k chainplaysTESTING.main_print_only_iter w =
      chainplaysTESTING.set_actions_q (drop k (chainplaysTESTING.actions_q w)) w).
Proof.
  induction k as [|k (IHwindowed & IHchaos & IHminimal)].
  - repeat split; intros w; simpl; rewrite drop_0; destruct w; reflexivity.
  - split; [|split]; intros w; rewrite Nat.iter_succ, drop_succ_tail.
    + rewrite IHwindowed. unfold chainplays.main_print_only_iter. cbn.
      destruct (drop k (chainplays.actions_q w)); reflexivity.
    + rewrite IHchaos. unfold chainplaysChaos.main_print_only_iter. cbn.
      destruct (drop k (chainplaysChaos.actions_q w)); reflexivity.
    + rewrite IHminimal. unfold chainplaysTESTING.main_print_only_iter. cbn.
      destruct (drop k (chainplaysTESTING.actions_q w)); reflexivity.
Qed.

(** ** Strings, the provider and the start of main *)

Section Strings.

Lemma prefix_empty (s : string) : String.prefix "" s = true.
Proof. destruct s; reflexivity. Qed.

Lemma prefix_append (p s : string) : String.prefix p (p +:+ s) = true.
Proof.
  induction p as [|c p IH]; [apply prefix_empty|].
  change (String c p +:+ s) with (String c (p +:+ s)).
  cbn [String.prefix]. destruct (ascii_dec c c); [exact IH|congruence].
Qed.

Lemma replace_from_skip (old new : string) (o rest : string) :
  replace_from old new (String.length o) (o +:+ rest) = replace_from old new 0 rest.
Proof. induction o as [|c o IH]; [reflexivity|exact IH]. Qed.

(** An occurrence at the head is replaced, and the scan goes on behind
    it. *)
Lemma replace_from_head (c : ascii) (old new rest : string) :
  replace_from (String c old) new 0 (String c old +:+ rest) =
  new +:+ replace_from (String c old) new 0 rest.
Proof.
  change (String c old +:+ rest) with (String c (old +:+ rest)).
  cbn [replace_from].
  change (String c (old +:+ rest)) with (String c old +:+ rest).
  rewrite prefix_append.
  replace (String.length (String c old) - 1)%nat with (String.length old)
    by (cbn [String.length]; lia).
  rewrite replace_from_skip. reflexivity.
Qed.

(** A string in which [old] does not occur is left as it is. *)
Lemma replace_from_absent (old new s : string) :
  occurs old s = false -> replace_from old new 0 s = s.
Proof.
  induction s as [|c s IH]; [reflexivity|].
  cbn [occurs replace_from]. intros [Hhead Htail]%orb_false_elim.
  rewrite Hhead, (IH Htail). reflexivity.
Qed.

Lemma ascii_lower_idempotent (c : ascii) : ascii_lower (ascii_lower c) = ascii_lower c.
Proof. destruct c as [[] [] [] [] [] [] [] []]; reflexivity. Qed.

Lemma lower_idempotent (s : string) : lower (lower s) = lower s.
Proof.
  induction s as [|c s IH]; [reflexivity|].
  simpl. rewrite ascii_lower_idempotent, IH. reflexivity.
Qed.

Lemma startswith_0x (s : string) :
  startswith s "0x" = true -> exists rest : string, s = "0x" +:+ rest.
Proof.
  unfold startswith. destruct s as [|a [|b s]]; cbn [String.prefix].
  - discriminate.
  - destruct (ascii_dec "0" a); discriminate.
  - destruct (ascii_dec "0" a) as [<-|]; [|discriminate].
    destruct (ascii_dec "x" b) as [<-|]; [|discriminate].
    intros _. exists s. reflexivity.
Qed.

End Strings.

(** X14. Without a websocket provider class in the installed web3,
    [make_web3_provider] falls back to HTTP and rewrites the scheme of the
    URL: wss://host becomes https://host and ws://host becomes http://host,
    for every host in which neither scheme occurs again, and a URL in which
    neither scheme occurs at all is passed on as it is. The three files do
    the same here. *)
Theorem make_web3_provider_http_fallback (Web3 : gset string) (host : string) :
  hasattr Web3 "WebsocketProvider" = false ->
  hasattr Web3 "WebSocketProvider" = false ->
  hasattr Web3 "LegacyWebSocketProvider" = false ->
  occurs "wss://" host = false ->
  occurs "ws://" host = false ->
  chainplays.make_web3_provider Web3 ("wss://" +:+ host) = HTTPProvider ("https://" +:+ host) /\
  chainplays.make_web3_provider Web3 ("ws://" +:+ host) = HTTPProvider ("http://" +:+ host) /\
  chainplays.make_web3_provider Web3 host = HTTPProvider host /\
  (forall rpc_url : string,
      chainplaysChaos.make_web3_provider Web3 rpc_url =
        chainplays.make_web3_provider Web3 rpc_url /\
      chainplaysTESTING.make_web3_provider Web3 rpc_url =
        chainplays.make_web3_provider Web3 rpc_url).
Proof.
  intros Hold Hws Hlegacy Hwss Hw.
  assert (Hhost1 : replace_from "wss://" "https://" 0 host = host)
    by (apply replace_from_absent; exact Hwss).
  assert (Hhost2 : replace_from "ws://" "http://" 0 host = host)
    by (apply replace_from_absent; exact Hw).
  unfold chainplays.make_web3_provider, chainplaysChaos.make_web3_provider,
    chainplaysTESTING.make_web3_provider.
  rewrite Hold, Hws, Hlegacy. cbv zeta. unfold replace.
  split; [|split; [|split]].
  - rewrite replace_from_head, Hhost1. f_equal.
    apply replace_from_absent.
    transitivity (occurs "ws://" host); [reflexivity|exact Hw].
  - rewrite (replace_from_absent "wss://" "https://" ("ws://" +:+ host)).
    + rewrite replace_from_head, Hhost2. reflexivity.
    + transitivity (occurs "wss://" host); [reflexivity|exact Hwss].
  - rewrite Hhost1, Hhost2. reflexivity.
  - intros rpc_url. split; reflexivity.
Qed.

Lemma make_web3_provider_http_fallback_witness :
  chainplays.make_web3_provider {[ "HTTPProvider" ]} "wss://jsonrpcws-mezo.boar.network" =
    HTTPProvider "https://jsonrpcws-mezo.boar.network" /\
  chainplays.make_web3_provider {[ "HTTPProvider" ]} "ws://jsonrpcws-mezo.boar.network" =
    HTTPProvider "http://jsonrpcws-mezo.boar.network" /\
  chainplays.make_web3_provider {[ "HTTPProvider" ]} "jsonrpcws-mezo.boar.network" =
    HTTPProvider "jsonrpcws-mezo.boar.network" /\
  (forall rpc_url : string,
      chainplaysChaos.make_web3_provider {[ "HTTPProvider" ]} rpc_url =
        chainplays.make_web3_provider {[ "HTTPProvider" ]} rpc_url /\
      chainplaysTESTING.make_web3_provider {[ "HTTPProvider" ]} rpc_url =
        chainplays.make_web3_provider {[ "HTTPProvider" ]} rpc_url).
Proof.
  apply (make_web3_provider_http_fallback {[ "HTTPProvider" ]} "jsonrpcws-mezo.boar.network");
    vm_compute; reflexivity.
Defined.

(** X15. The start of [main]: a client that is not connected ends [main]
    with the error "RPC connect failed"; with a connected client the topic
    that the listener filters on always starts with 0x and is in lower
    case, and it is the same whether the installed [hex()] puts the 0x in
    front of the digest or leaves it out. The chaos file does the same. *)
Theorem main_setup_topic0 (w3 : w3_client) :
  (is_connected w3 = false ->
   chainplays.main_setup w3 = Raise "RPC connect failed") /\
  (is_connected w3 = true ->
   exists topic0 : string,
     chainplays.main_setup w3 = Ok topic0 /\
     chainplaysChaos.main_setup w3 = Ok topic0 /\
     startswith topic0 "0x" = true /\
     lower topic0 = topic0 /\
     (startswith (keccak_hex w3) "0x" = false ->
      chainplays.main_setup
        {| is_connected := true; keccak_hex := "0x" +:+ keccak_hex w3 |} = Ok topic0)).
Proof.
  unfold chainplays.main_setup, chainplaysChaos.main_setup. split; intros ->; [reflexivity|].
  cbn [negb is_connected keccak_hex]. cbv zeta.
  destruct (startswith (keccak_hex w3) "0x") eqn:Hprefix; cbn [negb].
  - exists (lower (keccak_hex w3)). split; [reflexivity|]. split; [reflexivity|].
    destruct (startswith_0x _ Hprefix) as (rest & ->).
    split; [|split; [apply lower_idempotent|discriminate]].
    change (lower ("0x" +:+ rest)) with ("0x" +:+ lower rest).
    apply prefix_append.
  - exists (lower ("0x" +:+ keccak_hex w3)). split; [reflexivity|]. split; [reflexivity|].
    split; [|split; [apply lower_idempotent|]].
    + change (lower ("0x" +:+ keccak_hex w3)) with ("0x" +:+ lower (keccak_hex w3)).
      apply prefix_append.
    + intros _. unfold startswith. rewrite prefix_append. reflexivity.
Qed.

Lemma main_setup_topic0_witness :
  chainplays.main_setup {| is_connected := false; keccak_hex := "1A2b" |} =
    Raise "RPC connect failed" /\
  chainplays.main_setup {| is_connected := true; keccak_hex := "1A2b" |} = Ok "0x1a2b" /\
  chainplays.main_setup {| is_connected := true; keccak_hex := "0x1A2b" |} = Ok "0x1a2b" /\
  exists topic0 : string,
    chainplays.main_setup {| is_connected := true; keccak_hex := "1A2b" |} = Ok topic0 /\
    chainplaysChaos.main_setup {| is_connected := true; keccak_hex := "1A2b" |} = Ok topic0 /\
    startswith topic0 "0x" = true /\
    lower topic0 = topic0 /\
    (startswith "1A2b" "0x" = false ->
     chainplays.main_setup {| is_connected := true; keccak_hex := "0x" +:+ "1A2b" |} =
       Ok topic0).
Proof.
  destruct (main_setup_topic0 {| is_connected := false; keccak_hex := "1A2b" |})
    as (Hdown & _).
  destruct (main_setup_topic0 {| is_connected := true; keccak_hex := "1A2b" |})
    as (_ & Hup).
  split; [apply Hdown; reflexivity|].
  split; [reflexivity|]. split; [reflexivity|].
  apply Hup. reflexivity.
Defined.

(** X16. Each worker keeps to its own part of the state, as the
    docstrings of the windowed file say. A run of the listener changes
    neither the action queue nor the emulator; an iteration of the
    aggregator changes neither the emulator nor the listener's record of
    filters; the emulation loop changes neither the tally nor that
    record. *)
Theorem workers_keep_to_their_state `{Codec} (pyboy : PyBoy) :
  (forall (ns : list node) (last_block : Z) (w : chainplays.world),
      chainplays.actions_q (fst (chainplays.chain_listener_loop ns last_block w)) =
        chainplays.actions_q w /\
      chainplays.screen (fst (chainplays.chain_listener_loop ns last_block w)) =
        chainplays.screen w) /\
  (forall w : chainplays.world,
      chainplays.screen (chainplays.vote_aggregator_iter w) = chainplays.screen w /\
      chainplays.requests (chainplays.vote_aggregator_iter w) = chainplays.requests w) /\
  (forall (k : nat) (w : chainplays.world),
      chainplays.tally (chainplays.main pyboy k w) = chainplays.tally w /\
      chainplays.requests (chainplays.main pyboy k w) = chainplays.requests w).
Proof.
  split; [|split].
  - induction ns as [|n ns IH]; intros last_block w.
    + split; reflexivity.
    + cbn [chainplays.chain_listener_loop]. unfold bind.
      destruct (chain_listener_iter_cursor n last_block w) as (c1 & Hc1 & _).
      destruct (chain_listener_iter_frame n last_block w) as (Hq & Hs).
      destruct (chainplays.chain_listener_iter n last_block w) as [w1 r1].
      cbn [fst snd] in *. subst r1. destruct (IH c1 w1) as (-> & ->). auto.
  - intros w. rewrite vote_aggregator_iter_eq.
    destruct (Counter.most_common_1 (chainplays.tally w)) as [|[cmd_idx n] rest];
      [split; reflexivity|].
    destruct (chainplays.CMD_INDEX_TO_BUTTON !! cmd_idx) as [btn|] eqn:Hbtn.
    + rewrite (vote_aggregator_put_mapped _ _ _ Hbtn). split; reflexivity.
    + rewrite (vote_aggregator_put_unmapped _ _ Hbtn). split; reflexivity.
  - intros k w. unfold chainplays.main. cbn [chainplays.PRINT_ONLY].
    assert (Hloop : forall k w0,
      chainplays.tally (chainplays.main_loop pyboy k w0) = chainplays.tally w0 /\
      chainplays.requests (chainplays.main_loop pyboy k w0) = chainplays.requests w0).
    { clear. induction k as [|k IH]; intros w0; [split; reflexivity|].
      cbn [chainplays.main_loop]. destruct (IH (chainplays.main_iter pyboy w0)) as (-> & ->).
      unfold chainplays.main_iter.
      destruct (chainplays.actions_q w0); split; reflexivity. }
    destruct (Hloop k (chainplays.set_screen
                         (chainplays.ticks pyboy 240 (chainplays.screen w)) w)) as (-> & ->).
    split; reflexivity.
Qed.

Lemma workers_keep_to_their_state_witness :
  chainplays.actions_q
    (fst (chainplays.chain_listener_loop
            [node_down 12; node_with 15 [vote_log 2]] 10 (queued ["a"]))) = ["a"] /\
  chainplays.screen (chainplays.vote_aggregator_iter (window [2; 2; 5])) = [] /\
  chainplays.tally (chainplays.main pyboy_running 3 (window [2; 2; 5])) = [(2, 2); (5, 1)].
Proof.
  destruct (@workers_keep_to_their_state scripted_codec pyboy_running)
    as (Hlistener & Haggregator & Hmain).
  split; [apply (Hlistener [node_down 12; node_with 15 [vote_log 2]] 10 (queued ["a"]))|].
  split; [apply (Haggregator (window [2; 2; 5]))|].
  apply (Hmain 3%nat (window [2; 2; 5])).
Defined.

Section ListenerStart.
Context `{Codec}.

Local Abbreviation from_cursor cursor :=
  (fun f : filter_params => cursor <= fromBlock f /\ fromBlock f <= toBlock f).

Lemma chain_listener_iter_filters (n : node) (last_block : Z) (w : chainplays.world) :
  exists rs : list filter_params,
    chainplays.requests (fst (chainplays.chain_listener_iter n last_block w)) =
      chainplays.requests w ++ rs /\
    Forall (from_cursor last_block) rs.
Proof.
  destruct (block_number n) as [latest|e] eqn:Hhead.
  - destruct (Z.le_gt_cases last_block latest) as [Hle|Hgt].
    + exists [{| fromBlock := last_block; toBlock := latest |}].
      split; [apply chain_listener_iter_requests; assumption|].
      constructor; [simpl; lia|constructor].
    + exists []. split; [|constructor].
      rewrite chain_listener_iter_eq, chain_listener_try_eq, Hhead.
      destruct (Z.geb_spec latest last_block); [lia|]. rewrite app_nil_r. reflexivity.
  - exists []. split; [|constructor].
    rewrite chain_listener_iter_eq, chain_listener_try_eq, Hhead, app_nil_r. reflexivity.
Qed.

Lemma chain_listener_loop_filters (ns : list node) :
  forall (last_block : Z) (w : chainplays.world),
  exists rs : list filter_params,
    chainplays.requests (fst (chainplays.chain_listener_loop ns last_block w)) =
      chainplays.requests w ++ rs /\
    Forall (from_cursor last_block) rs.
Proof.
  induction ns as [|n ns IH]; intros last_block w.
  - exists []. split; [simpl; rewrite app_nil_r; reflexivity|constructor].
  - cbn [chainplays.chain_listener_loop]. unfold bind.
    destruct (chain_listener_iter_cursor n last_block w) as (c1 & Hc1 & Hmono).
    destruct (chain_listener_iter_filters n last_block w) as (rs1 & Hrs1 & Hall1).
    destruct (chainplays.chain_listener_iter n last_block w) as [w1 r1].
    cbn [fst snd] in *. subst r1.
    destruct (IH c1 w1) as (rs2 & Hrs2 & Hall2).
    exists (rs1 ++ rs2). split; [rewrite Hrs2, Hrs1, app_assoc; reflexivity|].
    apply Forall_app. split; [exact Hall1|].
    eapply Forall_impl; [exact Hall2|]. simpl. intros f [Hfrom Hto]. split; [|exact Hto].
    destruct Hmono as [->|(latest & _ & Hge & ->)]; lia.
Qed.

End ListenerStart.

(** X17. The windowed listener starts at the head it sees when it is
    started and never looks back: if that first [block_number] call
    raises, which happens outside the [try], the listener ends with the
    exception and has done nothing; otherwise every filter it ever sends
    starts at or after that head and is a well-formed range, from <= to. *)
Theorem chain_listener_starts_at_head `{Codec}
        (n0 : node) (ns : list node) (w : chainplays.world) :
  (forall e : exn,
      block_number n0 = Raise e ->
      chainplays.chain_listener n0 ns w = (w, Raise e)) /\
  (forall head : Z,
      block_number n0 = Ok head ->
      exists (cursor : Z) (rs : list filter_params),
        snd (chainplays.chain_listener n0 ns w) = Ok cursor /\
        head <= cursor /\
        chainplays.requests (fst (chainplays.chain_listener n0 ns w)) =
          chainplays.requests w ++ rs /\
        Forall (fun f : filter_params => head <= fromBlock f /\ fromBlock f <= toBlock f) rs).
Proof.
  unfold chainplays.chain_listener, chainplays.eth_block_number, bind, lift. split.
  - intros e ->. reflexivity.
  - intros head ->.
    destruct (chain_listener_loop_monotone ns head w) as (cursor & Hcursor & Hle).
    destruct (chain_listener_loop_filters ns head w) as (rs & Hrs & Hall).
    exists cursor, rs. auto.
Qed.

Lemma chain_listener_starts_at_head_witness :
  chainplays.chain_listener
    {| block_number := Raise "transport error"; get_logs := fun _ => Ok [] |}
    [node_with 15 [vote_log 2]] (queued []) = (queued [], Raise "transport error") /\
  exists (cursor : Z) (rs : list filter_params),
    snd (chainplays.chain_listener (node_with 10 [])
           [node_down 12; node_with 15 [vote_log 2]] (queued [])) = Ok cursor /\
    10 <= cursor /\
    chainplays.requests
      (fst (chainplays.chain_listener (node_with 10 [])
              [node_down 12; node_with 15 [vote_log 2]] (queued []))) =
      chainplays.requests (queued []) ++ rs /\
    Forall (fun f : filter_params => 10 <= fromBlock f /\ fromBlock f <= toBlock f) rs.
Proof.
  split.
  - destruct (@chain_listener_starts_at_head scripted_codec
                {| block_number := Raise "transport error"; get_logs := fun _ => Ok [] |}
                [node_with 15 [vote_log 2]] (queued [])) as (Hdead & _).
    apply Hdead. reflexivity.
  - destruct (@chain_listener_starts_at_head scripted_codec (node_with 10 [])
                [node_down 12; node_with 15 [vote_log 2]] (queued [])) as (_ & Hrun).
    apply Hrun. reflexivity.
Defined.

(** X18. The tally never holds two entries for the same index: in every
    configuration that the three threads of the windowed variant can
    reach, the keys of the tally are pairwise distinct, so that the count
    of an index is the count of its one entry. *)
Theorem tally_keys_distinct (pyboy : PyBoy) (c : chainplays.config) :
  chainplays.reachable pyboy c ->
  NoDup ((chainplays.tally (chainplays.shared c)).*1) /\
  forall k n : Z,
    (k, n) ∈ chainplays.tally (chainplays.shared c) ->
    Counter.get (chainplays.tally (chainplays.shared c)) k = n.
Proof.
  intros Hreach.
  assert (Hnd : NoDup ((chainplays.tally (chainplays.shared c)).*1)).
  { induction Hreach as [|c c' _ IH Hstep]; [constructor|].
    destruct Hstep as [c cmd|c f|c _|c cmd_idx _|c|c]; cbn [chainplays.shared].
    - apply keys_nodup_incr. exact IH.
    - exact IH.
    - destruct (vote_aggregator_locked_shared (chainplays.shared c)) as (_ & [->| ->]);
        [exact IH|constructor].
    - destruct (vote_aggregator_put_shared cmd_idx (chainplays.shared c)) as (-> & _).
      exact IH.
    - exact IH.
    - destruct (main_iter_shared pyboy (chainplays.shared c)) as (-> & _). exact IH. }
  split; [exact Hnd|]. intros k n Hin. apply get_of_item; assumption.
Qed.

Lemma tally_keys_distinct_witness :
  chainplays.reachable pyboy_running config_window /\
  NoDup ((chainplays.tally (chainplays.shared config_window)).*1) /\
  forall k n : Z,
    (k, n) ∈ chainplays.tally (chainplays.shared config_window) ->
    Counter.get (chainplays.tally (chainplays.shared config_window)) k = n.
Proof.
  assert (Hreach : chainplays.reachable pyboy_running config_window).
  { apply (chainplays.reachable_step pyboy_running
             {| chainplays.shared := window [8; 4]; chainplays.pending := None |}).
    - apply (chainplays.reachable_step pyboy_running config_vote_8).
      + apply (chainplays.reachable_step pyboy_running chainplays.initial);
          [constructor|].
        exact (chainplays.step_vote pyboy_running chainplays.initial 8).
      + exact (chainplays.step_vote pyboy_running config_vote_8 4).
    - exact (chainplays.step_vote pyboy_running
               {| chainplays.shared := window [8; 4]; chainplays.pending := None |} 4). }
  split; [exact Hreach|].
  apply (tally_keys_distinct pyboy_running config_window). exact Hreach.
Defined.

Section Pipelines.
Context `{Codec}.

Lemma chaos_chain_listener_iter_success
      (n : node) (last_block latest : Z) (logs : list Log) (decoded : list MoveArgs)
      (w : chainplaysChaos.world) :
  block_number n = Ok latest ->
  last_block <= latest ->
  get_logs n {| fromBlock := last_block; toBlock := latest |} = Ok logs ->
  Forall2 (fun log evt => get_event_data log = Ok evt) logs decoded ->
  chainplaysChaos.chain_listener_iter n last_block w =
  ({| chainplaysChaos.actions_q :=
        chainplaysChaos.actions_q w ++
        omap (fun evt => chainplaysChaos.CMD_INDEX_TO_BUTTON !! cmd evt) decoded;
      chainplaysChaos.requests :=
        chainplaysChaos.requests w ++ [{| fromBlock := last_block; toBlock := latest |}];
      chainplaysChaos.screen := chainplaysChaos.screen w |}, Ok (latest + 1)).
Proof.
  intros Hhead Hle Hlogs Hdec.
  rewrite chaos_chain_listener_iter_eq, chaos_chain_listener_try_eq, Hhead.
  destruct (Z.geb_spec latest last_block) as [_|Hlt]; [|lia].
  cbv zeta. rewrite Hlogs, (chaos_for_each_decoded _ _ Hdec). reflexivity.
Qed.

End Pipelines.

(** X19. The windowed pipeline end to end. From an empty tally and an
    empty queue, a cycle of the listener that fetches a batch whose logs
    all decode, then one iteration of the aggregator, then one iteration of
    the emulation loop: the calls made on the emulator are
    [pyboy.button(btn, True)] for the winner's button, six [pyboy.tick()],
    [pyboy.button(btn, False)] and two [pyboy.tick()], or a single
    [pyboy.tick()] when the batch is empty or its winner has no button; the
    tally and the queue are empty again, and the cursor is head + 1. *)
Theorem windowed_pipeline `{Codec}
        (pyboy : PyBoy) (n : node) (last_block latest : Z) (logs : list Log)
        (decoded : list MoveArgs) (w : chainplays.world) :
  chainplays.tally w = [] ->
  chainplays.actions_q w = [] ->
  block_number n = Ok latest ->
  last_block <= latest ->
  get_logs n {| fromBlock := last_block; toBlock := latest |} = Ok logs ->
  Forall2 (fun log evt => get_event_data log = Ok evt) logs decoded ->
  snd (chainplays.chain_listener_iter n last_block w) = Ok (latest + 1) /\
  chainplays.main_iter pyboy
    (chainplays.vote_aggregator_iter (fst (chainplays.chain_listener_iter n last_block w))) =
  {| chainplays.tally := [];
     chainplays.actions_q := [];
     chainplays.requests :=
       chainplays.requests w ++ [{| fromBlock := last_block; toBlock := latest |}];
     chainplays.screen :=
       chainplays.screen w ++
       match winner_button (cmd <$> decoded) with
       | Some btn =>
           [Button btn true] ++ replicate 6 Tick ++ [Button btn false] ++ replicate 2 Tick
       | None => [Tick]
       end |}.
Proof.
  intros Htally Hq Hhead Hle Hlogs Hdec.
  rewrite (chain_listener_iter_success n last_block latest logs decoded w Hhead Hle Hlogs Hdec).
  split; [reflexivity|]. cbn [fst].
  set (w0 := {| chainplays.tally := chainplays.tally w;
                chainplays.actions_q := chainplays.actions_q w;
                chainplays.requests :=
                  chainplays.requests w ++ [{| fromBlock := last_block; toBlock := latest |}];
                chainplays.screen := chainplays.screen w |}).
  change (chainplays.vote_aggregator_iter _)
    with (chainplays.vote_aggregator_iter
            (chainplays.set_tally
               (foldl Counter.incr (chainplays.tally w0) (cmd <$> decoded)) w0)).
  rewrite (vote_aggregator_iter_window (cmd <$> decoded) w0 Htally).
  subst w0. cbn [chainplays.actions_q chainplays.set_actions_q chainplays.tally
                 chainplays.requests chainplays.screen].
  rewrite Hq, Htally. cbn [app].
  destruct (winner_button (cmd <$> decoded)) as [btn|].
  - rewrite (windowed_main_iter_pop pyboy btn []); reflexivity.
  - unfold chainplays.main_iter, tick. reflexivity.
Qed.

Lemma windowed_pipeline_witness :
  snd (chainplays.chain_listener_iter
         (node_with 15 [vote_log 2; vote_log 2; vote_log 5]) 10 (queued [])) = Ok (15 + 1) /\
  chainplays.main_iter pyboy_running
    (chainplays.vote_aggregator_iter
       (fst (chainplays.chain_listener_iter
               (node_with 15 [vote_log 2; vote_log 2; vote_log 5]) 10 (queued [])))) =
  {| chainplays.tally := [];
     chainplays.actions_q := [];
     chainplays.requests := [{| fromBlock := 10; toBlock := 15 |}];
     chainplays.screen :=
       [Button "left" true; Tick; Tick; Tick; Tick; Tick; Tick;
        Button "left" false; Tick; Tick] |}.
Proof.
  apply (@windowed_pipeline scripted_codec pyboy_running
           (node_with 15 [vote_log 2; vote_log 2; vote_log 5]) 10 15
           [vote_log 2; vote_log 2; vote_log 5]
           [ {| sender := "0xA11CE"; cmd := 2; weight := 1; memo := "" |};
             {| sender := "0xA11CE"; cmd := 2; weight := 1; memo := "" |};
             {| sender := "0xA11CE"; cmd := 5; weight := 1; memo := "" |} ]
           (queued [])).
  - reflexivity.
  - reflexivity.
  - reflexivity.
  - lia.
  - reflexivity.
  - repeat constructor.
Defined.

(** X20. The chaos pipeline end to end. From an empty queue, a cycle of
    the listener that fetches a batch whose logs all decode, then [k]
    iterations of the emulation loop: the buttons pressed are the buttons
    of the first [k] votes of the batch that have one, in the order of the
    logs and each once, at one emulator step for each iteration. *)
Theorem chaos_pipeline `{Codec}
        (pyboy : PyBoy) (n : node) (last_block latest : Z) (logs : list Log)
        (decoded : list MoveArgs) (k : nat) (w : chainplaysChaos.world) :
  chainplaysChaos.actions_q w = [] ->
  block_number n = Ok latest ->
  last_block <= latest ->
  get_logs n {| fromBlock := last_block; toBlock := latest |} = Ok logs ->
  Forall2 (fun log evt => get_event_data log = Ok evt) logs decoded ->
  presses
    (chainplaysChaos.screen
       (chainplaysChaos.main_loop pyboy k
          (fst (chainplaysChaos.chain_listener_iter n last_block w)))) =
    presses (chainplaysChaos.screen w) ++
    take k (omap (fun evt => chainplaysChaos.CMD_INDEX_TO_BUTTON !! cmd evt) decoded) /\
  count_ticks
    (chainplaysChaos.screen
       (chainplaysChaos.main_loop pyboy k
          (fst (chainplaysChaos.chain_listener_iter n last_block w)))) =
    (count_ticks (chainplaysChaos.screen w) + k)%nat.
Proof.
  intros Hq Hhead Hle Hlogs Hdec.
  rewrite (chaos_chain_listener_iter_success n last_block latest logs decoded w
             Hhead Hle Hlogs Hdec). cbn [fst].
  match goal with
  | |- context [chainplaysChaos.main_loop pyboy k ?w1] =>
      destruct (chaos_main_loop_effect pyboy k w1) as (_ & Hp & Ht)
  end.
  rewrite Hp, Ht. cbn [chainplaysChaos.screen chainplaysChaos.actions_q].
  rewrite Hq. split; reflexivity.
Qed.

Lemma chaos_pipeline_witness :
  presses
    (chainplaysChaos.screen
       (chainplaysChaos.main_loop pyboy_running 5
          (fst (chainplaysChaos.chain_listener_iter
                  (node_with 15 [vote_log 2; vote_log 9; vote_log 2; vote_log 5]) 10
                  (chaos_queued []))))) = ["left"; "left"; "b"] /\
  count_ticks
    (chainplaysChaos.screen
       (chainplaysChaos.main_loop pyboy_running 5
          (fst (chainplaysChaos.chain_listener_iter
                  (node_with 15 [vote_log 2; vote_log 9; vote_log 2; vote_log 5]) 10
                  (chaos_queued []))))) = 5%nat.
Proof.
  apply (@chaos_pipeline scripted_codec pyboy_running
           (node_with 15 [vote_log 2; vote_log 9; vote_log 2; vote_log 5]) 10 15
           [vote_log 2; vote_log 9; vote_log 2; vote_log 5]
           [ {| sender := "0xA11CE"; cmd := 2; weight := 1; memo := "" |};
             {| sender := "0xA11CE"; cmd := 9; weight := 1; memo := "" |};
             {| sender := "0xA11CE"; cmd := 2; weight := 1; memo := "" |};
             {| sender := "0xA11CE"; cmd := 5; weight := 1; memo := "" |} ]
           5%nat (chaos_queued [])).
  - reflexivity.
  - reflexivity.
  - lia.
  - reflexivity.
  - repeat constructor.
Defined.

(** ** The chaos listener over a run of cycles *)

Section ChaosRun.
Context `{Codec}.

Lemma chaos_for_each_requests (logs : list Log) :
  forall w : chainplaysChaos.world,
    chainplaysChaos.requests (fst (for_each logs chainplaysChaos.chain_listener_log w)) =
    chainplaysChaos.requests w.
Proof.
  induction logs as [|log logs IH]; intros w.
  - reflexivity.
  - rewrite for_each_cons, chaos_chain_listener_log_eq.
    destruct (get_event_data log) as [evt|e]; [|reflexivity].
    destruct (chainplaysChaos.CMD_INDEX_TO_BUTTON !! cmd evt); rewrite IH; reflexivity.
Qed.

(** The filters of one cycle: none, or one that starts at the cursor. *)
Lemma chaos_chain_listener_iter_filters
      (n : node) (last_block : Z) (w : chainplaysChaos.world) :
  exists rs : list filter_params,
    chainplaysChaos.requests (fst (chainplaysChaos.chain_listener_iter n last_block w)) =
      chainplaysChaos.requests w ++ rs /\
    Forall (fun f : filter_params => last_block <= fromBlock f) rs.
Proof.
  rewrite chaos_chain_listener_iter_eq, chaos_chain_listener_try_eq.
  destruct (block_number n) as [latest|e];
    [|exists []; split; [rewrite app_nil_r; reflexivity|constructor]].
  destruct (Z.geb latest last_block);
    [|exists []; split; [rewrite app_nil_r; reflexivity|constructor]].
  cbv zeta. exists [{| fromBlock := last_block; toBlock := latest |}].
  split; [|constructor; [simpl; lia|constructor]].
  destruct (get_logs n _) as [logs|e]; [|reflexivity].
  match goal with
  | |- context [for_each logs ?b ?w1] =>
      pose proof (chaos_for_each_requests logs w1) as Hreq;
      destruct (for_each logs b w1) as [w2 [[]|e]]
  end; exact Hreq.
Qed.

(** Over a run, every filter starts at or after the cursor the run started
    with. *)
Lemma chaos_chain_listener_loop_filters (ns : list node) :
  forall (last_block : Z) (w : chainplaysChaos.world),
  exists rs : list filter_params,
    chainplaysChaos.requests (fst (chainplaysChaos.chain_listener_loop ns last_block w)) =
      chainplaysChaos.requests w ++ rs /\
    Forall (fun f : filter_params => last_block <= fromBlock f) rs.
Proof.
  induction ns as [|n ns IH]; intros last_block w.
  - exists []. split; [simpl; rewrite app_nil_r; reflexivity|constructor].
  - cbn [chainplaysChaos.chain_listener_loop]. unfold bind.
    destruct (chaos_chain_listener_iter_cursor n last_block w) as (c1 & Hc1 & Hmono).
    destruct (chaos_chain_listener_iter_filters n last_block w) as (rs1 & Hrs1 & Hall1).
    destruct (chainplaysChaos.chain_listener_iter n last_block w) as [w1 r1].
    cbn [fst snd] in *. subst r1.
    destruct (IH c1 w1) as (rs2 & Hrs2 & Hall2).
    exists (rs1 ++ rs2). split; [rewrite Hrs2, Hrs1, app_assoc; reflexivity|].
    apply Forall_app. split; [exact Hall1|].
    eapply Forall_impl; [exact Hall2|]. simpl. intros f Hfrom.
    destruct Hmono as [->|(latest & _ & Hge & ->)]; lia.
Qed.

(** [k] attempts of a cycle that fails at an undecodable log. *)
Lemma chaos_chain_listener_loop_undecodable
      (n : node) (last_block latest : Z) (pre post : list Log) (bad : Log)
      (decoded : list MoveArgs) (e : exn) (k : nat) :
  block_number n = Ok latest ->
  last_block <= latest ->
  get_logs n {| fromBlock := last_block; toBlock := latest |} = Ok (pre ++ bad :: post) ->
  Forall2 (fun log evt => get_event_data log = Ok evt) pre decoded ->
  get_event_data bad = Raise e ->
  forall w : chainplaysChaos.world,
    snd (chainplaysChaos.chain_listener_loop (replicate k n) last_block w) = Ok last_block /\
    chainplaysChaos.actions_q
      (fst (chainplaysChaos.chain_listener_loop (replicate k n) last_block w)) =
    chainplaysChaos.actions_q w ++
    List.concat
      (replicate k (omap (fun evt => chainplaysChaos.CMD_INDEX_TO_BUTTON !! cmd evt) decoded)).
Proof.
  intros Hhead Hle Hlogs Hpre Hbad.
  induction k as [|k IH]; intros w.
  - simpl. rewrite app_nil_r. split; reflexivity.
  - cbn [replicate chainplaysChaos.chain_listener_loop]. unfold bind.
    rewrite (chaos_chain_listener_iter_undecodable n last_block latest pre post bad
               decoded e w Hhead Hle Hlogs Hpre Hbad).
    match goal with
    | |- context [chainplaysChaos.chain_listener_loop _ _ ?w1] =>
        destruct (IH w1) as (Hcur & Hq)
    end.
    split; [exact Hcur|]. rewrite Hq. cbn [chainplaysChaos.actions_q List.concat].
    rewrite <- app_assoc. reflexivity.
Qed.

End ChaosRun.

(** The claim of C6 fails for a vote in front of an undecodable log. The
    batch fetched at cursor 10 holds one vote for index 4 and then a log
    that does not decode: the cycle queues "a" and raises, the cursor stays
    at 10, the next cycle fetches the same range and queues "a" again.
    After three cycles the one vote has three "a" actions in the queue,
    not exactly one. *)
Lemma chaos_listener_replays_vote_counterexample :
  chainplaysChaos.chain_listener_loop
    (replicate 3 (node_with 12 [vote_log 4; bad_log])) 10 (chaos_queued []) =
  ({| chainplaysChaos.actions_q := ["a"; "a"; "a"];
      chainplaysChaos.requests := replicate 3 {| fromBlock := 10; toBlock := 12 |};
      chainplaysChaos.screen := [] |}, Ok 10) /\
  chainplaysChaos.actions_q
    (fst (chainplaysChaos.chain_listener_loop
            (replicate 3 (node_with 12 [vote_log 4; bad_log])) 10 (chaos_queued []))) <>
    ["a"].
Proof. split; [reflexivity|discriminate]. Qed.

(** C6, amended. In chaos mode a decoded vote whose index is in the table
    gets exactly one button action in the queue each time its log is
    processed, behind the actions queued before it. A cycle whose logs all
    decode queues the buttons of its mapped votes, one each and in the
    order of the logs, moves the cursor past its range, and no later cycle
    fetches that range again: a vote for index 4 then has exactly one "a"
    action, and the three logs [2, 2, 5] of one cycle give exactly
    [left, left, b]. A cycle that meets an undecodable log has queued the
    votes in front of it and is run again from the same cursor, so those
    votes get one more action at every attempt. *)
Theorem chaos_listener_enqueues_each_vote_per_attempt :
  (forall (C : Codec) (log : Log) (evt : MoveArgs) (btn : string)
          (w : chainplaysChaos.world),
      get_event_data log = Ok evt ->
      chainplaysChaos.CMD_INDEX_TO_BUTTON !! cmd evt = Some btn ->
      chainplaysChaos.chain_listener_log log w =
      (chainplaysChaos.set_actions_q (chainplaysChaos.actions_q w ++ [btn]) w, Ok tt)) /\
  (forall (C : Codec) (logs : list Log) (decoded : list MoveArgs)
          (w : chainplaysChaos.world),
      Forall2 (fun log evt => get_event_data log = Ok evt) logs decoded ->
      for_each logs chainplaysChaos.chain_listener_log w =
      (chainplaysChaos.set_actions_q
         (chainplaysChaos.actions_q w ++
          omap (fun evt => chainplaysChaos.CMD_INDEX_TO_BUTTON !! cmd evt) decoded) w,
       Ok tt)) /\
  (forall (C : Codec) (n : node) (last_block latest : Z) (logs : list Log)
          (decoded : list MoveArgs) (w : chainplaysChaos.world),
      block_number n = Ok latest ->
      last_block <= latest ->
      get_logs n {| fromBlock := last_block; toBlock := latest |} = Ok logs ->
      Forall2 (fun log evt => get_event_data log = Ok evt) logs decoded ->
      chainplaysChaos.chain_listener_iter n last_block w =
        ({| chainplaysChaos.actions_q :=
              chainplaysChaos.actions_q w ++
              omap (fun evt => chainplaysChaos.CMD_INDEX_TO_BUTTON !! cmd evt) decoded;
            chainplaysChaos.requests :=
              chainplaysChaos.requests w ++
              [{| fromBlock := last_block; toBlock := latest |}];
            chainplaysChaos.screen := chainplaysChaos.screen w |}, Ok (latest + 1)) /\
      forall (ns : list node) (w' : chainplaysChaos.world),
      exists rs : list filter_params,
        chainplaysChaos.requests
          (fst (chainplaysChaos.chain_listener_loop ns (latest + 1) w')) =
          chainplaysChaos.requests w' ++ rs /\
        Forall (fun f : filter_params => latest < fromBlock f) rs) /\
  (forall (C : Codec) (n : node) (last_block latest : Z) (pre post : list Log) (bad : Log)
          (decoded : list MoveArgs) (e : exn) (k : nat) (w : chainplaysChaos.world),
      block_number n = Ok latest ->
      last_block <= latest ->
      get_logs n {| fromBlock := last_block; toBlock := latest |} = Ok (pre ++ bad :: post) ->
      Forall2 (fun log evt => get_event_data log = Ok evt) pre decoded ->
      get_event_data bad = Raise e ->
      snd (chainplaysChaos.chain_listener_loop (replicate k n) last_block w) = Ok last_block /\
      chainplaysChaos.actions_q
        (fst (chainplaysChaos.chain_listener_loop (replicate k n) last_block w)) =
      chainplaysChaos.actions_q w ++
      List.concat
        (replicate k
           (omap (fun evt => chainplaysChaos.CMD_INDEX_TO_BUTTON !! cmd evt) decoded))) /\
  chainplaysChaos.actions_q
    (fst (chainplaysChaos.chain_listener_iter
            (node_with 10 [vote_log 4]) 10 (chaos_queued ["up"]))) = ["up"; "a"] /\
  chainplaysChaos.chain_listener_iter
    (node_with 10 [vote_log 2; vote_log 2; vote_log 5]) 10 (chaos_queued []) =
    ({| chainplaysChaos.actions_q := ["left"; "left"; "b"];
        chainplaysChaos.requests := [{| fromBlock := 10; toBlock := 10 |}];
        chainplaysChaos.screen := [] |}, Ok 11).
Proof.
  split; [|split; [|split; [|split; [|split; reflexivity]]]].
  - intros C log evt btn w Hlog Hbtn.
    rewrite chaos_chain_listener_log_eq, Hlog, Hbtn. reflexivity.
  - intros C logs decoded w Hdec. apply chaos_for_each_decoded. exact Hdec.
  - intros C n last_block latest logs decoded w Hhead Hle Hlogs Hdec. split.
    + apply (chaos_chain_listener_iter_success n last_block latest logs decoded w Hhead Hle Hlogs Hdec).
    + intros ns w'.
      destruct (chaos_chain_listener_loop_filters ns (latest + 1) w') as (rs & Hrs & Hall).
      exists rs. split; [exact Hrs|].
      eapply Forall_impl; [exact Hall|]. simpl. intros f Hf. lia.
  - intros C n last_block latest pre post bad decoded e k w Hhead Hle Hlogs Hpre Hbad.
    apply (chaos_chain_listener_loop_undecodable n last_block latest pre post bad decoded e k
             Hhead Hle Hlogs Hpre Hbad).
Qed.

Lemma chaos_listener_enqueues_each_vote_per_attempt_witness :
  (* one log *)
  chainplaysChaos.chain_listener_log (vote_log 4) (chaos_queued ["up"]) =
    (chaos_queued ["up"; "a"], Ok tt) /\
  (* a batch that decodes whole; index 9 has no button *)
  for_each [vote_log 2; vote_log 9; vote_log 2; vote_log 5]
    chainplaysChaos.chain_listener_log (chaos_queued ["a"]) =
    (chaos_queued ["a"; "left"; "left"; "b"], Ok tt) /\
  (* a cycle that succeeds, and the run after it *)
  chainplaysChaos.chain_listener_iter
    (node_with 12 [vote_log 4]) 10 (chaos_queued ["up"]) =
    ({| chainplaysChaos.actions_q := ["up"; "a"];
        chainplaysChaos.requests := [{| fromBlock := 10; toBlock := 12 |}];
        chainplaysChaos.screen := [] |}, Ok (12 + 1)) /\
  (exists rs : list filter_params,
      chainplaysChaos.requests
        (fst (chainplaysChaos.chain_listener_loop
                [node_with 12 [vote_log 4]; node_with 15 [vote_log 4]] (12 + 1)
                (chaos_queued ["up"; "a"]))) =
        chainplaysChaos.requests (chaos_queued ["up"; "a"]) ++ rs /\
      Forall (fun f : filter_params => 12 < fromBlock f) rs) /\
  (* a cycle that fails at an undecodable log, three attempts *)
  snd (chainplaysChaos.chain_listener_loop
         (replicate 3 (node_with 12 [vote_log 4; bad_log; vote_log 5])) 10
         (chaos_queued ["up"])) = Ok 10 /\
  chainplaysChaos.actions_q
    (fst (chainplaysChaos.chain_listener_loop
            (replicate 3 (node_with 12 [vote_log 4; bad_log; vote_log 5])) 10
            (chaos_queued ["up"]))) = ["up"; "a"; "a"; "a"].
Proof.
  destruct chaos_listener_enqueues_each_vote_per_attempt
    as (Hone & Hall & Hcycle & Hretry & _).
  split.
  { apply (Hone scripted_codec (vote_log 4)
             {| sender := "0xA11CE"; cmd := 4; weight := 1; memo := "" |} "a"
             (chaos_queued ["up"])); reflexivity. }
  split.
  { apply (Hall scripted_codec
             [vote_log 2; vote_log 9; vote_log 2; vote_log 5]
             [ {| sender := "0xA11CE"; cmd := 2; weight := 1; memo := "" |};
               {| sender := "0xA11CE"; cmd := 9; weight := 1; memo := "" |};
               {| sender := "0xA11CE"; cmd := 2; weight := 1; memo := "" |};
               {| sender := "0xA11CE"; cmd := 5; weight := 1; memo := "" |} ]
             (chaos_queued ["a"])).
    repeat constructor. }
  destruct (Hcycle scripted_codec (node_with 12 [vote_log 4]) 10 12 [vote_log 4]
              [{| sender := "0xA11CE"; cmd := 4; weight := 1; memo := "" |}]
              (chaos_queued ["up"])) as (Hiter & Hlater);
    [reflexivity|lia|reflexivity|repeat constructor|].
  split; [exact Hiter|].
  split; [apply (Hlater [node_with 12 [vote_log 4]; node_with 15 [vote_log 4]]
                   (chaos_queued ["up"; "a"]))|].
  apply (Hretry scripted_codec (node_with 12 [vote_log 4; bad_log; vote_log 5]) 10 12
           [vote_log 4] [vote_log 5] bad_log
           [{| sender := "0xA11CE"; cmd := 4; weight := 1; memo := "" |}]
           "could not decode log" 3%nat (chaos_queued ["up"]));
    [reflexivity|lia|reflexivity|repeat constructor|reflexivity].
Defined.
